(** * Verification of the adaptor layer of [adaptor/basic_adaptor.py]

    The Python module wraps several robustness verifiers behind one
    operation [verify(input, label, norm_type, radius)].  This file embeds
    the adaptors as Rocq functions in a small state-and-exception monad:
    the adaptor object ([self]), the state of the external collaborators
    (bound engines, solver) and the record of the calls made to them are
    threaded explicitly; a Python exception is a [Raise] result.

    Numbers are kept abstract (class [Num]): the adaptors only subtract,
    divide and compare.  The external collaborators (classifier forward
    pass, [model_transform], the bound engines, cvxpy, the PGD attack) are
    the fields of the class [Externals]. *)

From Stdlib Require Import QArith String ZArith Bool Arith Lia List RelationClasses.
Import ListNotations.
Local Open Scope Z_scope.

Set Implicit Arguments.

(* ================================================================== *)
(** ** Numbers *)

(** The Python floats the adaptors compute with: the constants [0.0],
    [1.0], [50.0], subtraction, division and the comparisons [<], [<=]
    and [==]. *)
Class Num := {
  F : Type;
  zero : F;
  one : F;
  fifty : F;
  fsub : F -> F -> F;
  fdiv : F -> F -> F;
  flt : F -> F -> bool;
  fle : F -> F -> bool;
  feqb : F -> F -> bool
}.

(** What a linear order gives; no [verify] needs it, only the statements
    that read [min], [max], [>=] and [<=] as the order's. *)
Class NumOrder (N : Num) := {
  fle_not_flt : forall a b : F, fle a b = negb (flt b a);
  flt_fle : forall a b : F, flt a b = true -> fle a b = true;
  fle_trans : forall a b c : F, fle a b = true -> fle b c = true -> fle a c = true
}.

(* ================================================================== *)
(** ** Exceptions and results *)

Inductive exn :=
| AssertionError
| NotImplementedError
| AttributeError
| IndexError
| ValueError
| TypeError
| RuntimeError
| ZeroDivisionError.

Inductive result (A : Type) :=
| Ok (a : A)
| Raise (e : exn).
Arguments Ok {A} a.
Arguments Raise {A} e.

Definition rbind {A B} (r : result A) (k : A -> result B) : result B :=
  match r with
  | Ok a => k a
  | Raise e => Raise e
  end.

(* ================================================================== *)
(** ** Python and numpy builtins *)

Section Builtins.
Context {N : Num}.

(** [min(xs)]: the first smallest item, found with [<]; [ValueError] on
    an empty sequence. *)
Fixpoint min_from (m : F) (xs : list F) : F :=
  match xs with
  | [] => m
  | x :: xs' => if flt x m then min_from x xs' else min_from m xs'
  end.

Definition py_min (xs : list F) : result F :=
  match xs with
  | [] => Raise ValueError
  | x :: xs' => Ok (min_from x xs')
  end.

(** [max(xs)]: the first largest item, found with [>]. *)
Fixpoint max_from (m : F) (xs : list F) : F :=
  match xs with
  | [] => m
  | x :: xs' => if flt m x then max_from x xs' else max_from m xs'
  end.

Definition py_max (xs : list F) : result F :=
  match xs with
  | [] => Raise ValueError
  | x :: xs' => Ok (max_from x xs')
  end.

(** [a / b] on two Python floats: [ZeroDivisionError] when [b == 0.0]. *)
Definition py_truediv (a b : F) : result F :=
  if feqb b zero then Raise ZeroDivisionError else Ok (fdiv a b).

(** [np.argmax(xs)]: the index of the first largest entry. *)
Fixpoint argmax_from (best_i : Z) (best : F) (i : Z) (xs : list F) : Z :=
  match xs with
  | [] => best_i
  | x :: xs' =>
      if flt best x then argmax_from i x (i + 1) xs'
      else argmax_from best_i best (i + 1) xs'
  end.

Definition np_argmax (xs : list F) : result Z :=
  match xs with
  | [] => Raise ValueError
  | x :: xs' => Ok (argmax_from 0 x 1 xs')
  end.

(** [np.maximum(x, 0)] on one entry, and on an array. *)
Definition np_maximum (x y : F) : F := if flt x y then y else x.

Definition np_maximum0 (v : list F) : list F :=
  map (fun x => np_maximum x zero) v.

(** [range(n)]. *)
Definition range (n : Z) : list Z :=
  map Z.of_nat (seq 0 (Z.to_nat n)).

(* ---------------------------------------------------------------- *)
(** ** Tensors

    A contiguous torch tensor: its sizes and its entries in row-major
    order. *)

Record tensor := { shape : list nat; data : list F }.

(** [t.unsqueeze(0)]. *)
Definition unsqueeze0 (t : tensor) : tensor :=
  {| shape := 1%nat :: shape t; data := data t |}.

(** [t.contiguous().view(-1)]. *)
Definition view_flat (t : tensor) : tensor :=
  {| shape := [length (data t)]; data := data t |}.

(** [v.repeat(height, width, 1)] for a 1-D tensor [v]: sizes
    [(height, width, len v)], the entries of [v] once per position. *)
Definition repeat_hw1 (v : list F) (height width : nat) : tensor :=
  {| shape := [height; width; length v];
     data := concat (repeat v (height * width)) |}.

(** [t.permute(2, 0, 1)] of a 3-D tensor of sizes [(a, b, c)]: sizes
    [(c, a, b)], entry [(k, i, j)] is the old entry [(i, j, k)]. *)
Definition permute_2_0_1 (t : tensor) : tensor :=
  match shape t with
  | [a; b; c] =>
      {| shape := [c; a; b];
         data := flat_map
                   (fun k => map (fun p => nth (p * c + k) (data t) zero)
                                 (seq 0 (a * b)))
                   (seq 0 c) |}
  | _ => t
  end.

(** Expanding a leading dimension of size 1 to size [c] (broadcasting). *)
Definition expand0 (c : nat) (t : tensor) : tensor :=
  {| shape := c :: tl (shape t); data := concat (repeat (data t) c) |}.

Fixpoint map2 (f : F -> F -> F) (xs ys : list F) : list F :=
  match xs, ys with
  | x :: xs', y :: ys' => f x y :: map2 f xs' ys'
  | _, _ => []
  end.

(** An elementwise binary operation of two tensors whose trailing sizes
    agree (as they do in [input_preprocess], where the second operand is
    built from the first one's height and width): the leading sizes must
    be equal or one of them 1, else torch raises [RuntimeError]. *)
Definition elementwise (f : F -> F -> F) (a b : tensor) : result tensor :=
  match shape a, shape b with
  | ca :: ra, cb :: _ =>
      if Nat.eqb ca cb then
        Ok {| shape := shape a; data := map2 f (data a) (data b) |}
      else if Nat.eqb cb 1 then
        Ok {| shape := shape a;
              data := map2 f (data a) (data (expand0 ca b)) |}
      else if Nat.eqb ca 1 then
        Ok {| shape := cb :: ra;
              data := map2 f (data (expand0 cb a)) (data b) |}
      else Raise RuntimeError
  | _, _ => Raise RuntimeError
  end.

End Builtins.

(* ================================================================== *)
(** ** Models, bound engines and the external collaborators *)

Section Model.
Context {N : Num}.

(** [datasets.NormalizeLayer]: the per-channel means and standard
    deviations as Python lists ([orig_means], [orig_sds]) and as 1-D
    tensors ([means], [sds]). *)
Record NormalizeLayer_t := {
  orig_means : list F;
  orig_sds : list F;
  means : list F;
  sds : list F
}.

(** A layer is a [NormalizeLayer], an [nn.Sequential] or any other
    module; a model is an [nn.Sequential], the list of its layers. *)
#[warnings="-register-all"] Inductive layer :=
| NormalizeLayer (flayer : NormalizeLayer_t)
| Sequential (layers : list layer)
| OtherLayer (id : nat).

Definition isinstance_NormalizeLayer (l : layer) : bool :=
  match l with NormalizeLayer _ => true | _ => false end.

Definition isinstance_Sequential (l : layer) : bool :=
  match l with Sequential _ => true | _ => false end.

(** [model[i]]. *)
Definition getitem (model : list layer) (i : nat) : result layer :=
  match nth_error model i with
  | Some l => Ok l
  | None => Raise IndexError
  end.

(** What [new_model] holds: the torch model itself (IBP) or the result
    of [model_transform]. *)
Inductive net (MModel : Type) :=
| TorchModel (m : list layer)
| Materialized (m : MModel).

(** The bound engines, each the record of its constructor call. *)
Inductive oracle (MModel : Type) :=
| FastIntervalBound (m : option (net MModel)) (in_shape : list nat) (in_min in_max : F)
| IntervalFastLinBound (m : option (net MModel)) (in_shape : list nat) (in_min in_max : F)
| MILPVerifier (m : option (net MModel)) (in_shape : list nat) (in_min in_max : F)
| PercySDP (m : option (net MModel)) (in_shape : list nat).

(** The collaborators [basic_adaptor.py] imports.  [E] is their state
    (the bounds an engine holds, the cvxpy problem, the solver
    settings); every call is a function of that state. *)
Class Externals := {
  E : Type;
  MModel : Type;
  (** [self.model(xs.cuda()).detach().cpu().numpy()[0]] *)
  forward : list layer -> tensor -> list F;
  get_num_classes : string -> Z;
  model_transform : list layer -> list nat -> MModel;
  calculate_bound : oracle MModel -> tensor -> F -> E -> E;
  (** [bound.verify(label, i)] *)
  bound_verify : oracle MModel -> Z -> Z -> E -> bool * E;
  (** [prebound.l], [prebound.u]: one array per layer *)
  bound_l : oracle MModel -> E -> list (list F);
  bound_u : oracle MModel -> E -> list (list F);
  construct : oracle MModel -> list (list F) -> list (list F) -> tensor -> F -> E -> E;
  prepare_verify : oracle MModel -> Z -> Z -> E -> E;
  (** [bound.prob.solve(solver=cp.GUROBI, verbose=False)] *)
  prob_solve : oracle MModel -> E -> E;
  prob_status : oracle MModel -> E -> string;
  (** [bound.prob.value]: [None] or a float *)
  prob_value : oracle MModel -> E -> option F;
  (** [bound.run(bl, bu, label, i)] *)
  sdp_run : oracle MModel -> list (list F) -> list (list F) -> Z -> Z -> E -> E;
  (** the PGD attack and the model's scores on its result, [adv_preds[0]] *)
  pgd_adv_preds : list layer -> tensor -> F -> F -> E -> list F * E;
  (** [cp.settings.SOLVE_TIME = timeout] *)
  set_solve_time : Z -> E -> E
}.

Context {X : Externals}.

Definition net' := net MModel.
Definition oracle' := oracle MModel.

(** The calls that leave the adaptor, in the order they are made, with
    what they were given and what they answered. *)
Inductive event :=
| EvPrint (s : string)
| EvForward (m : list layer) (xs : tensor)
| EvModelTransform (m : list layer) (in_shape : list nat)
| EvNew (o : oracle')
| EvCalculateBound (o : oracle') (input : tensor) (m_radius : F)
| EvVerify (o : oracle') (label i : Z) (ok : bool)
| EvConstruct (o : oracle') (l u : list (list F)) (input : tensor) (m_radius : F)
| EvPrepareVerify (o : oracle') (label i : Z)
| EvSolve (o : oracle') (status : string) (value : option F)
| EvRun (o : oracle') (bl bu : list (list F)) (label i : Z)
        (status : string) (value : option F)
| EvAttack (eps eps_iter : F).

(* ---------------------------------------------------------------- *)
(** ** The adaptor objects *)

(** [BasicAdaptor]: [dataset] is stored by the base class [Adaptor]
    (its [verify] methods read [self.dataset]). *)
Record BasicAdaptor_t := {
  dataset : string;
  model : list layer;
  coef : F
}.

(** The classes deriving from [RealAdaptorBase], and the base itself. *)
Inductive real_class :=
| RealAdaptorBase
| IBPAdaptor
| FastLinIBPAdaptor
| MILPAdaptor
| PercySDPAdaptor.

Definition class_name (c : real_class) : string :=
  match c with
  | RealAdaptorBase => "RealAdaptorBase"
  | IBPAdaptor => "IBPAdaptor"
  | FastLinIBPAdaptor => "FastLinIBPAdaptor"
  | MILPAdaptor => "MILPAdaptor"
  | PercySDPAdaptor => "PercySDPAdaptor"
  end.

(** An instance of one of them.  [prebound] is [None] until
    [prepare_solver] of the MILP and SDP adaptors assigns it. *)
Record RealAdaptor_t := {
  cls : real_class;
  basic : BasicAdaptor_t;
  new_model : option net';
  in_min : F;
  in_max : F;
  bound : option oracle';
  prebound : option oracle'
}.

Definition set_new_model (a : RealAdaptor_t) (m : option net') : RealAdaptor_t :=
  {| cls := cls a; basic := basic a; new_model := m; in_min := in_min a;
     in_max := in_max a; bound := bound a; prebound := prebound a |}.

Definition set_bound (a : RealAdaptor_t) (o : option oracle') : RealAdaptor_t :=
  {| cls := cls a; basic := basic a; new_model := new_model a; in_min := in_min a;
     in_max := in_max a; bound := o; prebound := prebound a |}.

Definition set_prebound (a : RealAdaptor_t) (o : option oracle') : RealAdaptor_t :=
  {| cls := cls a; basic := basic a; new_model := new_model a; in_min := in_min a;
     in_max := in_max a; bound := bound a; prebound := o |}.

(* ---------------------------------------------------------------- *)
(** ** Constructors *)

(** [BasicAdaptor.__init__]. *)
Definition BasicAdaptor_init (dataset : string) (model : list layer)
  : result BasicAdaptor_t :=
  rbind (getitem model 0) (fun flayer =>
  rbind (match flayer with
         | NormalizeLayer nl => py_min (orig_sds nl)
         | _ => Ok one
         end) (fun coef =>
  Ok {| dataset := dataset; model := model; coef := coef |})).

(** [RealAdaptorBase.__init__], run for the class [c].  The statistics
    of the layer are Python floats: the four divisions raise
    [ZeroDivisionError] on a standard deviation [0.0]. *)
Definition RealAdaptorBase_init (c : real_class) (dataset : string)
    (model : list layer) : result RealAdaptor_t :=
  rbind (BasicAdaptor_init dataset model) (fun b =>
  rbind (getitem model 0) (fun flayer =>
  let in_min := zero in
  let in_max := one in
  rbind
    (match flayer with
     | NormalizeLayer nl =>
         rbind (py_max (orig_means nl)) (fun max_means =>
         let in_min := fsub in_min max_means in
         rbind (py_min (orig_means nl)) (fun min_means =>
         let in_max := fsub in_max min_means in
         rbind (if fle in_min zero
                then rbind (py_min (orig_sds nl)) (fun s => py_truediv in_min s)
                else rbind (py_max (orig_sds nl)) (fun s => py_truediv in_min s))
               (fun in_min =>
         rbind (if fle in_max zero
                then rbind (py_max (orig_sds nl)) (fun s => py_truediv in_max s)
                else rbind (py_min (orig_sds nl)) (fun s => py_truediv in_max s))
               (fun in_max =>
         Ok (in_min, in_max)))))
     | _ => Ok (in_min, in_max)
     end) (fun '(in_min, in_max) =>
  Ok {| cls := c; basic := b; new_model := None;
        in_min := in_min; in_max := in_max;
        bound := None; prebound := None |}))).

(** [PGDAdaptor.__init__]: the base constructor; the TensorFlow session
    and the converted model it also stores are handles to collaborators,
    reached in [verify] through [pgd_adv_preds]. *)
Definition PGDAdaptor_init := BasicAdaptor_init.

(** [MILPAdaptor.__init__] and [PercySDPAdaptor.__init__]: the base
    constructor, then the process-wide solver time limit. *)
Definition timed_init (c : real_class) (dataset : string) (model : list layer)
    (timeout : Z) (e : E) : result RealAdaptor_t * E :=
  match RealAdaptorBase_init c dataset model with
  | Ok a => (Ok a, set_solve_time timeout e)
  | Raise x => (Raise x, e)
  end.

Definition MILPAdaptor_init := timed_init MILPAdaptor.
Definition PercySDPAdaptor_init := timed_init PercySDPAdaptor.

End Model.

(* ================================================================== *)
(** ** The monad of the [verify] methods *)

Section Monad.
Context {N : Num} {X : Externals}.

(** The adaptor object, the collaborators' state, and the calls made so
    far (oldest first). *)
Record world (S : Type) := {
  self : S;
  ext : E;
  log : list event
}.

Definition M (S A : Type) := world S -> result A * world S.

Definition ret {S A} (a : A) : M S A := fun w => (Ok a, w).

Definition bind {S A B} (c : M S A) (k : A -> M S B) : M S B :=
  fun w =>
    match c w with
    | (Ok a, w') => k a w'
    | (Raise e, w') => (Raise e, w')
    end.

Definition raise {S A} (e : exn) : M S A := fun w => (Raise e, w).

Definition lift {S A} (r : result A) : M S A := fun w => (r, w).

Definition get_self {S} : M S S := fun w => (Ok (self w), w).

Definition modify_self {S} (f : S -> S) : M S unit :=
  fun w => (Ok tt, {| self := f (self w); ext := ext w; log := log w |}).

Definition emit {S} (ev : event) : M S unit :=
  fun w => (Ok tt, {| self := self w; ext := ext w; log := log w ++ [ev] |}).

Definition get_ext {S} : M S E := fun w => (Ok (ext w), w).

Definition ext_do {S} (f : E -> E) : M S unit :=
  fun w => (Ok tt, {| self := self w; ext := f (ext w); log := log w |}).

Definition ext_call {S A} (f : E -> A * E) : M S A :=
  fun w => let (a, e) := f (ext w) in
           (Ok a, {| self := self w; ext := e; log := log w |}).

(** [assert c]. *)
Definition assert {S} (c : bool) : M S unit :=
  if c then ret tt else raise AssertionError.

(** [self.f] where the attribute holds [None]: calling a method on it
    raises [AttributeError]. *)
Definition deref {S A} (o : option A) : M S A :=
  match o with
  | Some a => ret a
  | None => raise AttributeError
  end.

End Monad.

Declare Scope py_scope.
Delimit Scope py_scope with py.
Notation "x <- c ;; k" := (bind c (fun x => k))
  (at level 61, c at next level, right associativity) : py_scope.
Notation "c ;;; k" := (bind c (fun _ => k))
  (at level 61, right associativity) : py_scope.

Section Loop.
Context {N : Num} {X : Externals}.
Local Open Scope py_scope.

(** [for i in cs: body], where the body either falls through ([None])
    or executes [return b] ([Some b]). *)
Fixpoint for_each {S} (cs : list Z) (body : Z -> M S (option bool))
  : M S (option bool) :=
  match cs with
  | [] => ret None
  | i :: cs' =>
      r <- body i ;;
      match r with
      | Some b => ret (Some b)
      | None => for_each cs' body
      end
  end.

(** The statement after the loop: reached only when no [return] was
    executed inside. *)
Definition or_else {S} (r : option bool) (k : M S bool) : M S bool :=
  match r with
  | Some b => ret b
  | None => k
  end.

End Loop.

(* ================================================================== *)
(** ** The methods of the adaptors *)

Section Adaptors.
Context {N : Num} {X : Externals}.
Local Open Scope py_scope.

Definition R := M RealAdaptor_t.

(** [xs = input.unsqueeze(0)],
    [clean_preds = self.model(xs.cuda()).detach().cpu().numpy()],
    [clean_pred = np.argmax(clean_preds[0])]. *)
Definition clean_prediction {S} (model : list layer) (input : tensor) : M S Z :=
  let xs := unsqueeze0 input in
  emit (EvForward model xs) ;;;
  let clean_preds := forward model xs in
  lift (np_argmax clean_preds).

(** [CleanAdaptor.verify]. *)
Definition CleanAdaptor_verify (input : tensor) (label : Z)
    (norm_type : string) (radius : F) : M BasicAdaptor_t bool :=
  a <- get_self ;;
  clean_pred <- clean_prediction (model a) input ;;
  ret (clean_pred =? label).

(** [PGDAdaptor.verify]. *)
Definition PGDAdaptor_verify (input : tensor) (label : Z)
    (norm_type : string) (radius : F) : M BasicAdaptor_t bool :=
  assert (norm_type =? "inf")%string ;;;
  a <- get_self ;;
  clean_pred <- clean_prediction (model a) input ;;
  if negb (clean_pred =? label) then ret false
  else if feqb radius zero then ret true
  else
    (* the placeholder reads input.shape[0], input.shape[1], input.shape[2] *)
    match shape input with
    | _ :: _ :: _ :: _ =>
        let xs := unsqueeze0 input in
        let eps := radius in
        let eps_iter := fdiv radius fifty in
        adv_preds <- ext_call (pgd_adv_preds (model a) xs eps eps_iter) ;;
        emit (EvAttack eps eps_iter) ;;;
        adv_pred <- lift (np_argmax adv_preds) ;;
        ret (adv_pred =? label)
    | _ => raise IndexError
    end.

(** [RealAdaptorBase.build_new_model]. *)
Definition build_new_model (input : tensor) : R unit :=
  a <- get_self ;;
  let model := model (basic a) in
  flayer <- lift (getitem model 0) ;;
  sub <- (if isinstance_NormalizeLayer flayer then
            l1 <- lift (getitem model 1) ;;
            match l1 with
            | Sequential sub => ret sub
            | _ => ret model
            end
          else ret model) ;;
  emit (EvModelTransform sub (shape input)) ;;;
  modify_self (fun a =>
    set_new_model a (Some (Materialized (model_transform sub (shape input))))).

(** [RealAdaptorBase.input_preprocess]. *)
Definition input_preprocess (model : list layer) (input : tensor)
  : result tensor :=
  rbind (getitem model 0) (fun flayer =>
  match shape input with
  | [_; height; width] =>
      match flayer with
      | NormalizeLayer nl =>
          rbind (elementwise fsub input
                   (permute_2_0_1 (repeat_hw1 (means nl) height width)))
                (fun d =>
          elementwise fdiv d
                   (permute_2_0_1 (repeat_hw1 (sds nl) height width)))
      | _ => Ok input
      end
  | _ => Raise ValueError
  end).

(** [prepare_solver], by class. *)
Definition prepare_solver (in_shape : list nat) : R unit :=
  a <- get_self ;;
  match cls a with
  | RealAdaptorBase => raise NotImplementedError
  | IBPAdaptor =>
      let model := model (basic a) in
      flayer <- lift (getitem model 0) ;;
      m <- (if isinstance_NormalizeLayer flayer then
              l1 <- lift (getitem model 1) ;;
              match l1 with
              | Sequential sub => ret sub
              | _ => ret model
              end
            else ret model) ;;
      modify_self (fun a => set_new_model a (Some (TorchModel _ m))) ;;;
      a <- get_self ;;
      let o := FastIntervalBound (new_model a) in_shape (in_min a) (in_max a) in
      emit (EvNew o) ;;;
      modify_self (fun a => set_bound a (Some o))
  | FastLinIBPAdaptor =>
      let o := IntervalFastLinBound (new_model a) in_shape (in_min a) (in_max a) in
      emit (EvNew o) ;;;
      modify_self (fun a => set_bound a (Some o))
  | MILPAdaptor =>
      let p := IntervalFastLinBound (new_model a) in_shape (in_min a) (in_max a) in
      emit (EvNew p) ;;;
      modify_self (fun a => set_prebound a (Some p)) ;;;
      a <- get_self ;;
      let o := MILPVerifier (new_model a) in_shape (in_min a) (in_max a) in
      emit (EvNew o) ;;;
      modify_self (fun a => set_bound a (Some o))
  | PercySDPAdaptor =>
      let p := IntervalFastLinBound (new_model a) in_shape (in_min a) (in_max a) in
      emit (EvNew p) ;;;
      modify_self (fun a => set_prebound a (Some p)) ;;;
      a <- get_self ;;
      let o := PercySDP (new_model a) in_shape in
      emit (EvNew o) ;;;
      modify_self (fun a => set_bound a (Some o))
  end.

(** The block guarded by [if self.new_model is None:]; [build] tells
    whether the method calls [build_new_model] there (all but
    [IBPAdaptor.verify] do). *)
Definition init_at_first_time (build : bool) (input : tensor) : R unit :=
  a <- get_self ;;
  match new_model a with
  | None =>
      emit (EvPrint ("Init model for " ++ class_name (cls a) ++ "...")) ;;;
      let in_shape := shape input in
      (if build then build_new_model input else ret tt) ;;;
      prepare_solver in_shape ;;;
      emit (EvPrint "Init done, time")
  | Some _ => ret tt
  end.

(** The statements under [if i != label:] in the class loop of
    [RealAdaptorBase.verify] and [IBPAdaptor.verify]; [None] falls
    through to the next class, [Some b] is [return b]. *)
Definition pairwise_verify (a : RealAdaptor_t) (label i : Z) : R (option bool) :=
  b <- deref (bound a) ;;
  ok <- ext_call (bound_verify b label i) ;;
  emit (EvVerify b label i ok) ;;;
  if negb ok then ret (Some false) else ret None.

(** The same in [MILPAdaptor.verify]; the test is
    [status not in ['optimal'] or value < 0.], whose second operand is
    evaluated only when the first is false. *)
Definition milp_solve_pair (a : RealAdaptor_t) (label i : Z) : R (option bool) :=
  b <- deref (bound a) ;;
  ext_do (prepare_verify b label i) ;;;
  emit (EvPrepareVerify b label i) ;;;
  ext_do (prob_solve b) ;;;
  e <- get_ext ;;
  emit (EvSolve b (prob_status b e) (prob_value b e)) ;;;
  if negb (prob_status b e =? "optimal")%string then ret (Some false)
  else match prob_value b e with
       | None => raise TypeError
       | Some v => if flt v zero then ret (Some false) else ret None
       end.

(** The same in [PercySDPAdaptor.verify]; the test is
    [status not in ['optimal'] or value > 0.]. *)
Definition sdp_run_pair (a : RealAdaptor_t) (bl bu : list (list F))
    (label i : Z) : R (option bool) :=
  b <- deref (bound a) ;;
  ext_do (sdp_run b bl bu label i) ;;;
  e <- get_ext ;;
  emit (EvRun b bl bu label i (prob_status b e) (prob_value b e)) ;;;
  if negb (prob_status b e =? "optimal")%string then ret (Some false)
  else match prob_value b e with
       | None => raise TypeError
       | Some v => if flt zero v then ret (Some false) else ret None
       end.

(** [RealAdaptorBase.verify] from [m_radius = radius / self.coef] on:
    the statements reached once the clean prediction is [label].  The
    division is taken as returning: on an instance that the constructor
    built [coef] is not [0.0]. *)
Definition RealAdaptorBase_bounds (a : RealAdaptor_t) (input : tensor) (label : Z)
    (radius : F) : R bool :=
  let m_radius := fdiv radius (coef (basic a)) in
  input <- lift (input_preprocess (model (basic a)) input) ;;
  let input := view_flat input in
  b <- deref (bound a) ;;
  ext_do (calculate_bound b input m_radius) ;;;
  emit (EvCalculateBound b input m_radius) ;;;
  r <- for_each (range (get_num_classes (dataset (basic a)))) (fun i =>
         if negb (i =? label) then pairwise_verify a label i
         else ret None) ;;
  or_else r (ret true).

(** [RealAdaptorBase.verify] (inherited by [FastLinIBPAdaptor]). *)
Definition RealAdaptorBase_verify (input : tensor) (label : Z)
    (norm_type : string) (radius : F) : R bool :=
  assert (norm_type =? "inf")%string ;;;
  init_at_first_time true input ;;;
  a <- get_self ;;
  clean_pred <- clean_prediction (model (basic a)) input ;;
  if negb (clean_pred =? label) then ret false
  else RealAdaptorBase_bounds a input label radius.

(** [IBPAdaptor.verify] from [m_radius = radius / self.coef] on. *)
Definition IBPAdaptor_bounds (a : RealAdaptor_t) (input : tensor) (label : Z)
    (radius : F) : R bool :=
  let m_radius := fdiv radius (coef (basic a)) in
  input <- lift (input_preprocess (model (basic a)) input) ;;
  b <- deref (bound a) ;;
  ext_do (calculate_bound b input m_radius) ;;;
  emit (EvCalculateBound b input m_radius) ;;;
  r <- for_each (range (get_num_classes (dataset (basic a)))) (fun i =>
         if negb (i =? label) then pairwise_verify a label i
         else ret None) ;;
  or_else r (ret true).

(** [IBPAdaptor.verify]. *)
Definition IBPAdaptor_verify (input : tensor) (label : Z)
    (norm_type : string) (radius : F) : R bool :=
  assert (norm_type =? "inf")%string ;;;
  init_at_first_time false input ;;;
  a <- get_self ;;
  clean_pred <- clean_prediction (model (basic a)) input ;;
  if negb (clean_pred =? label) then ret false
  else IBPAdaptor_bounds a input label radius.

(** [MILPAdaptor.verify] from [m_radius = radius / self.coef] on. *)
Definition MILPAdaptor_bounds (a : RealAdaptor_t) (input : tensor) (label : Z)
    (radius : F) : R bool :=
  let m_radius := fdiv radius (coef (basic a)) in
  input <- lift (input_preprocess (model (basic a)) input) ;;
  let input := view_flat input in
  p <- deref (prebound a) ;;
  ext_do (calculate_bound p input m_radius) ;;;
  emit (EvCalculateBound p input m_radius) ;;;
  b <- deref (bound a) ;;
  e <- get_ext ;;
  let l := bound_l p e in
  let u := bound_u p e in
  ext_do (construct b l u input m_radius) ;;;
  emit (EvConstruct b l u input m_radius) ;;;
  r <- for_each (range (get_num_classes (dataset (basic a)))) (fun i =>
         if negb (i =? label) then milp_solve_pair a label i
         else ret None) ;;
  or_else r (ret true).

(** [MILPAdaptor.verify]. *)
Definition MILPAdaptor_verify (input : tensor) (label : Z)
    (norm_type : string) (radius : F) : R bool :=
  assert (norm_type =? "inf")%string ;;;
  init_at_first_time true input ;;;
  a <- get_self ;;
  clean_pred <- clean_prediction (model (basic a)) input ;;
  if negb (clean_pred =? label) then ret false
  else MILPAdaptor_bounds a input label radius.

(** [[np.maximum(l[i], 0) if i > 0 else l[i] for i in range(len(l))]]. *)
Definition clamp_bounds (l : list (list F)) : list (list F) :=
  map (fun i => if (0 <? i)%nat then np_maximum0 (nth i l []) else nth i l [])
      (seq 0 (length l)).

(** [PercySDPAdaptor.verify] from [m_radius = radius / self.coef] on. *)
Definition PercySDPAdaptor_bounds (a : RealAdaptor_t) (input : tensor) (label : Z)
    (radius : F) : R bool :=
  let m_radius := fdiv radius (coef (basic a)) in
  input <- lift (input_preprocess (model (basic a)) input) ;;
  let input := view_flat input in
  p <- deref (prebound a) ;;
  ext_do (calculate_bound p input m_radius) ;;;
  emit (EvCalculateBound p input m_radius) ;;;
  e <- get_ext ;;
  let bl := clamp_bounds (bound_l p e) in
  let bu := clamp_bounds (bound_u p e) in
  r <- for_each (range (get_num_classes (dataset (basic a)))) (fun i =>
         if negb (i =? label) then sdp_run_pair a bl bu label i
         else ret None) ;;
  or_else r (ret true).

(** [PercySDPAdaptor.verify]. *)
Definition PercySDPAdaptor_verify (input : tensor) (label : Z)
    (norm_type : string) (radius : F) : R bool :=
  assert (norm_type =? "inf")%string ;;;
  init_at_first_time true input ;;;
  a <- get_self ;;
  clean_pred <- clean_prediction (model (basic a)) input ;;
  if negb (clean_pred =? label) then ret false
  else PercySDPAdaptor_bounds a input label radius.

(** [a.verify(...)] for an instance of class [cls a]: method
    resolution. *)
Definition verify (input : tensor) (label : Z) (norm_type : string)
    (radius : F) : R bool :=
  a <- get_self ;;
  match cls a with
  | RealAdaptorBase | FastLinIBPAdaptor =>
      RealAdaptorBase_verify input label norm_type radius
  | IBPAdaptor => IBPAdaptor_verify input label norm_type radius
  | MILPAdaptor => MILPAdaptor_verify input label norm_type radius
  | PercySDPAdaptor => PercySDPAdaptor_verify input label norm_type radius
  end.

End Adaptors.

(* ================================================================== *)
(** ** A concrete setting: rational numbers and scripted collaborators *)

Module Mock.

(** Exact rationals as the numbers. *)
Definition QNum : Num :=
  {| F := Q; zero := 0%Q; one := 1%Q; fifty := 50%Q;
     fsub := fun a b => Qred (a - b);
     fdiv := fun a b => Qred (a / b);
     flt := fun a b => negb (Qle_bool b a);
     fle := Qle_bool;
     feqb := Qeq_bool |}.
#[local] Existing Instance QNum.

(** Collaborators that answer from a script: the classifier's scores
    on the clean input and after the attack, the number of classes,
    the pairwise verdict of the bound engine, the solver's status and
    value per class, and the pre-bounds.  The state is the class of the
    last pairwise query. *)
Record script := {
  scores : list Q;
  adv_scores : list Q;
  num_classes : Z;
  certifies : Z -> Z -> bool;
  solved : Z -> string * option Q;
  pre_l : list (list Q);
  pre_u : list (list Q)
}.

Definition externals (s : script) : @Externals QNum :=
  {| E := Z;
     MModel := list nat;
     forward := fun _ _ => scores s;
     get_num_classes := fun _ => num_classes s;
     model_transform := fun _ in_shape => in_shape;
     calculate_bound := fun _ _ _ e => e;
     bound_verify := fun _ label i _ => (certifies s label i, i);
     bound_l := fun _ _ => pre_l s;
     bound_u := fun _ _ => pre_u s;
     construct := fun _ _ _ _ _ e => e;
     prepare_verify := fun _ _ i _ => i;
     prob_solve := fun _ e => e;
     prob_status := fun _ e => fst (solved s e);
     prob_value := fun _ e => snd (solved s e);
     sdp_run := fun _ _ _ _ i _ => i;
     pgd_adv_preds := fun _ _ _ _ e => (adv_scores s, e);
     set_solve_time := fun _ e => e |}.

(** A 3-class model behind a normalization layer, and one without. *)
Definition norm_layer : @NormalizeLayer_t QNum :=
  {| orig_means := [1 # 2; 2 # 5]%Q; orig_sds := [1 # 4; 1 # 5]%Q;
     means := [1 # 2; 2 # 5]%Q; sds := [1 # 4; 1 # 5]%Q |}.

Definition net_with_norm : list (@layer QNum) :=
  [NormalizeLayer norm_layer; Sequential [OtherLayer 0; OtherLayer 1]].

Definition plain_net : list (@layer QNum) := [OtherLayer 0; OtherLayer 1].

(** A 2-channel 1x2 image and a 1-channel 1x2 image. *)
Definition image2 : @tensor QNum :=
  {| shape := [2; 1; 2]%nat; data := [1; 3 # 4; 1 # 5; 0]%Q |}.

Definition image1 : @tensor QNum :=
  {| shape := [1; 1; 2]%nat; data := [1 # 2; 1 # 4]%Q |}.

(** Class 1 wins on the clean input; the engine certifies class 1
    against class 0 but not against class 2. *)
Definition script1 : script :=
  {| scores := [1 # 10; 7 # 10; 2 # 10]%Q;
     adv_scores := [1 # 10; 3 # 10; 6 # 10]%Q;
     num_classes := 3;
     certifies := fun _ i => (i =? 0);
     solved := fun i => if (i =? 0) then ("optimal"%string, Some (1 # 2)%Q)
                        else ("infeasible"%string, None);
     pre_l := [[-1; 1 # 2]; [-2; 3]; [0; -(1 # 3)]]%Q;
     pre_u := [[-(1 # 2); 1]; [-1; 4]; [1; -(1 # 4)]]%Q |}.

(** The same with an engine and a solver that certify every pair. *)
Definition script_all : script :=
  {| scores := scores script1; adv_scores := scores script1;
     num_classes := 3;
     certifies := fun _ _ => true;
     solved := fun _ => ("optimal"%string, Some 0%Q);
     pre_l := pre_l script1; pre_u := pre_u script1 |}.

(** The adaptor of class [c] that the constructor builds over [m] (an
    adaptor over no model should construction fail). *)
Definition fresh (s : script) (c : real_class) (m : list layer)
  : @RealAdaptor_t QNum (externals s) :=
  match RealAdaptorBase_init (X := externals s) c "cifar10" m with
  | Ok a => a
  | Raise _ =>
      {| cls := c;
         basic := {| dataset := "cifar10"; model := []; coef := 1%Q |};
         new_model := None; in_min := 0%Q; in_max := 1%Q;
         bound := None; prebound := None |}
  end.

(** The weak adaptors carry the base attributes only. *)
Definition fresh_basic (m : list layer) : @BasicAdaptor_t QNum :=
  match BasicAdaptor_init "cifar10" m with
  | Ok a => a
  | Raise _ => {| dataset := "cifar10"; model := []; coef := 1%Q |}
  end.

Definition start {S} (s : script) (a : S) : @world QNum (externals s) S :=
  @Build_world QNum (externals s) S a (-1) [].

(** The engines built for the 1-channel image over [plain_net]. *)
Definition milp_engine : @oracle QNum (list nat) :=
  MILPVerifier (Some (Materialized [1; 1; 2]%nat)) [1; 1; 2]%nat 0%Q 1%Q.

Definition sdp_engine : @oracle QNum (list nat) :=
  PercySDP (Some (Materialized [1; 1; 2]%nat)) [1; 1; 2]%nat.

Definition prebound_engine : @oracle QNum (list nat) :=
  IntervalFastLinBound (Some (Materialized [1; 1; 2]%nat)) [1; 1; 2]%nat 0%Q 1%Q.



End Mock.

(* ================================================================== *)
(** ** Vocabulary of the statements *)

Section Vocabulary.
Context {N : Num} {X : Externals}.

(** The classes that can be instantiated and used: all but the base,
    whose [prepare_solver] raises. *)
Definition concrete (c : real_class) : bool :=
  match c with RealAdaptorBase => false | _ => true end.

(** A model on which initialization cannot fail: it has a first layer,
    and a second one when the first is a [NormalizeLayer]. *)
Definition wf_model (m : list layer) : bool :=
  match m with
  | [] => false
  | [NormalizeLayer _] => false
  | _ => true
  end.

Definition is_some {A} (o : option A) : bool :=
  match o with Some _ => true | None => false end.

(** The state [Ready]: the model is materialized and the engines the
    class uses are built. *)
Definition ready (a : RealAdaptor_t) : bool :=
  is_some (new_model a) && is_some (bound a) &&
  match cls a with
  | MILPAdaptor | PercySDPAdaptor => is_some (prebound a)
  | _ => true
  end.

(** The state [Uninitialized], as the constructor leaves it. *)
Definition uninitialized (a : RealAdaptor_t) : bool :=
  negb (is_some (new_model a)).

(** An instance of a concrete class over a well-formed model, in one of
    the two states. *)
Definition usable (a : RealAdaptor_t) : bool :=
  concrete (cls a) && wf_model (model (basic a)) &&
  (uninitialized a || ready a).

(** The part of the model that is materialized: the network behind the
    normalization layer when there is one. *)
Definition target (m : list layer) : list layer :=
  match m with
  | NormalizeLayer _ :: Sequential sub :: _ => sub
  | _ => m
  end.

(** The engines a class builds over [nm]. *)
Definition built_bound (a : RealAdaptor_t) (nm : option net')
    (in_shape : list nat) : oracle' :=
  match cls a with
  | IBPAdaptor => FastIntervalBound nm in_shape (in_min a) (in_max a)
  | MILPAdaptor => MILPVerifier nm in_shape (in_min a) (in_max a)
  | PercySDPAdaptor => PercySDP nm in_shape
  | _ => IntervalFastLinBound nm in_shape (in_min a) (in_max a)
  end.

Definition built_prebound (a : RealAdaptor_t) (nm : option net')
    (in_shape : list nat) : option oracle' :=
  match cls a with
  | MILPAdaptor | PercySDPAdaptor =>
      Some (IntervalFastLinBound nm in_shape (in_min a) (in_max a))
  | _ => prebound a
  end.

Definition built_model (a : RealAdaptor_t) (in_shape : list nat) : option net' :=
  match cls a with
  | IBPAdaptor => Some (TorchModel _ (target (model (basic a))))
  | _ => Some (Materialized (model_transform (target (model (basic a))) in_shape))
  end.

(** The adaptor after the initialization block, and the calls the block
    makes. *)
Definition after_init (a : RealAdaptor_t) (in_shape : list nat) : RealAdaptor_t :=
  match new_model a with
  | Some _ => a
  | None =>
      let nm := built_model a in_shape in
      {| cls := cls a; basic := basic a; new_model := nm;
         in_min := in_min a; in_max := in_max a;
         bound := Some (built_bound a nm in_shape);
         prebound := built_prebound a nm in_shape |}
  end.

Definition init_events (a : RealAdaptor_t) (in_shape : list nat) : list event :=
  match new_model a with
  | Some _ => []
  | None =>
      let nm := built_model a in_shape in
      [EvPrint ("Init model for " ++ class_name (cls a) ++ "...")] ++
      match cls a with
      | IBPAdaptor => []
      | _ => [EvModelTransform (target (model (basic a))) in_shape]
      end ++
      match cls a with
      | MILPAdaptor | PercySDPAdaptor =>
          [EvNew (IntervalFastLinBound nm in_shape (in_min a) (in_max a))]
      | _ => []
      end ++
      [EvNew (built_bound a nm in_shape); EvPrint "Init done, time"]
  end.

(** Materialization and construction of an engine. *)
Definition is_init_event (ev : event) : bool :=
  match ev with
  | EvModelTransform _ _ | EvNew _ => true
  | _ => false
  end.

(** A call to an engine or to the solver. *)
Definition is_oracle_call (ev : event) : bool :=
  match ev with
  | EvCalculateBound _ _ _ | EvVerify _ _ _ _ | EvConstruct _ _ _ _ _
  | EvPrepareVerify _ _ _ | EvSolve _ _ _ | EvRun _ _ _ _ _ _ _ => true
  | _ => false
  end.

(** The attributes fixed at construction. *)
Definition same_config (a a' : RealAdaptor_t) : Prop :=
  cls a' = cls a /\ basic a' = basic a /\
  in_min a' = in_min a /\ in_max a' = in_max a.

(** The classes for which the pairwise oracle was asked, in order. *)
Definition queried_class (ev : event) : list Z :=
  match ev with
  | EvVerify _ _ i _ | EvPrepareVerify _ _ i | EvRun _ _ _ _ i _ _ => [i]
  | _ => []
  end.

Definition queried (evs : list event) : list Z := flat_map queried_class evs.

(** What the adaptor reads off one answer: does the pair pass?  For the
    solvers this is the negation of the test in the loop (a missing
    value under status "optimal" is no pass: the comparison raises). *)
Definition answer (ev : event) : list bool :=
  match ev with
  | EvVerify _ _ _ ok => [ok]
  | EvSolve _ status value =>
      [(status =? "optimal")%string &&
       match value with Some v => negb (flt v zero) | None => false end]
  | EvRun _ _ _ _ _ status value =>
      [(status =? "optimal")%string &&
       match value with Some v => negb (flt zero v) | None => false end]
  | _ => []
  end.

Definition answers (evs : list event) : list bool := flat_map answer evs.



(** The classes other than [label] among [cs]. *)
Definition others (label : Z) (cs : list Z) : list Z :=
  filter (fun i => negb (i =? label)) cs.

(** The solver reported "optimal" and left no value: the comparison of
    the value with zero raises. *)
Definition no_value (ev : event) : Prop :=
  match ev with
  | EvSolve _ status None | EvRun _ _ _ _ _ status None => status = "optimal"%string
  | _ => False
  end.

Definition raised_on (evs : list event) : Prop :=
  exists evs' ev, evs = evs' ++ [ev] /\ no_value ev.

(** The loop stopped at some class [k] other than [label]: the classes
    before [k] were asked about and passed, [k] was asked about last and
    did not pass, and no class after [k] was asked about. *)
Definition stopped_at (label : Z) (cs : list Z) (evs : list event) : Prop :=
  exists pre k post,
    cs = pre ++ k :: post /\ k <> label /\
    queried evs = others label pre ++ [k] /\
    answers evs = repeat true (length (others label pre)) ++ [false].

(** Every class other than [label] was asked about, in order, and
    passed. *)
Definition all_passed (label : Z) (cs : list Z) (evs : list event) : Prop :=
  queried evs = others label cs /\
  answers evs = repeat true (length (others label cs)).

Definition loop_outcome (label : Z) (cs : list Z)
    (r : result (option bool)) (evs : list event) : Prop :=
  match r with
  | Ok None => all_passed label cs evs
  | Ok (Some v) => v = false /\ stopped_at label cs evs
  | Raise _ => stopped_at label cs evs /\ raised_on evs
  end.

(** The same for the verdict of [verify]: [return True] after the loop. *)
Definition verdict_outcome (label : Z) (cs : list Z)
    (r : result bool) (evs : list event) : Prop :=
  match r with
  | Ok true => all_passed label cs evs
  | Ok false => stopped_at label cs evs
  | Raise _ => stopped_at label cs evs /\ raised_on evs
  end.

(** The calls of the class loop of adaptor [a]: they go to its bound
    engine, are about [label], and every SDP run is given the clamped
    pre-bounds read in state [e1]. *)
Definition pair_event (a : RealAdaptor_t) (e1 : E) (label : Z) (ev : event) : Prop :=
  match ev with
  | EvVerify b l _ _ =>
      bound a = Some b /\ l = label /\
      cls a <> MILPAdaptor /\ cls a <> PercySDPAdaptor
  | EvPrepareVerify b l _ => bound a = Some b /\ l = label /\ cls a = MILPAdaptor
  | EvSolve b _ _ => bound a = Some b /\ cls a = MILPAdaptor
  | EvRun b bl bu l _ _ _ =>
      bound a = Some b /\ l = label /\ cls a = PercySDPAdaptor /\
      exists p, prebound a = Some p /\
                bl = clamp_bounds (bound_l p e1) /\
                bu = clamp_bounds (bound_u p e1)
  | _ => False
  end.

(** One step of a class loop: it asks about class [i] once, leaves the
    adaptor alone, and falls through exactly when the answer passes. *)
Definition pair_step (check : Z -> R (option bool)) : Prop :=
  forall i w,
    self (snd (check i w)) = self w /\
    exists evs b,
      log (snd (check i w)) = log w ++ evs /\
      queried evs = [i] /\ answers evs = [b] /\
      match fst (check i w) with
      | Ok None => b = true
      | Ok (Some v) => v = false /\ b = false
      | Raise _ => b = false /\ raised_on evs
      end.

(** The statements of a class after the clean check. *)
Definition class_bounds (c : real_class)
  : RealAdaptor_t -> tensor -> Z -> F -> R bool :=
  match c with
  | IBPAdaptor => IBPAdaptor_bounds
  | MILPAdaptor => MILPAdaptor_bounds
  | PercySDPAdaptor => PercySDPAdaptor_bounds
  | _ => RealAdaptorBase_bounds
  end.

(** The engine whose [calculate_bound] a class calls: the pre-bound
    engine for the two solvers, the bound engine otherwise. *)
Definition calc_oracle (a : RealAdaptor_t) : option oracle' :=
  match cls a with
  | MILPAdaptor | PercySDPAdaptor => prebound a
  | _ => bound a
  end.

(** What a class hands to [calculate_bound], given the preprocessed
    input. *)
Definition bounds_input (c : real_class) (x : tensor) : tensor :=
  match c with
  | IBPAdaptor => x
  | _ => view_flat x
  end.

(** The calls between the clean check and the class loop, and the
    collaborators' state after them. *)
Definition prelude_ext (a : RealAdaptor_t) (x : tensor) (m_radius : F)
    (e : E) : E :=
  match calc_oracle a, bound a with
  | Some p, Some b =>
      let e1 := calculate_bound p x m_radius e in
      match cls a with
      | MILPAdaptor => construct b (bound_l p e1) (bound_u p e1) x m_radius e1
      | _ => e1
      end
  | _, _ => e
  end.

Definition prelude_events (a : RealAdaptor_t) (x : tensor) (m_radius : F)
    (e : E) : list event :=
  match calc_oracle a, bound a with
  | Some p, Some b =>
      let e1 := calculate_bound p x m_radius e in
      EvCalculateBound p x m_radius ::
      match cls a with
      | MILPAdaptor => [EvConstruct b (bound_l p e1) (bound_u p e1) x m_radius]
      | _ => []
      end
  | _, _ => []
  end.

(** The pairwise check of a class; [e1] is the collaborators' state
    after the prelude, from which the SDP adaptor has read the
    pre-bounds. *)
Definition class_check (a : RealAdaptor_t) (e1 : E) (label : Z)
  : Z -> R (option bool) :=
  match cls a, prebound a with
  | MILPAdaptor, _ => milp_solve_pair a label
  | PercySDPAdaptor, Some p =>
      sdp_run_pair a (clamp_bounds (bound_l p e1)) (clamp_bounds (bound_u p e1)) label
  | PercySDPAdaptor, None => fun _ => raise AttributeError
  | _, _ => pairwise_verify a label
  end.

(** The class loop, as every [verify] writes it. *)
Definition class_loop (check : Z -> R (option bool)) (label : Z) (cs : list Z)
  : R (option bool) :=
  for_each cs (fun i => if negb (i =? label) then check i else ret None).

(** The [model_transform] calls and the engines constructed among
    [evs]. *)
Definition materialization (ev : event) : list (list layer * list nat) :=
  match ev with
  | EvModelTransform m in_shape => [(m, in_shape)]
  | _ => []
  end.

Definition materializations (evs : list event) : list (list layer * list nat) :=
  flat_map materialization evs.

Definition engine_built (ev : event) : list oracle' :=
  match ev with
  | EvNew o => [o]
  | _ => []
  end.

Definition engines_built (evs : list event) : list oracle' :=
  flat_map engine_built evs.

(** The arguments of the [calculate_bound] calls among [evs]. *)
Definition calc_call (ev : event) : list (oracle' * tensor * F) :=
  match ev with
  | EvCalculateBound o x r => [(o, x, r)]
  | _ => []
  end.

Definition calc_calls (evs : list event) : list (oracle' * tensor * F) :=
  flat_map calc_call evs.



(** A per-channel vector spread over the positions of a plane: what
    [v.repeat(height, width, 1).permute(2, 0, 1)] holds. *)
Definition channelwise (v : list F) (plane : nat) : list F :=
  flat_map (fun m => repeat m plane) v.

(** A [verify] call, and a sequence of them on one instance. *)
Record call := {
  c_input : tensor;
  c_label : Z;
  c_norm_type : string;
  c_radius : F
}.

Fixpoint run_calls (cs : list call) (w : world RealAdaptor_t)
  : world RealAdaptor_t :=
  match cs with
  | [] => w
  | c :: cs' =>
      run_calls cs'
        (snd (verify (c_input c) (c_label c) (c_norm_type c) (c_radius c) w))
  end.

(** [c] relates every world to the one it leaves, by [Rel]. *)
Definition sat {S A} (Rel : world S -> world S -> Prop) (c : M S A) : Prop :=
  forall w, Rel w (snd (c w)).

(** The attributes fixed at construction are kept; the adaptor is kept
    and only calls satisfying [Q] are made. *)
Definition keeps_config (w w' : world RealAdaptor_t) : Prop :=
  same_config (self w) (self w').

Definition emits {S} (Q : event -> Prop) (w w' : world S) : Prop :=
  self w' = self w /\ exists evs, log w' = log w ++ evs /\ Forall Q evs.

(** On a ready adaptor, [emits Q]. *)
Definition when_ready (Q : event -> Prop) (w w' : world RealAdaptor_t) : Prop :=
  ready (self w) = true -> emits Q w w'.


End Vocabulary.

(* ================================================================== *)
(** ** The log as a transcript of the collaborators' calls

    The statements below speak of the calls made to the bound engines
    and the solver through the log.  What ties the log to the
    collaborators themselves is stated with these definitions: the
    state a recorded call takes the collaborators to, the answer the
    collaborator gives to it, and the state reached by making the
    recorded calls one after the other. *)

Section Transcripts.
Context {N : Num} {X : Externals}.

(** The collaborators' state after the call that [ev] records, made in
    state [e].  Printing, the forward pass, [model_transform] and the
    constructors of the engines leave that state alone. *)
Definition call_effect (ev : event) (e : E) : E :=
  match ev with
  | EvCalculateBound o x r => calculate_bound o x r e
  | EvVerify o label i _ => snd (bound_verify o label i e)
  | EvConstruct o l u x r => construct o l u x r e
  | EvPrepareVerify o label i => prepare_verify o label i e
  | EvSolve o _ _ => prob_solve o e
  | EvRun o bl bu label i _ _ => sdp_run o bl bu label i e
  | _ => e
  end.

(** The answer that [ev] records is the one the collaborator gives to
    that call in state [e]: the verdict of [bound.verify], the status and
    the value of the problem after [solve] or [run].  (The attack is no
    call of a bound engine: a transcript holds none.) *)
Definition answered (ev : event) (e : E) : Prop :=
  match ev with
  | EvVerify o label i ok => ok = fst (bound_verify o label i e)
  | EvSolve o status value =>
      status = prob_status o (prob_solve o e) /\
      value = prob_value o (prob_solve o e)
  | EvRun o bl bu label i status value =>
      status = prob_status o (sdp_run o bl bu label i e) /\
      value = prob_value o (sdp_run o bl bu label i e)
  | EvAttack _ _ => False
  | _ => True
  end.

(** [evs] is a transcript from state [e]: every recorded answer is the
    collaborator's, asked in the state the earlier calls left. *)
Fixpoint transcript (evs : list event) (e : E) : Prop :=
  match evs with
  | [] => True
  | ev :: evs' => answered ev e /\ transcript evs' (call_effect ev e)
  end.

(** The state reached from [e] by the calls recorded in [evs], and by
    nothing else. *)
Definition replay (evs : list event) (e : E) : E :=
  fold_left (fun e ev => call_effect ev e) evs e.

(** From [w] to [w'] the log grew by a transcript of what happened to
    the collaborators. *)
Definition traces {S} (w w' : world S) : Prop :=
  exists evs,
    log w' = log w ++ evs /\ transcript evs (ext w) /\
    ext w' = replay evs (ext w).

(** A query of the class loop goes to the bound engine of [a] and is
    about [label]. *)
Definition asks (a : RealAdaptor_t) (label : Z) (ev : event) : Prop :=
  match ev with
  | EvVerify b l _ _ | EvPrepareVerify b l _ | EvRun b _ _ l _ _ _ =>
      bound a = Some b /\ l = label
  | EvSolve b _ _ => bound a = Some b
  | _ => False
  end.

End Transcripts.

(* ================================================================== *)
(** ** Vocabulary of the further properties *)

(** How the constants and the subtraction of floats respect the order:
    [0.0 <= 1.0], [1.0 != 0.0], and [a - b] grows with [a] and shrinks
    with [b] (a correctly rounded subtraction is monotone). *)
Class NumArith (N : Num) := {
  zero_le_one : fle zero one = true;
  one_not_zero : feqb one zero = false;
  fsub_mono : forall a a' b b' : F,
    fle a a' = true -> fle b' b = true -> fle (fsub a b) (fsub a' b') = true
}.

Section MoreVocabulary.
Context {N : Num} {X : Externals}.

(** The input shape an engine was constructed for. *)
Definition engine_shape (o : oracle') : list nat :=
  match o with
  | FastIntervalBound _ in_shape _ _
  | IntervalFastLinBound _ in_shape _ _
  | MILPVerifier _ in_shape _ _
  | PercySDP _ in_shape => in_shape
  end.

(** The interval an engine was constructed with (none for the SDP). *)
Definition engine_interval (o : oracle') : option (F * F) :=
  match o with
  | FastIntervalBound _ _ lo hi
  | IntervalFastLinBound _ _ lo hi
  | MILPVerifier _ _ lo hi => Some (lo, hi)
  | PercySDP _ _ => None
  end.

(** The attacks run and the [construct] calls made among [evs]. *)
Definition attack (ev : event) : list (F * F) :=
  match ev with
  | EvAttack eps eps_iter => [(eps, eps_iter)]
  | _ => []
  end.

Definition attacks (evs : list event) : list (F * F) := flat_map attack evs.

Definition construct_call (ev : event)
  : list (oracle' * list (list F) * list (list F) * tensor * F) :=
  match ev with
  | EvConstruct o l u x r => [(o, l, u, x, r)]
  | _ => []
  end.

Definition construct_calls (evs : list event)
  : list (oracle' * list (list F) * list (list F) * tensor * F) :=
  flat_map construct_call evs.

End MoreVocabulary.

Module MockMore.
Import Mock.
#[local] Existing Instance QNum.

(** A dataset with a single class. *)
Definition script_single : script :=
  {| scores := [1]%Q; adv_scores := [1]%Q; num_classes := 1;
     certifies := fun _ _ => false;
     solved := fun _ => ("infeasible"%string, None);
     pre_l := []; pre_u := [] |}.

(** A model that is a normalization layer and nothing else, and a
    normalization layer without statistics. *)
Definition norm_only : list (@layer QNum) := [NormalizeLayer norm_layer].

Definition empty_norm_layer : @NormalizeLayer_t QNum :=
  {| orig_means := [1 # 2]%Q; orig_sds := []; means := [1 # 2]%Q; sds := [] |}.

(** A normalization layer one of whose standard deviations is zero. *)
Definition zero_sd_layer : @NormalizeLayer_t QNum :=
  {| orig_means := [1 # 2]%Q; orig_sds := [1 # 4; 0]%Q;
     means := [1 # 2]%Q; sds := [1 # 4; 0]%Q |}.

(** A normalization layer followed by a layer that is no [nn.Sequential]. *)
Definition norm_then_layer : list (@layer QNum) :=
  [NormalizeLayer norm_layer; OtherLayer 0].

(** A flat vector of four entries, and a 3-channel image. *)
Definition vector4 : @tensor QNum :=
  {| shape := [4]%nat; data := [1; 3 # 4; 1 # 5; 0]%Q |}.

Definition image3 : @tensor QNum :=
  {| shape := [3; 1; 1]%nat; data := [1; 3 # 4; 1 # 5]%Q |}.

(** A 1-channel image of another size than [image1]. *)
Definition image1_wide : @tensor QNum :=
  {| shape := [1; 1; 3]%nat; data := [1 # 2; 1 # 4; 1 # 8]%Q |}.

End MockMore.

(* ================================================================== *)
(** ** Lemmas on the builtins *)

Ltac run_monad :=
  unfold assert, deref, or_else in *;
  unfold bind, ret, raise, lift, get_self, get_ext, modify_self, emit, ext_do,
         ext_call in *.

Section BuiltinLemmas.
Context {N : Num}.

Lemma py_min_some (xs : list F) : xs <> [] -> exists m, py_min xs = Ok m.
Proof. destruct xs; [congruence | eexists; reflexivity]. Qed.

Lemma py_max_some (xs : list F) : xs <> [] -> exists m, py_max xs = Ok m.
Proof. destruct xs; [congruence | eexists; reflexivity]. Qed.

Lemma py_min_nonempty (xs : list F) m : py_min xs = Ok m -> xs <> [].
Proof. destruct xs; simpl; congruence. Qed.

Lemma py_max_nonempty (xs : list F) m : py_max xs = Ok m -> xs <> [].
Proof. destruct xs; simpl; congruence. Qed.

Lemma min_from_In (xs : list F) : forall m, In (min_from m xs) (m :: xs).
Proof.
  induction xs as [|x xs IH]; intros m; simpl; [now left|].
  destruct (flt x m); [specialize (IH x) | specialize (IH m)];
    simpl in IH; tauto.
Qed.

Lemma max_from_In (xs : list F) : forall m, In (max_from m xs) (m :: xs).
Proof.
  induction xs as [|x xs IH]; intros m; simpl; [now left|].
  destruct (flt m x); [specialize (IH x) | specialize (IH m)];
    simpl in IH; tauto.
Qed.

Lemma In_range (n i : Z) : In i (range n) <-> 0 <= i < n.
Proof.
  unfold range. rewrite in_map_iff. split.
  - intros (k & <- & Hk). apply in_seq in Hk. lia.
  - intros H. exists (Z.to_nat i). split; [lia|]. apply in_seq. lia.
Qed.

Lemma range_split (n k : Z) :
  0 <= k < n ->
  range n = range k ++ k :: map Z.of_nat (seq (S (Z.to_nat k)) (Z.to_nat n - S (Z.to_nat k))).
Proof.
  intros H. unfold range.
  replace (Z.to_nat n) with (Z.to_nat k + S (Z.to_nat n - S (Z.to_nat k)))%nat at 1 by lia.
  rewrite seq_app, map_app. simpl. f_equal. f_equal. lia.
Qed.

Section Order.
Context {O : NumOrder N}.

Lemma fle_refl (a : F) : fle a a = true.
Proof.
  destruct (flt a a) eqn:H.
  - now apply flt_fle.
  - rewrite fle_not_flt, H. reflexivity.
Qed.

Lemma not_flt_fle (a b : F) : flt a b = false -> fle b a = true.
Proof. intros H. rewrite fle_not_flt, H. reflexivity. Qed.

Lemma min_from_le (xs : list F) :
  forall m x, In x (m :: xs) -> fle (min_from m xs) x = true.
Proof.
  induction xs as [|y xs IH]; intros m x Hin; simpl.
  - destruct Hin as [<-|[]]. apply fle_refl.
  - destruct (flt y m) eqn:Hym.
    + destruct Hin as [<-|Hin].
      * apply fle_trans with y; [apply IH; now left | now apply flt_fle].
      * apply IH. exact Hin.
    + destruct Hin as [<-|[<-|Hin]].
      * apply IH. now left.
      * apply fle_trans with m; [apply IH; now left | now apply not_flt_fle].
      * apply IH. now right.
Qed.

Lemma max_from_ge (xs : list F) :
  forall m x, In x (m :: xs) -> fle x (max_from m xs) = true.
Proof.
  induction xs as [|y xs IH]; intros m x Hin; simpl.
  - destruct Hin as [<-|[]]. apply fle_refl.
  - destruct (flt m y) eqn:Hmy.
    + destruct Hin as [<-|Hin].
      * apply fle_trans with y; [now apply flt_fle | apply IH; now left].
      * apply IH. exact Hin.
    + destruct Hin as [<-|[<-|Hin]].
      * apply IH. now left.
      * apply fle_trans with m; [now apply not_flt_fle | apply IH; now left].
      * apply IH. now right.
Qed.

(** [min(xs)] is an element of [xs] below all of them. *)
Lemma py_min_least (xs : list F) m :
  py_min xs = Ok m -> In m xs /\ forall x, In x xs -> fle m x = true.
Proof.
  destruct xs as [|y xs]; simpl; [discriminate|]. intros [= <-]. split.
  - apply min_from_In.
  - intros x Hx. apply min_from_le. exact Hx.
Qed.

(** [max(xs)] is an element of [xs] above all of them. *)
Lemma py_max_greatest (xs : list F) m :
  py_max xs = Ok m -> In m xs /\ forall x, In x xs -> fle x m = true.
Proof.
  destruct xs as [|y xs]; simpl; [discriminate|]. intros [= <-]. split.
  - apply max_from_In.
  - intros x Hx. apply max_from_ge. exact Hx.
Qed.

(** [np.maximum(x, 0)] is [x] when [x >= 0] and [0] otherwise. *)
Lemma np_maximum_zero (x : F) :
  fle zero (np_maximum x zero) = true /\
  (fle zero x = true -> np_maximum x zero = x) /\
  (fle zero x = false -> np_maximum x zero = zero).
Proof.
  unfold np_maximum. rewrite (fle_not_flt zero x).
  destruct (flt x zero) eqn:H; simpl.
  - split; [apply fle_refl|]. split; [discriminate | reflexivity].
  - split; [now apply not_flt_fle|]. split; [reflexivity | discriminate].
Qed.
End Order.

End BuiltinLemmas.

(* ================================================================== *)
(** ** Relational reasoning on the monad *)

Section SatLemmas.
Context {N : Num} {X : Externals}.
Context {S : Type} {Rel : world S -> world S -> Prop} {HRel : PreOrder Rel}.

Lemma sat_ret A (a : A) : sat Rel (ret a).
Proof. intros w. simpl. reflexivity. Qed.

Lemma sat_raise A (e : exn) : sat Rel (raise (A := A) e).
Proof. intros w. simpl. reflexivity. Qed.

Lemma sat_lift A (r : result A) : sat Rel (lift r).
Proof. intros w. simpl. reflexivity. Qed.

Lemma sat_get_self : sat Rel get_self.
Proof. intros w. simpl. reflexivity. Qed.

Lemma sat_get_ext : sat Rel get_ext.
Proof. intros w. simpl. reflexivity. Qed.

Lemma sat_assert (c : bool) : sat Rel (assert c).
Proof. destruct c; intros w; simpl; reflexivity. Qed.

Lemma sat_deref A (o : option A) : sat Rel (deref o).
Proof. destruct o; intros w; simpl; reflexivity. Qed.

Lemma sat_bind A B (c : M S A) (k : A -> M S B) :
  sat Rel c -> (forall a, sat Rel (k a)) -> sat Rel (bind c k).
Proof.
  intros Hc Hk w. unfold bind. specialize (Hc w).
  destruct (c w) as [[a|e] w1]; simpl in *.
  - transitivity w1; [exact Hc | apply Hk].
  - exact Hc.
Qed.

Lemma sat_bind_ret A B (a : A) (k : A -> M S B) :
  sat Rel (k a) -> sat Rel (bind (ret a) k).
Proof. intros H w. exact (H w). Qed.

Lemma sat_bind_raise A B (e : exn) (k : A -> M S B) :
  sat Rel (bind (raise e) k).
Proof. intros w. simpl. reflexivity. Qed.

Lemma sat_for_each (body : Z -> M S (option bool)) (cs : list Z) :
  (forall i, sat Rel (body i)) -> sat Rel (for_each cs body).
Proof.
  intros Hb. induction cs as [|i cs IH]; simpl.
  - apply sat_ret.
  - apply sat_bind; [apply Hb|]. intros [b|]; [apply sat_ret | exact IH].
Qed.

Lemma sat_or_else (r : option bool) (k : M S bool) :
  sat Rel k -> sat Rel (or_else r k).
Proof. destruct r; simpl; [intros _; apply sat_ret | auto]. Qed.

End SatLemmas.

(** One step of a proof that a computation satisfies a preorder. *)
Ltac sat_step :=
  lazymatch goal with
  | |- sat _ (bind _ _) => apply sat_bind; [ | intro]
  | |- sat _ (ret _) => apply sat_ret
  | |- sat _ (raise _) => apply sat_raise
  | |- sat _ (lift _) => apply sat_lift
  | |- sat _ get_self => apply sat_get_self
  | |- sat _ get_ext => apply sat_get_ext
  | |- sat _ (assert _) => apply sat_assert
  | |- sat _ (deref _) => apply sat_deref
  | |- sat _ (or_else _ _) => apply sat_or_else
  | |- sat _ (for_each _ _) => apply sat_for_each; intro
  | |- sat _ (match ?x with _ => _ end) => destruct x
  | |- sat _ (let _ := _ in _) => cbv zeta
  end.

Section FrameLemmas.
Context {N : Num} {X : Externals}.

#[export] Instance keeps_config_preorder : PreOrder keeps_config.
Proof.
  split.
  - intros w. unfold keeps_config, same_config. tauto.
  - intros w1 w2 w3. unfold keeps_config, same_config.
    intros (a & b & c & d) (a' & b' & c' & d'). repeat split; congruence.
Qed.

#[export] Instance emits_preorder S (Q : event -> Prop) : PreOrder (emits (S := S) Q).
Proof.
  split.
  - intros w. split; [reflexivity|]. exists []. now rewrite app_nil_r.
  - intros w1 w2 w3 (Hs & evs & Hl & HQ) (Hs' & evs' & Hl' & HQ').
    split; [congruence|]. exists (evs ++ evs'). split.
    + rewrite Hl', Hl, app_assoc. reflexivity.
    + apply Forall_app. now split.
Qed.

Lemma emits_weaken S (Q Q' : event -> Prop) (w w' : world S) :
  (forall ev, Q ev -> Q' ev) -> emits Q w w' -> emits Q' w w'.
Proof.
  intros H (Hs & evs & Hl & HQ). split; [exact Hs|]. exists evs. split; [exact Hl|].
  eapply Forall_impl; eauto.
Qed.

Lemma sat_emits_emit S (Q : event -> Prop) (ev : event) :
  Q ev -> sat (S := S) (emits Q) (emit ev).
Proof.
  intros H w. split; [reflexivity|]. exists [ev]. split; [reflexivity|].
  now constructor.
Qed.

Lemma sat_emits_ext_do S (Q : event -> Prop) (f : E -> E) :
  sat (S := S) (emits Q) (ext_do f).
Proof.
  intros w. split; [reflexivity|]. exists []. simpl. now rewrite app_nil_r.
Qed.

Lemma sat_emits_ext_call S A (Q : event -> Prop) (f : E -> A * E) :
  sat (S := S) (emits Q) (ext_call f).
Proof.
  intros w. unfold ext_call. destruct (f (ext w)).
  split; [reflexivity|]. exists []. simpl. now rewrite app_nil_r.
Qed.

Lemma sat_config_emit (ev : event) : sat keeps_config (emit ev).
Proof. intros w. unfold keeps_config, same_config. simpl. tauto. Qed.

Lemma sat_config_ext_do (f : E -> E) : sat keeps_config (ext_do f).
Proof. intros w. unfold keeps_config, same_config. simpl. tauto. Qed.

Lemma sat_config_ext_call A (f : E -> A * E) : sat keeps_config (ext_call f).
Proof.
  intros w. unfold ext_call. destruct (f (ext w)).
  unfold keeps_config, same_config. simpl. tauto.
Qed.

Lemma sat_config_modify (f : RealAdaptor_t -> RealAdaptor_t) :
  (forall a, same_config a (f a)) -> sat keeps_config (modify_self f).
Proof. intros H w. apply H. Qed.

End FrameLemmas.

Ltac config_step :=
  first
    [ apply sat_config_emit
    | apply sat_config_ext_do
    | apply sat_config_ext_call
    | apply sat_config_modify; intros ?; unfold same_config; simpl; tauto
    | sat_step ].

Section ConfigLemmas.
Context {N : Num} {X : Externals}.

Lemma verify_keeps_config input label norm_type radius :
  sat keeps_config (verify input label norm_type radius).
Proof.
  unfold verify, RealAdaptorBase_verify, IBPAdaptor_verify, MILPAdaptor_verify,
    PercySDPAdaptor_verify, RealAdaptorBase_bounds, IBPAdaptor_bounds,
    MILPAdaptor_bounds, PercySDPAdaptor_bounds, init_at_first_time,
    build_new_model, prepare_solver, clean_prediction, pairwise_verify,
    milp_solve_pair, sdp_run_pair.
  repeat config_step.
Qed.
End ConfigLemmas.

(* ================================================================== *)
(** ** Symbolic execution of [verify] *)

Section Execution.
Context {N : Num} {X : Externals}.

Lemma after_init_config (a : RealAdaptor_t) in_shape :
  same_config a (after_init a in_shape).
Proof.
  unfold same_config, after_init. destruct (new_model a); simpl; tauto.
Qed.

Lemma after_init_ready (a : RealAdaptor_t) in_shape :
  usable a = true -> ready (after_init a in_shape) = true.
Proof.
  unfold usable, uninitialized, ready, after_init.
  destruct a as [c b nm imin imax bd pb]; simpl.
  destruct nm; simpl.
  - rewrite andb_true_iff. intros [_ H]. exact H.
  - unfold built_model, built_prebound; simpl. destruct c; simpl; reflexivity.
Qed.

Lemma after_init_of_ready (a : RealAdaptor_t) in_shape :
  ready a = true -> after_init a in_shape = a /\ init_events a in_shape = [].
Proof.
  unfold ready, after_init, init_events. destruct (new_model a); simpl; [tauto|discriminate].
Qed.

(** The initialization block on a usable adaptor. *)
Lemma init_at_first_time_usable (w : world RealAdaptor_t) (input : tensor) :
  usable (self w) = true ->
  init_at_first_time
    (match cls (self w) with IBPAdaptor => false | _ => true end) input w
  = (Ok tt, {| self := after_init (self w) (shape input);
               ext := ext w;
               log := log w ++ init_events (self w) (shape input) |}).
Proof.
  destruct w as [[c [ds m cf] nm imin imax bd pb] e l].
  unfold usable, uninitialized, ready, after_init, init_events; cbn.
  intros H.
  destruct nm as [nm|]; cbn.
  - unfold init_at_first_time; run_monad; cbn. now rewrite app_nil_r.
  - destruct c; cbn in H; try discriminate;
      destruct m as [|[nl| sub | k] [|[nl2|sub2|k2] m']]; cbn in H; try discriminate;
      unfold init_at_first_time, build_new_model, prepare_solver; run_monad; cbn;
      rewrite <- ?app_assoc; reflexivity.
Qed.

(** [verify] with the supported norm on a usable adaptor, up to the
    clean check. *)
Lemma verify_inf (w : world RealAdaptor_t) input label radius :
  usable (self w) = true ->
  verify input label "inf" radius w =
  let a := self w in
  let a1 := after_init a (shape input) in
  let w1 := {| self := a1; ext := ext w;
               log := log w ++ init_events a (shape input) ++
                      [EvForward (model (basic a)) (unsqueeze0 input)] |} in
  match np_argmax (forward (model (basic a)) (unsqueeze0 input)) with
  | Raise x => (Raise x, w1)
  | Ok p => if p =? label then class_bounds (cls a) a1 input label radius w1
            else (Ok false, w1)
  end.
Proof.
  intros Hu. pose proof (init_at_first_time_usable w input Hu) as Hi.
  pose proof (after_init_config (self w) (shape input)) as (Hc & Hb & _).
  unfold verify. unfold bind at 1. unfold get_self at 1.
  assert (Hcc : concrete (cls (self w)) = true).
  { unfold usable in Hu. rewrite !andb_true_iff in Hu. tauto. }
  destruct (cls (self w)) eqn:Hcls; try discriminate;
    cbv beta iota in Hi;
    unfold RealAdaptorBase_verify, IBPAdaptor_verify, MILPAdaptor_verify,
      PercySDPAdaptor_verify, clean_prediction;
    run_monad; cbn [String.eqb Ascii.eqb Bool.eqb]; cbv beta iota;
    rewrite Hi; cbn [self ext log]; rewrite Hb, <- app_assoc;
    destruct (np_argmax _) as [p|x]; cbn; try reflexivity;
    destruct (p =? label); reflexivity.
Qed.

End Execution.

Section BoundsExecution.
Context {N : Num} {X : Externals}.

(** The statements after the clean check, on a ready adaptor: the
    prelude, then the class loop. *)
Lemma class_bounds_ready (a : RealAdaptor_t) (w : world RealAdaptor_t)
    input label radius x0 :
  ready a = true -> concrete (cls a) = true ->
  input_preprocess (model (basic a)) input = Ok x0 ->
  let x := bounds_input (cls a) x0 in
  let mr := fdiv radius (coef (basic a)) in
  let w2 := {| self := self w; ext := prelude_ext a x mr (ext w);
               log := log w ++ prelude_events a x mr (ext w) |} in
  class_bounds (cls a) a input label radius w =
  let (r, w3) := class_loop (class_check a (prelude_ext a x mr (ext w)) label) label
                   (range (get_num_classes (dataset (basic a)))) w2 in
  (match r with
   | Ok (Some b) => Ok b
   | Ok None => Ok true
   | Raise e => Raise e
   end, w3).
Proof.
  destruct a as [c b nm imin imax bd pb]. unfold ready.
  cbn [cls basic new_model bound prebound].
  intros Hr Hc Hp; cbv zeta.
  unfold class_loop, class_check, prelude_ext, prelude_events, calc_oracle, bounds_input;
    cbn [cls basic new_model bound prebound].
  destruct nm as [nm|]; [|discriminate]. destruct bd as [bd|]; [|discriminate].
  destruct c; try discriminate; cbn in Hr; try (destruct pb as [pb|]; [|discriminate]);
    unfold class_bounds, RealAdaptorBase_bounds, IBPAdaptor_bounds, MILPAdaptor_bounds,
      PercySDPAdaptor_bounds; cbn [cls basic new_model bound prebound];
    run_monad; rewrite Hp; cbv beta iota zeta; cbn [self ext log];
    rewrite <- ?app_assoc; cbn [app];
    match goal with
    | |- context [for_each ?cs ?f ?w] =>
        destruct (for_each cs f w) as [[[r|]|e] w3]
    end;
    reflexivity.
Qed.
End BoundsExecution.

(* ================================================================== *)
(** ** The class loop *)

Section LoopLemmas.
Context {N : Num} {X : Externals}.

Lemma queried_app (evs1 evs2 : list event) :
  queried (evs1 ++ evs2) = queried evs1 ++ queried evs2.
Proof. apply flat_map_app. Qed.

Lemma answers_app (evs1 evs2 : list event) :
  answers (evs1 ++ evs2) = answers evs1 ++ answers evs2.
Proof. apply flat_map_app. Qed.

Lemma pairwise_verify_step (a : RealAdaptor_t) (label : Z) :
  is_some (bound a) = true -> pair_step (pairwise_verify a label).
Proof.
  destruct (bound a) as [b|] eqn:Hb; [intros _|discriminate].
  intros i w. unfold pairwise_verify. rewrite Hb. run_monad.
  destruct (bound_verify b label i (ext w)) as [ok e'] eqn:Hv.
  destruct ok; cbn; (split; [reflexivity|]);
    eexists [EvVerify b label i _], _; cbn; auto.
Qed.

Lemma milp_solve_pair_step (a : RealAdaptor_t) (label : Z) :
  is_some (bound a) = true -> pair_step (milp_solve_pair a label).
Proof.
  destruct (bound a) as [b|] eqn:Hb; [intros _|discriminate].
  intros i w. unfold milp_solve_pair. rewrite Hb. run_monad. cbn.
  set (e' := prob_solve b (prepare_verify b label i (ext w))).
  split.
  - destruct (prob_status b e' =? "optimal")%string; cbn; [|reflexivity].
    destruct (prob_value b e') as [v|]; [destruct (flt v zero)|]; reflexivity.
  - exists [EvPrepareVerify b label i; EvSolve b (prob_status b e') (prob_value b e')].
    eexists. split; [|split; [reflexivity|split; [reflexivity|]]].
    + destruct (prob_status b e' =? "optimal")%string; cbn; [|now rewrite <- app_assoc].
      destruct (prob_value b e') as [v|]; [destruct (flt v zero)|]; cbn;
        now rewrite <- app_assoc.
    + destruct (prob_status b e' =? "optimal")%string eqn:Hst; cbn; [|auto].
      destruct (prob_value b e') as [v|] eqn:Hv; [destruct (flt v zero)|]; cbn; auto.
      split; [reflexivity|]. eexists [_], _. split; [reflexivity|].
      cbn. now apply String.eqb_eq.
Qed.

Lemma sdp_run_pair_step (a : RealAdaptor_t) bl bu (label : Z) :
  is_some (bound a) = true -> pair_step (sdp_run_pair a bl bu label).
Proof.
  destruct (bound a) as [b|] eqn:Hb; [intros _|discriminate].
  intros i w. unfold sdp_run_pair. rewrite Hb. run_monad. cbn.
  set (e' := sdp_run b bl bu label i (ext w)).
  split.
  - destruct (prob_status b e' =? "optimal")%string; cbn; [|reflexivity].
    destruct (prob_value b e') as [v|]; [destruct (flt zero v)|]; reflexivity.
  - exists [EvRun b bl bu label i (prob_status b e') (prob_value b e')].
    eexists. split; [|split; [reflexivity|split; [reflexivity|]]].
    + destruct (prob_status b e' =? "optimal")%string; cbn; [|reflexivity].
      destruct (prob_value b e') as [v|]; [destruct (flt zero v)|]; reflexivity.
    + destruct (prob_status b e' =? "optimal")%string eqn:Hst; cbn; [|auto].
      destruct (prob_value b e') as [v|] eqn:Hv; [destruct (flt zero v)|]; cbn; auto.
      split; [reflexivity|]. eexists [], _. split; [reflexivity|].
      cbn. now apply String.eqb_eq.
Qed.

Lemma class_check_step (a : RealAdaptor_t) (e1 : E) (label : Z) :
  ready a = true -> pair_step (class_check a e1 label).
Proof.
  unfold ready. rewrite !andb_true_iff. intros [[_ H] Hp]. unfold class_check.
  destruct (cls a); try (apply pairwise_verify_step; exact H).
  - apply milp_solve_pair_step; exact H.
  - destruct (prebound a); [apply sdp_run_pair_step; exact H | discriminate].
Qed.

Lemma stopped_skip (label : Z) cs evs :
  stopped_at label cs evs -> stopped_at label (label :: cs) evs.
Proof.
  intros (pre & k & post & -> & Hk & Hq & Ha).
  exists (label :: pre), k, post. unfold others in *. cbn [filter app].
  rewrite Z.eqb_refl. cbn [negb]. auto.
Qed.

Lemma stopped_here (label i : Z) cs evs :
  i <> label -> queried evs = [i] -> answers evs = [false] ->
  stopped_at label (i :: cs) evs.
Proof. intros Hi Hq Ha. exists [], i, cs. cbn. auto. Qed.

Lemma stopped_later (label i : Z) cs evs1 evs2 :
  i <> label -> queried evs1 = [i] -> answers evs1 = [true] ->
  stopped_at label cs evs2 -> stopped_at label (i :: cs) (evs1 ++ evs2).
Proof.
  intros Hi Hq1 Ha1 (pre & k & post & -> & Hk & Hq & Ha).
  exists (i :: pre), k, post. rewrite queried_app, answers_app, Hq1, Ha1, Hq, Ha.
  unfold others. cbn [filter app]. apply Z.eqb_neq in Hi. rewrite Hi. cbn. auto.
Qed.

Lemma raised_later (evs1 evs2 : list event) :
  raised_on evs2 -> raised_on (evs1 ++ evs2).
Proof.
  intros (evs' & ev & -> & H). exists (evs1 ++ evs'), ev.
  now rewrite app_assoc.
Qed.

Lemma all_passed_skip (label : Z) cs evs :
  all_passed label cs evs -> all_passed label (label :: cs) evs.
Proof.
  unfold all_passed, others. cbn [filter]. rewrite Z.eqb_refl. cbn [negb]. auto.
Qed.

Lemma all_passed_cons (label i : Z) cs evs1 evs2 :
  i <> label -> queried evs1 = [i] -> answers evs1 = [true] ->
  all_passed label cs evs2 -> all_passed label (i :: cs) (evs1 ++ evs2).
Proof.
  intros Hi Hq1 Ha1 [Hq Ha]. unfold all_passed.
  rewrite queried_app, answers_app, Hq1, Ha1, Hq, Ha.
  unfold others. cbn [filter]. apply Z.eqb_neq in Hi. rewrite Hi. cbn. auto.
Qed.

Lemma class_loop_cons (check : Z -> R (option bool)) (label i : Z) cs w :
  class_loop check label (i :: cs) w =
  if i =? label then class_loop check label cs w
  else match check i w with
       | (Ok None, w1) => class_loop check label cs w1
       | (Ok (Some b), w1) => (Ok (Some b), w1)
       | (Raise x, w1) => (Raise x, w1)
       end.
Proof.
  unfold class_loop. cbn [for_each]. unfold bind.
  destruct (i =? label); cbn [negb]; [reflexivity|].
  destruct (check i w) as [[[b|]|x] w1]; reflexivity.
Qed.

(** The loop asks about the classes other than [label] in order, and
    stops at the first answer that does not pass. *)
Lemma class_loop_spec (check : Z -> R (option bool)) (label : Z) :
  pair_step check ->
  forall cs w,
    self (snd (class_loop check label cs w)) = self w /\
    exists evs,
      log (snd (class_loop check label cs w)) = log w ++ evs /\
      loop_outcome label cs (fst (class_loop check label cs w)) evs.
Proof.
  intros Hstep. induction cs as [|i cs IH]; intros w.
  - cbn. split; [reflexivity|]. exists []. rewrite app_nil_r.
    unfold all_passed. auto.
  - rewrite class_loop_cons.
    destruct (i =? label) eqn:Hi.
    + apply Z.eqb_eq in Hi. subst i.
      destruct (IH w) as (Hs & evs & Hl & Hr). split; [exact Hs|]. exists evs.
      split; [exact Hl|]. revert Hr. unfold loop_outcome.
      destruct (fst (class_loop check label cs w)) as [[v|]|x]; intros Hr.
      * split; [apply Hr | apply stopped_skip, Hr].
      * apply all_passed_skip, Hr.
      * split; [apply stopped_skip|]; apply Hr.
    + apply Z.eqb_neq in Hi.
      destruct (Hstep i w) as (Hs & evs1 & b & Hl & Hq & Ha & Hr).
      destruct (check i w) as [[[v|]|x] w1]; cbn [fst snd] in *.
      * destruct Hr as [-> ->]. split; [exact Hs|].
        exists evs1. split; [exact Hl|]. split; [reflexivity|].
        now apply stopped_here.
      * subst b. destruct (IH w1) as (Hs' & evs2 & Hl' & Hr').
        split; [congruence|]. exists (evs1 ++ evs2).
        split; [rewrite Hl', Hl, app_assoc; reflexivity|].
        revert Hr'. unfold loop_outcome.
        destruct (fst (class_loop check label cs w1)) as [[v|]|x]; intros Hr'.
        -- split; [apply Hr' | apply stopped_later; tauto].
        -- now apply all_passed_cons.
        -- split; [apply stopped_later; tauto | apply raised_later; tauto].
      * destruct Hr as [-> Hrz]. split; [exact Hs|]. exists evs1.
        split; [exact Hl|]. split; [now apply stopped_here | exact Hrz].
Qed.

End LoopLemmas.

(** One step of a proof that a computation only makes calls of a kind. *)
Ltac emits_step :=
  lazymatch goal with
  | |- sat _ (bind (ret _) _) => apply sat_bind_ret
  | |- sat _ (bind (raise _) _) => apply sat_bind_raise
  | |- sat _ (ext_do _) => apply sat_emits_ext_do
  | |- sat _ (ext_call _) => apply sat_emits_ext_call
  | |- sat _ (emit _) => apply sat_emits_emit
  | _ => sat_step
  end.

Section LoopEvents.
Context {N : Num} {X : Externals}.

#[export] Instance when_ready_preorder (Q : event -> Prop) : PreOrder (when_ready Q).
Proof.
  split.
  - intros w _. reflexivity.
  - intros w1 w2 w3 H12 H23 Hr. specialize (H12 Hr).
    assert (Hr2 : ready (self w2) = true) by (destruct H12 as [-> _]; exact Hr).
    etransitivity; [exact H12 | exact (H23 Hr2)].
Qed.

Lemma sat_when_ready (Q : event -> Prop) A (c : R A) :
  sat (emits Q) c -> sat (when_ready Q) c.
Proof. intros H w _. apply H. Qed.

Lemma sat_when_ready_init (Q : event -> Prop) build input :
  sat (when_ready Q) (init_at_first_time build input).
Proof.
  intros w Hr. unfold init_at_first_time. run_monad. unfold ready in Hr.
  destruct (new_model (self w)); [|discriminate]. reflexivity.
Qed.

(** The calls a pairwise check makes. *)
Lemma class_check_emits (a : RealAdaptor_t) (e1 : E) (label i : Z) :
  sat (emits (pair_event a e1 label)) (class_check a e1 label i).
Proof.
  unfold class_check, pairwise_verify, milp_solve_pair, sdp_run_pair.
  destruct (bound a) as [b|] eqn:Hb; cbn [deref].
  - destruct (cls a) eqn:Hc; [| | | |destruct (prebound a) as [p|] eqn:Hp];
      cbv beta; repeat emits_step; cbn; eauto 8; repeat split; congruence.
  - destruct (cls a); [| | | |destruct (prebound a)]; cbv beta;
      first [apply sat_bind_raise | apply sat_raise].
Qed.

Lemma class_loop_emits (a : RealAdaptor_t) (e1 : E) (label : Z) cs :
  sat (emits (pair_event a e1 label)) (class_loop (class_check a e1 label) label cs).
Proof.
  unfold class_loop. apply sat_for_each. intros i.
  destruct (negb (i =? label)); [apply class_check_emits | apply sat_ret].
Qed.

End LoopEvents.

Section Run.
Context {N : Num} {X : Externals}.

Lemma usable_concrete (a : RealAdaptor_t) : usable a = true -> concrete (cls a) = true.
Proof. unfold usable. rewrite !andb_true_iff. tauto. Qed.

(** A whole [verify] call whose clean check and preprocessing succeed:
    the adaptor it leaves, the calls it makes and its outcome. *)
Lemma verify_run (w : world RealAdaptor_t) input label radius x0 :
  usable (self w) = true ->
  np_argmax (forward (model (basic (self w))) (unsqueeze0 input)) = Ok label ->
  input_preprocess (model (basic (self w))) input = Ok x0 ->
  let a := self w in
  let a1 := after_init a (shape input) in
  let x := bounds_input (cls a) x0 in
  let mr := fdiv radius (coef (basic a)) in
  let e1 := prelude_ext a1 x mr (ext w) in
  let out := verify input label "inf" radius w in
  self (snd out) = a1 /\
  exists evs,
    log (snd out) =
      log w ++ init_events a (shape input) ++
      [EvForward (model (basic a)) (unsqueeze0 input)] ++
      prelude_events a1 x mr (ext w) ++ evs /\
    Forall (pair_event a1 e1 label) evs /\
    verdict_outcome label (range (get_num_classes (dataset (basic a)))) (fst out) evs.
Proof.
  intros Hu Harg Hpre. cbv zeta.
  pose proof (after_init_config (self w) (shape input)) as (Hc & Hb & _).
  pose proof (after_init_ready _ (shape input) Hu) as Hr.
  set (a1 := after_init (self w) (shape input)) in *.
  rewrite (verify_inf w input label radius Hu). cbv zeta. fold a1.
  rewrite Harg, Z.eqb_refl, <- Hc.
  assert (Hcc : concrete (cls a1) = true) by (rewrite Hc; now apply usable_concrete).
  rewrite <- Hb in Hpre.
  rewrite (class_bounds_ready a1 _ input label radius Hr Hcc Hpre).
  cbv zeta. cbn [self ext log]. rewrite Hb.
  set (w2 := {| self := a1 |}).
  set (chk := class_check a1 _ label).
  set (cs := range _).
  pose proof (class_loop_spec (check := chk) label
                (class_check_step a1 _ label Hr) cs w2)
    as (Hs & evs & Hl & Ho).
  pose proof (class_loop_emits a1 (prelude_ext a1 (bounds_input (cls a1) x0)
                 (fdiv radius (coef (basic (self w)))) (ext w)) label cs w2)
    as (_ & evs' & Hl' & HQ).
  fold chk in Hl', HQ.
  rewrite Hl in Hl'. apply app_inv_head in Hl'. subst evs'.
  destruct (class_loop chk label cs w2) as [r w3]. cbn [fst snd] in *.
  split; [exact Hs|]. exists evs. split.
  - rewrite Hl. unfold w2. cbn [log]. rewrite <- !app_assoc. reflexivity.
  - split; [exact HQ|]. unfold loop_outcome in Ho. unfold verdict_outcome.
    destruct r as [[[|]|]|x]; try exact Ho.
    + destruct Ho as [Ho _]. discriminate.
    + apply Ho.
Qed.

End Run.

Section EventLemmas.
Context {N : Num} {X : Externals}.

Lemma calc_calls_app (evs1 evs2 : list event) :
  calc_calls (evs1 ++ evs2) = calc_calls evs1 ++ calc_calls evs2.
Proof. apply flat_map_app. Qed.

Lemma flat_map_nil A B (f : A -> list B) (l : list A) :
  Forall (fun x => f x = []) l -> flat_map f l = [].
Proof.
  induction 1 as [|x l Hx _ IH]; simpl; [reflexivity|]. now rewrite Hx, IH.
Qed.

(** Events that are no call to an engine carry no query, no answer and
    no bound computation. *)
Lemma quiet_events (evs : list event) :
  Forall (fun ev => is_oracle_call ev = false) evs ->
  calc_calls evs = [] /\ queried evs = [] /\ answers evs = [].
Proof.
  intros H. repeat split; apply flat_map_nil; eapply Forall_impl; try exact H;
    intros [] Hq; simpl in *; try reflexivity; discriminate.
Qed.

Lemma init_events_quiet (a : RealAdaptor_t) in_shape :
  Forall (fun ev => is_oracle_call ev = false) (init_events a in_shape).
Proof.
  unfold init_events. destruct (new_model a); [constructor|].
  destruct (cls a); cbn; repeat constructor.
Qed.

Lemma pair_events_no_calc (a : RealAdaptor_t) e1 label (evs : list event) :
  Forall (pair_event a e1 label) evs -> calc_calls evs = [].
Proof.
  intros H. apply flat_map_nil. eapply Forall_impl; [|exact H].
  intros [] Hq; simpl in *; try reflexivity; contradiction.
Qed.

(** The prelude of a ready adaptor: one [calculate_bound], on the
    engine the class computes bounds with. *)
Lemma prelude_events_ready (a : RealAdaptor_t) x mr e :
  ready a = true ->
  exists p, calc_oracle a = Some p /\
    calc_calls (prelude_events a x mr e) = [(p, x, mr)] /\
    queried (prelude_events a x mr e) = [] /\
    answers (prelude_events a x mr e) = [].
Proof.
  unfold ready, prelude_events, calc_oracle. rewrite !andb_true_iff.
  intros [[_ Hb] Hp]. destruct (bound a) as [b|]; [|discriminate].
  destruct (cls a); try solve [exists b; cbn; auto];
    (destruct (prebound a) as [p|]; [|discriminate]);
    exists p; cbn; auto.
Qed.


Lemma all_passed_no_false (label : Z) cs evs :
  all_passed label cs evs -> ~ In false (answers evs).
Proof.
  intros [_ Ha] Hin. rewrite Ha in Hin. apply repeat_spec in Hin. discriminate.
Qed.

Lemma stopped_not_all_passed (label : Z) cs evs :
  stopped_at label cs evs -> ~ all_passed label cs evs.
Proof.
  intros (pre & k & post & _ & _ & _ & Ha) Hall.
  apply (all_passed_no_false Hall). rewrite Ha. apply in_or_app. right. now left.
Qed.

End EventLemmas.

(* ================================================================== *)
(** ** Preprocessing and clamping *)

Section TensorLemmas.
Context {N : Num}.

Lemma nth_concat_repeat (v : list F) (d : F) :
  forall n p k, (p < n)%nat -> (k < length v)%nat ->
    nth (p * length v + k) (concat (repeat v n)) d = nth k v d.
Proof.
  induction n as [|n IH]; intros p k Hp Hk; [lia|].
  cbn [repeat concat]. destruct p as [|p].
  - cbn. now rewrite app_nth1.
  - rewrite app_nth2 by (cbn; lia).
    replace (S p * length v + k - length v)%nat with (p * length v + k)%nat
      by (cbn; lia).
    apply IH; lia.
Qed.

Lemma flat_map_nth_seq A (g : F -> list A) (d : F) (v : list F) :
  flat_map (fun k => g (nth k v d)) (seq 0 (length v)) = flat_map g v.
Proof.
  induction v as [|m v IH]; [reflexivity|].
  cbn [length seq flat_map nth]. f_equal.
  rewrite <- seq_shift, flat_map_concat_map, map_map, <- flat_map_concat_map.
  exact IH.
Qed.

(** [v.repeat(height, width, 1).permute(2, 0, 1)]: one constant plane
    per entry of [v]. *)
Lemma permute_repeat (v : list F) (height width : nat) :
  permute_2_0_1 (repeat_hw1 v height width) =
  {| shape := [length v; height; width];
     data := channelwise v (height * width) |}.
Proof.
  unfold permute_2_0_1, repeat_hw1, channelwise. cbn [shape data]. f_equal.
  rewrite <- (flat_map_nth_seq (fun m => repeat m (height * width)) zero v).
  rewrite !flat_map_concat_map. f_equal.
  apply map_ext_in. intros k Hk. apply in_seq in Hk.
  transitivity (map (fun _ : nat => nth k v zero) (seq 0 (height * width))).
  - apply map_ext_in. intros p Hp. apply in_seq in Hp.
    apply nth_concat_repeat; lia.
  - now rewrite map_const, length_seq.
Qed.

Lemma nth_channelwise (v : list F) (plane : nat) (d : F) :
  forall k p, (k < length v)%nat -> (p < plane)%nat ->
    nth (k * plane + p) (channelwise v plane) d = nth k v d.
Proof.
  unfold channelwise.
  induction v as [|m v IH]; intros k p Hk Hp; cbn [length] in Hk; [lia|].
  cbn [flat_map]. destruct k as [|k].
  - cbn [Nat.mul Nat.add nth]. rewrite app_nth1 by (rewrite repeat_length; lia).
    now apply nth_repeat_lt.
  - rewrite app_nth2 by (rewrite repeat_length; cbn; lia).
    rewrite repeat_length.
    replace (S k * plane + p - plane)%nat with (k * plane + p)%nat by (cbn; lia).
    cbn [nth]. apply IH; lia.
Qed.

Lemma length_channelwise (v : list F) (plane : nat) :
  length (channelwise v plane) = (length v * plane)%nat.
Proof.
  unfold channelwise. induction v as [|m v IH]; [reflexivity|].
  cbn [flat_map length]. rewrite length_app, repeat_length, IH. cbn. lia.
Qed.

Lemma length_map2 (f : F -> F -> F) :
  forall xs ys, length (map2 f xs ys) = Nat.min (length xs) (length ys).
Proof.
  induction xs as [|x xs IH]; intros [|y ys]; cbn; auto.
Qed.

Lemma nth_map2 (f : F -> F -> F) (d : F) :
  forall xs ys i, (i < length xs)%nat -> (i < length ys)%nat ->
    nth i (map2 f xs ys) d = f (nth i xs d) (nth i ys d).
Proof.
  induction xs as [|x xs IH]; intros [|y ys] i Hx Hy; cbn in *; try lia.
  destruct i; [reflexivity|]. apply IH; lia.
Qed.

(** [input_preprocess] behind a normalization layer whose per-channel
    vectors match the channels of the image: every entry has the mean
    of its channel subtracted and is divided by the channel's standard
    deviation; the sizes are kept. *)
Lemma input_preprocess_normalize (nl : NormalizeLayer_t) rest (input : tensor)
    (c height width : nat) :
  shape input = [c; height; width] ->
  length (means nl) = c -> length (sds nl) = c ->
  input_preprocess (NormalizeLayer nl :: rest) input =
  Ok {| shape := [c; height; width];
        data := map2 fdiv
                  (map2 fsub (data input) (channelwise (means nl) (height * width)))
                  (channelwise (sds nl) (height * width)) |}.
Proof.
  intros Hs Hm Hd. unfold input_preprocess. cbn [getitem nth_error rbind].
  rewrite Hs, !permute_repeat, Hm, Hd.
  unfold elementwise. rewrite Hs. cbn [shape data rbind].
  rewrite Nat.eqb_refl. cbn [rbind shape data]. rewrite Nat.eqb_refl. reflexivity.
Qed.

Lemma input_preprocess_plain (l : layer) rest (input : tensor)
    (c height width : nat) :
  isinstance_NormalizeLayer l = false ->
  shape input = [c; height; width] ->
  input_preprocess (l :: rest) input = Ok input.
Proof.
  intros Hl Hs. unfold input_preprocess. cbn [getitem nth_error rbind].
  rewrite Hs. destruct l; [discriminate| |]; reflexivity.
Qed.

(** The entry at channel [k], position [p]. *)
Lemma input_preprocess_entry (nl : NormalizeLayer_t) rest (input x0 : tensor)
    (c height width k p : nat) :
  shape input = [c; height; width] ->
  length (data input) = (c * (height * width))%nat ->
  length (means nl) = c -> length (sds nl) = c ->
  input_preprocess (NormalizeLayer nl :: rest) input = Ok x0 ->
  (k < c)%nat -> (p < height * width)%nat ->
  nth (k * (height * width) + p) (data x0) zero =
  fdiv (fsub (nth (k * (height * width) + p) (data input) zero)
             (nth k (means nl) zero))
       (nth k (sds nl) zero).
Proof.
  intros Hs Hlen Hm Hd Hpre Hk Hp.
  rewrite (input_preprocess_normalize nl rest input Hs Hm Hd) in Hpre.
  injection Hpre as <-. cbn [data].
  assert (Hi : (k * (height * width) + p < c * (height * width))%nat) by nia.
  rewrite nth_map2.
  - rewrite nth_map2.
    + rewrite !nth_channelwise by lia. reflexivity.
    + lia.
    + rewrite length_channelwise. lia.
  - rewrite length_map2, length_channelwise. lia.
  - rewrite length_channelwise. lia.
Qed.

(** [view(-1)] keeps the entries and gives one dimension. *)
Lemma view_flat_spec (t : tensor) :
  data (view_flat t) = data t /\ shape (view_flat t) = [length (data t)].
Proof. split; reflexivity. Qed.

End TensorLemmas.

Section ClampLemmas.
Context {N : Num}.

Lemma length_clamp_bounds (l : list (list F)) :
  length (clamp_bounds l) = length l.
Proof. unfold clamp_bounds. now rewrite length_map, length_seq. Qed.

(** The clamped list, layer by layer: layer 0 as it is, every other
    layer through [np.maximum(., 0)]. *)
Lemma nth_clamp_bounds (l : list (list F)) (i : nat) :
  (i < length l)%nat ->
  nth i (clamp_bounds l) [] =
  if (0 <? i)%nat then np_maximum0 (nth i l []) else nth i l [].
Proof.
  intros Hi. unfold clamp_bounds.
  set (f := fun i : nat =>
              if (0 <? i)%nat then np_maximum0 (nth i l []) else nth i l []).
  rewrite (nth_indep _ [] (f 0%nat))
    by (rewrite length_map, length_seq; exact Hi).
  rewrite (map_nth f), seq_nth by exact Hi. reflexivity.
Qed.

End ClampLemmas.

(* ================================================================== *)
(** ** The two states of an instance *)

Ltac ready_step :=
  lazymatch goal with
  | |- sat _ (init_at_first_time _ _) => apply sat_when_ready_init
  | |- sat _ (ext_do _) => apply sat_when_ready, sat_emits_ext_do
  | |- sat _ (ext_call _) => apply sat_when_ready, sat_emits_ext_call
  | |- sat _ (emit _) => apply sat_when_ready, sat_emits_emit; reflexivity
  | _ => sat_step
  end.

Section Lifecycle.
Context {N : Num} {X : Externals}.

(** On a ready instance, [verify] leaves the adaptor as it is and
    neither materializes a model nor builds an engine. *)
Lemma verify_when_ready input label norm_type radius :
  sat (when_ready (fun ev => is_init_event ev = false))
      (verify input label norm_type radius).
Proof.
  unfold verify, RealAdaptorBase_verify, IBPAdaptor_verify, MILPAdaptor_verify,
    PercySDPAdaptor_verify, RealAdaptorBase_bounds, IBPAdaptor_bounds,
    MILPAdaptor_bounds, PercySDPAdaptor_bounds, clean_prediction, pairwise_verify,
    milp_solve_pair, sdp_run_pair.
  repeat ready_step.
Qed.

Lemma run_calls_ready (cs : list call) :
  forall w, ready (self w) = true ->
    emits (fun ev => is_init_event ev = false) w (run_calls cs w).
Proof.
  induction cs as [|c cs IH]; intros w Hr; cbn [run_calls]; [reflexivity|].
  pose proof (verify_when_ready (c_input c) (c_label c) (c_norm_type c)
                (c_radius c) w Hr) as H1.
  etransitivity; [exact H1|]. apply IH. destruct H1 as [-> _]. exact Hr.
Qed.

(** A call with an unsupported norm raises before anything is done. *)
Lemma verify_not_inf (w : world RealAdaptor_t) input label norm_type radius :
  norm_type <> "inf"%string ->
  verify input label norm_type radius w = (Raise AssertionError, w).
Proof.
  intros H. apply String.eqb_neq in H.
  unfold verify, RealAdaptorBase_verify, IBPAdaptor_verify, MILPAdaptor_verify,
    PercySDPAdaptor_verify. unfold bind, get_self. rewrite H.
  destruct (cls (self w)); reflexivity.
Qed.

End Lifecycle.

(* ================================================================== *)
(** ** The weak oracles *)

Section WeakOracles.
Context {N : Num} {X : Externals}.

Lemma CleanAdaptor_verify_run (w : world BasicAdaptor_t) input label norm_type radius p :
  np_argmax (forward (model (self w)) (unsqueeze0 input)) = Ok p ->
  CleanAdaptor_verify input label norm_type radius w =
  (Ok (p =? label),
   {| self := self w; ext := ext w;
      log := log w ++ [EvForward (model (self w)) (unsqueeze0 input)] |}).
Proof.
  intros H. unfold CleanAdaptor_verify, clean_prediction. run_monad.
  cbn. rewrite H. reflexivity.
Qed.

(** [PGDAdaptor.verify] when the clean prediction is wrong or the radius
    is zero: the clean check decides, the attack is not run. *)
Lemma PGDAdaptor_verify_no_attack (w : world BasicAdaptor_t) input label radius p :
  np_argmax (forward (model (self w)) (unsqueeze0 input)) = Ok p ->
  p <> label \/ feqb radius zero = true ->
  PGDAdaptor_verify input label "inf" radius w =
  (Ok (p =? label),
   {| self := self w; ext := ext w;
      log := log w ++ [EvForward (model (self w)) (unsqueeze0 input)] |}).
Proof.
  intros H Hc. unfold PGDAdaptor_verify, clean_prediction. run_monad.
  cbn. rewrite H. cbn.
  destruct (p =? label) eqn:Hp; cbn; [|reflexivity].
  destruct Hc as [Hc|Hc]; [apply Z.eqb_eq in Hp; contradiction|].
  rewrite Hc. reflexivity.
Qed.

Lemma PGDAdaptor_verify_not_inf (w : world BasicAdaptor_t) input label norm_type radius :
  norm_type <> "inf"%string ->
  PGDAdaptor_verify input label norm_type radius w = (Raise AssertionError, w).
Proof.
  intros H. apply String.eqb_neq in H.
  unfold PGDAdaptor_verify. unfold bind at 1. rewrite H. reflexivity.
Qed.

End WeakOracles.

(* ================================================================== *)
(** ** The rationals are ordered as the statements need *)

Module MockFacts.
Import Mock.

#[export] Instance QNum_order : NumOrder QNum.
Proof.
  split; cbn.
  - intros a b. now rewrite negb_involutive.
  - intros a b H. apply negb_true_iff in H. apply Qle_bool_iff.
    apply Qlt_le_weak, Qnot_le_lt. intros Hle. apply Qle_bool_iff in Hle. congruence.
  - intros a b c H1 H2. apply Qle_bool_iff in H1, H2. apply Qle_bool_iff.
    eapply Qle_trans; eauto.
Defined.

End MockFacts.

(* ================================================================== *)
(** ** The log of [verify] is a transcript *)

Section TranscriptLemmas.
Context {N : Num} {X : Externals}.

Lemma replay_app (evs1 evs2 : list event) (e : E) :
  replay (evs1 ++ evs2) e = replay evs2 (replay evs1 e).
Proof. apply fold_left_app. Qed.

Lemma transcript_app (evs1 evs2 : list event) :
  forall e, transcript (evs1 ++ evs2) e <->
            transcript evs1 e /\ transcript evs2 (replay evs1 e).
Proof.
  induction evs1 as [|ev evs1 IH]; intros e; cbn; [tauto|].
  rewrite IH. tauto.
Qed.

#[export] Instance traces_preorder S : PreOrder (traces (S := S)).
Proof.
  split.
  - intros w. exists []. cbn. now rewrite app_nil_r.
  - intros w1 w2 w3 (evs & Hl & Ht & He) (evs' & Hl' & Ht' & He').
    exists (evs ++ evs'). split; [rewrite Hl', Hl, app_assoc; reflexivity|].
    split.
    + apply transcript_app. split; [exact Ht|]. rewrite <- He. exact Ht'.
    + rewrite He', He, replay_app. reflexivity.
Qed.

Lemma sat_traces_modify S (f : S -> S) : sat traces (modify_self f).
Proof. intros w. exists []. cbn. now rewrite app_nil_r. Qed.

(** An event that records no call to an engine. *)
Lemma sat_traces_quiet S (ev : event) :
  (forall e, call_effect ev e = e /\ answered ev e) ->
  sat (S := S) traces (emit ev).
Proof.
  intros H w. exists [ev]. cbn. destruct (H (ext w)) as [He Ha].
  rewrite He. auto.
Qed.

(** A call and the event that records it. *)
Lemma sat_traces_do S A (f : E -> E) (ev : event) (k : unit -> M S A) :
  (forall e, call_effect ev e = f e /\ answered ev e) ->
  sat traces (k tt) ->
  sat traces (bind (ext_do f) (fun _ => bind (emit ev) k)).
Proof.
  intros H Hk w.
  change (traces w (snd (k tt {| self := self w; ext := f (ext w);
                                 log := log w ++ [ev] |}))).
  etransitivity; [|apply Hk].
  exists [ev]. cbn. destruct (H (ext w)) as [He Ha]. rewrite He. auto.
Qed.

Lemma pairwise_verify_traces (a : RealAdaptor_t) (label i : Z) :
  sat traces (pairwise_verify a label i).
Proof.
  intros w. unfold pairwise_verify. run_monad.
  destruct (bound a) as [b|]; [|reflexivity]. cbn [self ext log].
  destruct (bound_verify b label i (ext w)) as [ok e'] eqn:Hv.
  assert (H : traces w {| self := self w; ext := e'; log := log w ++ [EvVerify b label i ok] |}).
  { exists [EvVerify b label i ok]. cbn. rewrite Hv. auto. }
  destruct ok; exact H.
Qed.

Lemma milp_solve_pair_traces (a : RealAdaptor_t) (label i : Z) :
  sat traces (milp_solve_pair a label i).
Proof.
  intros w. unfold milp_solve_pair. run_monad.
  destruct (bound a) as [b|]; [|reflexivity]. cbn [self ext log].
  set (e' := prob_solve b (prepare_verify b label i (ext w))).
  assert (H : traces w
    {| self := self w; ext := e';
       log := (log w ++ [EvPrepareVerify b label i]) ++
              [EvSolve b (prob_status b e') (prob_value b e')] |}).
  { exists [EvPrepareVerify b label i; EvSolve b (prob_status b e') (prob_value b e')].
    unfold e'. cbn. rewrite <- app_assoc. repeat split; reflexivity. }
  destruct (negb _); [exact H|].
  destruct (prob_value b e') as [v|]; [|exact H].
  destruct (flt v zero); exact H.
Qed.

Lemma sdp_run_pair_traces (a : RealAdaptor_t) bl bu (label i : Z) :
  sat traces (sdp_run_pair a bl bu label i).
Proof.
  intros w. unfold sdp_run_pair. run_monad.
  destruct (bound a) as [b|]; [|reflexivity]. cbn [self ext log].
  set (e' := sdp_run b bl bu label i (ext w)).
  assert (H : traces w
    {| self := self w; ext := e';
       log := log w ++ [EvRun b bl bu label i (prob_status b e') (prob_value b e')] |}).
  { eexists [_]. unfold e'. cbn. repeat split; reflexivity. }
  destruct (negb _); [exact H|].
  destruct (prob_value b e') as [v|]; [|exact H].
  destruct (flt zero v); exact H.
Qed.

End TranscriptLemmas.

Ltac traces_step :=
  lazymatch goal with
  | |- sat _ (bind (ext_do _) (fun _ => bind (emit _) _)) =>
      apply sat_traces_do; [intro; split; [reflexivity | exact I] | ]
  | |- sat _ (emit _) =>
      apply sat_traces_quiet; intro; split; [reflexivity | exact I]
  | |- sat _ (modify_self _) => apply sat_traces_modify
  | |- sat _ (pairwise_verify _ _ _) => apply pairwise_verify_traces
  | |- sat _ (milp_solve_pair _ _ _) => apply milp_solve_pair_traces
  | |- sat _ (sdp_run_pair _ _ _ _ _) => apply sdp_run_pair_traces
  | _ => sat_step
  end.

Section VerifyTranscript.
Context {N : Num} {X : Externals}.

(** Whatever the instance and the arguments, the log of a [verify] call
    is a transcript of what the call did to the collaborators. *)
Lemma verify_traces input label norm_type radius :
  sat traces (verify input label norm_type radius).
Proof.
  unfold verify, RealAdaptorBase_verify, IBPAdaptor_verify, MILPAdaptor_verify,
    PercySDPAdaptor_verify, RealAdaptorBase_bounds, IBPAdaptor_bounds,
    MILPAdaptor_bounds, PercySDPAdaptor_bounds, init_at_first_time,
    build_new_model, prepare_solver, clean_prediction.
  repeat traces_step.
Qed.

Lemma verify_transcript (w : world RealAdaptor_t) input label norm_type radius evs :
  log (snd (verify input label norm_type radius w)) = log w ++ evs ->
  transcript evs (ext w) /\
  ext (snd (verify input label norm_type radius w)) = replay evs (ext w).
Proof.
  intros H. destruct (verify_traces input label norm_type radius w)
    as (evs' & Hl & Ht & He).
  rewrite Hl in H. apply app_inv_head in H. subst evs'. auto.
Qed.

Lemma run_calls_traces (cs : list call) :
  forall w, traces w (run_calls cs w).
Proof.
  induction cs as [|c cs IH]; intros w; cbn [run_calls]; [reflexivity|].
  etransitivity; [apply verify_traces | apply IH].
Qed.

Lemma run_calls_transcript (cs : list call) (w : world RealAdaptor_t) evs :
  log (run_calls cs w) = log w ++ evs ->
  transcript evs (ext w) /\ ext (run_calls cs w) = replay evs (ext w).
Proof.
  intros H. destruct (run_calls_traces cs w) as (evs' & Hl & Ht & He).
  rewrite Hl in H. apply app_inv_head in H. subst evs'. auto.
Qed.

Lemma flat_map_nil_In A B (f : A -> list B) (l : list A) (x : A) :
  flat_map f l = [] -> In x l -> f x = [].
Proof.
  induction l as [|y l IH]; cbn; [contradiction|].
  intros H [<-|Hin]; apply app_eq_nil in H; destruct H as [H1 H2]; auto.
Qed.

(** Calls that are no engine calls leave the collaborators alone. *)
Lemma replay_quiet (evs : list event) (e : E) :
  Forall (fun ev => is_oracle_call ev = false) evs -> replay evs e = e.
Proof.
  induction 1 as [|ev evs Hev _ IH]; cbn; [reflexivity|].
  destruct ev; cbn in *; try discriminate; exact IH.
Qed.

(** The queries of the class loop go to the adaptor's bound engine. *)
Lemma pair_events_ask (a : RealAdaptor_t) e1 label (evs : list event) :
  Forall (pair_event a e1 label) evs -> Forall (asks a label) evs.
Proof.
  intros H. eapply Forall_impl; [|exact H].
  intros [] Hq; cbn in *; tauto.
Qed.

End VerifyTranscript.

(* ================================================================== *)
(** ** The claims *)

Section Claims.
Context {N : Num} {X : Externals}.

Lemma In_others (label n i : Z) :
  In i (others label (range n)) <-> 0 <= i < n /\ i <> label.
Proof.
  unfold others. rewrite filter_In, In_range, negb_true_iff, Z.eqb_neq. tauto.
Qed.

(** C1.  On a bound-propagation adaptor whose clean prediction is
    [label], [verify(input, label, 'inf', radius)] returns [True] exactly
    when the pairwise oracle was asked about every class other than
    [label] below the class count, in order, and certified each; when it
    returns [False] the loop stopped at the first class whose query did
    not certify, and no later class was asked about.  The queries of the
    log are the calls made: each went to the bound engine of the adaptor
    and was about [label], each recorded answer is the one the engine
    (or the solver) gave in the state the earlier calls had left, and
    the collaborators end in the state reached by the recorded calls and
    no other.  The adaptors built on [bound.verify] always return a
    verdict; the solver adaptors do unless the solver reports "optimal"
    without a value. *)
Theorem pairwise_loop_verdict (w : world RealAdaptor_t) input label radius x0 :
  usable (self w) = true ->
  np_argmax (forward (model (basic (self w))) (unsqueeze0 input)) = Ok label ->
  input_preprocess (model (basic (self w))) input = Ok x0 ->
  let out := verify input label "inf" radius w in
  let cs := range (get_num_classes (dataset (basic (self w)))) in
  exists before evs,
    log (snd out) = log w ++ before ++ evs /\
    queried before = [] /\
    (forall i, In i (others label cs) <->
               0 <= i < get_num_classes (dataset (basic (self w))) /\ i <> label) /\
    (fst out = Ok true <-> all_passed label cs evs) /\
    (fst out = Ok false -> stopped_at label cs evs) /\
    (fst out = Ok true \/ fst out = Ok false \/
     exists x, fst out = Raise x /\ stopped_at label cs evs /\ raised_on evs) /\
    (cls (self w) = FastLinIBPAdaptor \/ cls (self w) = IBPAdaptor ->
     fst out = Ok true \/ fst out = Ok false) /\
    Forall (asks (self (snd out)) label) evs /\
    transcript (before ++ evs) (ext w) /\
    ext (snd out) = replay (before ++ evs) (ext w).
Proof.
  intros Hu Harg Hpre out cs.
  destruct (@verify_run _ _ w input label radius x0 Hu Harg Hpre) as (Hs & evs & Hl & HQ & Ho).
  fold out cs in Hs, Hl, Ho.
  pose proof (@after_init_ready _ _ _ (shape input) Hu) as Hr.
  pose proof (after_init_config (self w) (shape input)) as (Hc & _).
  destruct (@prelude_events_ready _ _ (after_init (self w) (shape input))
              (bounds_input (cls (self w)) x0)
              (fdiv radius (coef (basic (self w)))) (ext w) Hr)
    as (p & _ & _ & Hq2 & _).
  destruct (quiet_events (init_events_quiet (self w) (shape input))) as (_ & Hq1 & _).
  exists (init_events (self w) (shape input) ++
          [EvForward (model (basic (self w))) (unsqueeze0 input)] ++
          prelude_events (after_init (self w) (shape input))
            (bounds_input (cls (self w)) x0)
            (fdiv radius (coef (basic (self w)))) (ext w)), evs.
  assert (Hlog : log (snd out) =
                 log w ++
                 (init_events (self w) (shape input) ++
                  [EvForward (model (basic (self w))) (unsqueeze0 input)] ++
                  prelude_events (after_init (self w) (shape input))
                    (bounds_input (cls (self w)) x0)
                    (fdiv radius (coef (basic (self w)))) (ext w)) ++ evs)
    by (rewrite Hl, <- !app_assoc; reflexivity).
  split; [exact Hlog|].
  split; [rewrite !queried_app, Hq1, Hq2; reflexivity|].
  split; [intros i; apply In_others|].
  assert (Hraise : forall x, fst out = Raise x ->
            stopped_at label cs evs /\ raised_on evs).
  { intros x Hx. rewrite Hx in Ho. exact Ho. }
  split; [|split; [|split; [|split; [|split]]]].
  - split.
    + intros Ht. rewrite Ht in Ho. exact Ho.
    + intros Hall. revert Ho. destruct (fst out) as [[|]|x]; intros Ho;
        [reflexivity| |];
        exfalso; revert Hall; apply stopped_not_all_passed; apply Ho.
  - intros Hf. rewrite Hf in Ho. exact Ho.
  - destruct (fst out) as [[|]|x] eqn:Hout; auto. right. right. exists x.
    split; [reflexivity|]. exact (Hraise x eq_refl).
  - intros Hcls. destruct (fst out) as [[|]|x] eqn:Hout; auto. exfalso.
    destruct (Hraise x eq_refl) as (_ & evs' & ev & -> & Hnv).
    apply Forall_app in HQ. destruct HQ as [_ HQ].
    apply Forall_inv in HQ.
    destruct ev; unfold pair_event, no_value in Hnv, HQ; try contradiction;
      rewrite Hc in HQ; destruct Hcls; intuition congruence.
  - rewrite Hs. exact (pair_events_ask HQ).
  - apply verify_transcript. exact Hlog.
Qed.

End Claims.

Lemma pairwise_loop_verdict_witness :
  let s := Mock.script1 in
  let w := Mock.start s (Mock.fresh s FastLinIBPAdaptor Mock.net_with_norm) in
  let out := verify (X := Mock.externals s) Mock.image2 1 "inf" (1 # 10)%Q w in
  fst out = Ok false /\
  exists before evs,
    log (snd out) = log w ++ before ++ evs /\
    queried before = [] /\
    (forall i, In i (others 1 (range 3)) <-> 0 <= i < 3 /\ i <> 1) /\
    (fst out = Ok true <-> all_passed 1 (range 3) evs) /\
    (fst out = Ok false -> stopped_at 1 (range 3) evs) /\
    (fst out = Ok true \/ fst out = Ok false \/
     exists x, fst out = Raise x /\ stopped_at 1 (range 3) evs /\ raised_on evs) /\
    (FastLinIBPAdaptor = FastLinIBPAdaptor \/ FastLinIBPAdaptor = IBPAdaptor ->
     fst out = Ok true \/ fst out = Ok false) /\
    Forall (asks (self (snd out)) 1) evs /\
    transcript (before ++ evs) (ext w) /\
    ext (snd out) = replay (before ++ evs) (ext w).
Proof.
  split; [vm_compute; reflexivity|].
  apply (@pairwise_loop_verdict Mock.QNum (Mock.externals Mock.script1)
           (Mock.start Mock.script1
              (Mock.fresh Mock.script1 FastLinIBPAdaptor Mock.net_with_norm))
           Mock.image2 1 (1 # 10)%Q
           (Build_tensor (N := Mock.QNum) [2; 1; 2]%nat [2; 1; -1; -2]%Q));
    vm_compute; reflexivity.
Defined.

Section SolverClaims.
Context {N : Num} {O : NumOrder N} {X : Externals}.







End SolverClaims.


Section NormAndCleanClaims.
Context {N : Num} {X : Externals}.

(** C3, amended.  With a [norm_type] other than ['inf'], [verify] of the
    PGD adaptor and of every adaptor deriving from [RealAdaptorBase]
    raises [AssertionError] before doing anything else; the clean
    adaptor does not look at [norm_type] and answers as it does for
    ['inf']. *)
Theorem unsupported_norm_rejected (norm_type : string)
    (wb : world BasicAdaptor_t) (w : world RealAdaptor_t) input label radius :
  norm_type <> "inf"%string ->
  PGDAdaptor_verify input label norm_type radius wb = (Raise AssertionError, wb) /\
  verify input label norm_type radius w = (Raise AssertionError, w) /\
  CleanAdaptor_verify input label norm_type radius wb =
  CleanAdaptor_verify input label "inf" radius wb.
Proof.
  intros H. split; [now apply PGDAdaptor_verify_not_inf|].
  split; [now apply verify_not_inf | reflexivity].
Qed.

(** C4.  When the arg-max of the scores on the unperturbed input is not
    [label], [verify] returns [False]: the clean adaptor and the PGD
    adaptor after the forward pass alone (no attack), the adaptors
    deriving from [RealAdaptorBase] after initialization and the forward
    pass, with no call to [calculate_bound], to the pairwise oracle or
    to the solver. *)
Theorem wrong_clean_prediction_returns_false
    (wb : world BasicAdaptor_t) (w : world RealAdaptor_t)
    input label norm_type radius p p' :
  np_argmax (forward (model (self wb)) (unsqueeze0 input)) = Ok p ->
  p <> label ->
  usable (self w) = true ->
  np_argmax (forward (model (basic (self w))) (unsqueeze0 input)) = Ok p' ->
  p' <> label ->
  let forwarded := {| self := self wb; ext := ext wb;
                      log := log wb ++ [EvForward (model (self wb)) (unsqueeze0 input)] |} in
  let out := verify input label "inf" radius w in
  CleanAdaptor_verify input label norm_type radius wb = (Ok false, forwarded) /\
  PGDAdaptor_verify input label "inf" radius wb = (Ok false, forwarded) /\
  fst out = Ok false /\
  ext (snd out) = ext w /\
  exists evs,
    log (snd out) = log w ++ evs /\
    Forall (fun ev => is_oracle_call ev = false) evs /\
    calc_calls evs = [] /\ queried evs = [].
Proof.
  intros Hp Hne Hu Hp' Hne' forwarded out.
  apply Z.eqb_neq in Hne, Hne'.
  split; [|split].
  - rewrite (@CleanAdaptor_verify_run _ _ wb input label norm_type radius p Hp), Hne.
    reflexivity.
  - rewrite (@PGDAdaptor_verify_no_attack _ _ wb input label radius p Hp), Hne.
    + reflexivity.
    + left. now apply Z.eqb_neq.
  - unfold out. rewrite (@verify_inf _ _ w input label radius Hu). cbv zeta.
    rewrite Hp', Hne'. cbn [fst snd ext log].
    split; [reflexivity|]. split; [reflexivity|].
    eexists. split; [reflexivity|].
    assert (Hq : Forall (fun ev => is_oracle_call ev = false)
                   (init_events (self w) (shape input) ++
                    [EvForward (model (basic (self w))) (unsqueeze0 input)])).
    { apply Forall_app. split; [apply init_events_quiet | repeat constructor]. }
    split; [exact Hq|]. destruct (quiet_events Hq) as (H1 & H2 & _). now split.
Qed.

End NormAndCleanClaims.

Lemma unsupported_norm_rejected_witness :
  let s := Mock.script1 in
  let wb := Mock.start s (Mock.fresh_basic Mock.plain_net) in
  let w := Mock.start s (Mock.fresh s IBPAdaptor Mock.plain_net) in
  "l2"%string <> "inf"%string /\
  PGDAdaptor_verify (X := Mock.externals s) Mock.image1 1 "l2" (1 # 10)%Q wb
  = (Raise AssertionError, wb) /\
  verify (X := Mock.externals s) Mock.image1 1 "l2" (1 # 10)%Q w
  = (Raise AssertionError, w).
Proof.
  split; [discriminate|].
  pose proof (@unsupported_norm_rejected Mock.QNum (Mock.externals Mock.script1) "l2"
                (Mock.start Mock.script1 (Mock.fresh_basic Mock.plain_net))
                (Mock.start Mock.script1
                   (Mock.fresh Mock.script1 IBPAdaptor Mock.plain_net))
                Mock.image1 1 (1 # 10)%Q ltac:(discriminate)) as H.
  split; [exact (proj1 H) | exact (proj1 (proj2 H))].
Defined.

(** The clean adaptor accepts a norm other than ['inf']: with ['l2'] it
    returns the verdict of the clean check. *)
Lemma clean_adaptor_accepts_any_norm :
  let s := Mock.script1 in
  let wb := Mock.start s (Mock.fresh_basic Mock.plain_net) in
  "l2"%string <> "inf"%string /\
  fst (CleanAdaptor_verify (X := Mock.externals s) Mock.image1 1 "l2" (1 # 10)%Q wb)
  = Ok true /\
  ~ (exists e,
       fst (CleanAdaptor_verify (X := Mock.externals s) Mock.image1 1 "l2" (1 # 10)%Q wb)
       = Raise e).
Proof.
  split; [discriminate|]. split; [vm_compute; reflexivity|].
  intros [e He]. vm_compute in He. discriminate.
Qed.

Lemma wrong_clean_prediction_returns_false_witness :
  let s := Mock.script_all in
  let w := Mock.start s (Mock.fresh s MILPAdaptor Mock.net_with_norm) in
  let out := verify (X := Mock.externals s) Mock.image2 2 "inf" (1 # 10)%Q w in
  fst out = Ok false /\
  exists evs,
    log (snd out) = log w ++ evs /\
    Forall (fun ev => is_oracle_call ev = false) evs /\
    calc_calls evs = [] /\ queried evs = [].
Proof.
  pose proof (@wrong_clean_prediction_returns_false Mock.QNum
                (Mock.externals Mock.script_all)
                (Mock.start Mock.script_all (Mock.fresh_basic Mock.net_with_norm))
                (Mock.start Mock.script_all
                   (Mock.fresh Mock.script_all MILPAdaptor Mock.net_with_norm))
                Mock.image2 2 "inf" (1 # 10)%Q 1 1
                eq_refl ltac:(discriminate) eq_refl eq_refl ltac:(discriminate)) as H.
  split; [exact (proj1 (proj2 (proj2 H))) | exact (proj2 (proj2 (proj2 (proj2 H))))].
Defined.

Section ConstructionClaims.
Context {N : Num} {O : NumOrder N} {X : Externals}.

Lemma BasicAdaptor_init_coef ds (m : list layer) (b : BasicAdaptor_t) :
  BasicAdaptor_init ds m = Ok b ->
  model b = m /\ dataset b = ds /\
  match m with
  | NormalizeLayer nl :: _ => py_min (orig_sds nl) = Ok (coef b)
  | _ => coef b = one
  end.
Proof.
  unfold BasicAdaptor_init. destruct m as [|[nl|sub|k] rest]; cbn; try discriminate.
  - destruct (py_min (orig_sds nl)) as [c|]; cbn; [|discriminate].
    intros [= <-]. auto.
  - intros [= <-]. auto.
  - intros [= <-]. auto.
Qed.

Lemma RealAdaptorBase_init_basic c ds (m : list layer) (a : RealAdaptor_t) :
  RealAdaptorBase_init c ds m = Ok a ->
  BasicAdaptor_init ds m = Ok (basic a) /\ cls a = c /\
  new_model a = None /\ bound a = None /\ prebound a = None.
Proof.
  unfold RealAdaptorBase_init.
  destruct (BasicAdaptor_init ds m) as [b|]; cbn; [|discriminate].
  destruct (getitem m 0) as [l|]; cbn; [|discriminate].
  match goal with |- rbind ?r _ = _ -> _ => destruct r as [[lo hi]|] end; cbn;
    [|discriminate].
  intros [= <-]. cbn. auto.
Qed.

(** C5.  The constructor sets [coef] to [min(orig_sds)] of a leading
    [NormalizeLayer] (an entry of [orig_sds] below all others) and to
    [1.0] otherwise; a [verify] call leaves [coef] as it is; and a
    bound-propagation [verify] that reaches the bound computation calls
    [calculate_bound] once, with the radius [radius / coef], on the
    engine the adaptor computes bounds with.  That call is made, not
    only recorded: the log is a transcript of the state the
    collaborators end in. *)
Theorem coef_fixed_and_scales_radius c ds (m : list layer)
    (a : RealAdaptor_t) (w : world RealAdaptor_t) input label radius x0 :
  RealAdaptorBase_init c ds m = Ok a ->
  basic (self w) = basic a ->
  usable (self w) = true ->
  np_argmax (forward (model (basic (self w))) (unsqueeze0 input)) = Ok label ->
  input_preprocess (model (basic (self w))) input = Ok x0 ->
  let out := verify input label "inf" radius w in
  match m with
  | NormalizeLayer nl :: _ =>
      py_min (orig_sds nl) = Ok (coef (basic a)) /\
      In (coef (basic a)) (orig_sds nl) /\
      forall s, In s (orig_sds nl) -> fle (coef (basic a)) s = true
  | _ => coef (basic a) = one
  end /\
  (forall w' input' label' norm_type' radius',
     coef (basic (self (snd (verify input' label' norm_type' radius' w')))) =
     coef (basic (self w'))) /\
  exists evs p,
    log (snd out) = log w ++ evs /\
    calc_calls evs = [(p, bounds_input (cls (self w)) x0,
                       fdiv radius (coef (basic a)))] /\
    calc_oracle (self (snd out)) = Some p /\
    transcript evs (ext w) /\
    ext (snd out) = replay evs (ext w).
Proof.
  intros Hinit Hb Hu Harg Hpre out.
  destruct (RealAdaptorBase_init_basic _ _ _ Hinit) as (Hbi & _).
  destruct (BasicAdaptor_init_coef _ _ Hbi) as (_ & _ & Hcoef).
  split; [|split].
  - destruct m as [|[nl|sub|k] rest]; try exact Hcoef.
    split; [exact Hcoef|]. now apply py_min_least.
  - intros w' input' label' norm_type' radius'.
    destruct (verify_keeps_config input' label' norm_type' radius' w')
      as (_ & -> & _). reflexivity.
  - destruct (@verify_run _ _ w input label radius x0 Hu Harg Hpre)
      as (Hs & evs & Hl & HQ & Ho).
    fold out in Hs, Hl, Ho.
    pose proof (@after_init_ready _ _ _ (shape input) Hu) as Hr.
    destruct (@prelude_events_ready _ _ (after_init (self w) (shape input))
                (bounds_input (cls (self w)) x0)
                (fdiv radius (coef (basic (self w)))) (ext w) Hr)
      as (p & Hp & Hc2 & _).
    destruct (quiet_events (init_events_quiet (self w) (shape input)))
      as (Hc1 & _).
    eexists. exists p. split; [exact Hl|].
    split; [rewrite !calc_calls_app, Hc1, Hc2, (pair_events_no_calc HQ), Hb;
            reflexivity|].
    split; [rewrite Hs; exact Hp|].
    apply verify_transcript. exact Hl.
Qed.

End ConstructionClaims.

Lemma coef_fixed_and_scales_radius_witness :
  let s := Mock.script1 in
  let a := Mock.fresh s FastLinIBPAdaptor Mock.net_with_norm in
  let w := Mock.start s a in
  let out := verify (X := Mock.externals s) Mock.image2 1 "inf" (1 # 10)%Q w in
  RealAdaptorBase_init (X := Mock.externals s) FastLinIBPAdaptor "cifar10"
    Mock.net_with_norm = Ok a /\
  coef (basic a) = (1 # 5)%Q /\
  exists evs p,
    log (snd out) = log w ++ evs /\
    calc_calls evs =
      [(p, view_flat (Build_tensor (N := Mock.QNum) [2; 1; 2]%nat [2; 1; -1; -2]%Q),
        (1 # 2)%Q)] /\
    calc_oracle (self (snd out)) = Some p /\
    transcript evs (ext w) /\
    ext (snd out) = replay evs (ext w).
Proof.
  split; [reflexivity|]. split; [reflexivity|].
  pose proof (@coef_fixed_and_scales_radius Mock.QNum MockFacts.QNum_order
                (Mock.externals Mock.script1) FastLinIBPAdaptor "cifar10"
                Mock.net_with_norm
                (Mock.fresh Mock.script1 FastLinIBPAdaptor Mock.net_with_norm)
                (Mock.start Mock.script1
                   (Mock.fresh Mock.script1 FastLinIBPAdaptor Mock.net_with_norm))
                Mock.image2 1 (1 # 10)%Q
                (Build_tensor (N := Mock.QNum) [2; 1; 2]%nat [2; 1; -1; -2]%Q)
                eq_refl eq_refl eq_refl eq_refl eq_refl) as H.
  exact (proj2 (proj2 H)).
Defined.

Section IntervalClaim.
Context {N : Num} {O : NumOrder N} {X : Externals}.

(** C6.  Behind a [NormalizeLayer] the constructor sets [in_min] to
    [0.0 - max(orig_means)] divided by [min(orig_sds)] when that
    difference is [<= 0] and by [max(orig_sds)] otherwise, and [in_max]
    to [1.0 - min(orig_means)] divided by [max(orig_sds)] when that
    difference is [<= 0] and by [min(orig_sds)] otherwise, [min] and
    [max] being the least and greatest entries; without the layer the
    pair is [0.0], [1.0]; and [verify] leaves both as they are. *)
Theorem input_interval c ds (m : list layer) (a : RealAdaptor_t) :
  RealAdaptorBase_init c ds m = Ok a ->
  match m with
  | NormalizeLayer nl :: _ =>
      exists mx mn smin smax,
        py_max (orig_means nl) = Ok mx /\ py_min (orig_means nl) = Ok mn /\
        py_min (orig_sds nl) = Ok smin /\ py_max (orig_sds nl) = Ok smax /\
        (forall x, In x (orig_means nl) -> fle mn x = true /\ fle x mx = true) /\
        (forall x, In x (orig_sds nl) -> fle smin x = true /\ fle x smax = true) /\
        in_min a = fdiv (fsub zero mx)
                        (if fle (fsub zero mx) zero then smin else smax) /\
        in_max a = fdiv (fsub one mn)
                        (if fle (fsub one mn) zero then smax else smin)
  | _ => in_min a = zero /\ in_max a = one
  end /\
  (forall w input label norm_type radius,
     in_min (self (snd (verify input label norm_type radius w))) = in_min (self w) /\
     in_max (self (snd (verify input label norm_type radius w))) = in_max (self w)).
Proof.
  intros Hinit. split.
  - revert Hinit. unfold RealAdaptorBase_init, BasicAdaptor_init.
    destruct m as [|[nl|sub|k] rest]; cbn; try discriminate;
      try (intros [= <-]; cbn; auto).
    destruct (py_min (orig_sds nl)) as [smin|] eqn:Hsmin; cbn; [|discriminate].
    destruct (py_max (orig_means nl)) as [mx|] eqn:Hmx; cbn; [|discriminate].
    destruct (py_min (orig_means nl)) as [mn|] eqn:Hmn; cbn; [|discriminate].
    destruct (py_max_some (py_min_nonempty Hsmin)) as [smax Hsmax].
    rewrite Hsmax.
    intros Ha. exists mx, mn, smin, smax.
    repeat (split; [reflexivity|]).
    split; [intros x Hx; split;
              [apply py_min_least in Hmn; now apply Hmn
              | apply py_max_greatest in Hmx; now apply Hmx]|].
    split; [intros x Hx; split;
              [apply py_min_least in Hsmin; now apply Hsmin
              | apply py_max_greatest in Hsmax; now apply Hsmax]|].
    unfold py_truediv in Ha.
    destruct (fle (fsub zero mx) zero), (fle (fsub one mn) zero);
      cbn in Ha;
      repeat match type of Ha with
             | context [if feqb ?s zero then _ else _] =>
                 destruct (feqb s zero); cbn in Ha
             end;
      try discriminate; injection Ha as <-; cbn; auto.
  - intros w input label norm_type radius.
    destruct (verify_keeps_config input label norm_type radius w)
      as (_ & _ & H1 & H2). auto.
Qed.

End IntervalClaim.

Lemma input_interval_witness :
  let s := Mock.script1 in
  let a := Mock.fresh s IBPAdaptor Mock.net_with_norm in
  RealAdaptorBase_init (X := Mock.externals s) IBPAdaptor "cifar10"
    Mock.net_with_norm = Ok a /\
  in_min a = (-5 # 2)%Q /\ in_max a = 3%Q /\
  exists mx mn smin smax : Q,
    py_max (N := Mock.QNum) (orig_means Mock.norm_layer) = Ok mx /\
    py_min (N := Mock.QNum) (orig_means Mock.norm_layer) = Ok mn /\
    py_min (N := Mock.QNum) (orig_sds Mock.norm_layer) = Ok smin /\
    py_max (N := Mock.QNum) (orig_sds Mock.norm_layer) = Ok smax /\
    in_min a = Qred (Qred (0 - mx) / (if Qle_bool (Qred (0 - mx)) 0 then smin else smax)) /\
    in_max a = Qred (Qred (1 - mn) / (if Qle_bool (Qred (1 - mn)) 0 then smax else smin)).
Proof.
  split; [reflexivity|]. split; [reflexivity|]. split; [reflexivity|].
  pose proof (proj1 (@input_interval Mock.QNum MockFacts.QNum_order
                (Mock.externals Mock.script1) IBPAdaptor "cifar10"
                Mock.net_with_norm
                (Mock.fresh Mock.script1 IBPAdaptor Mock.net_with_norm) eq_refl)) as H.
  cbv beta iota in H.
  destruct H as (mx & mn & smin & smax & H1 & H2 & H3 & H4 & _ & _ & H5 & H6).
  exists mx, mn, smin, smax. repeat split; assumption.
Defined.

Section PreprocessClaim.
Context {N : Num} {X : Externals}.

(** C7, amended.  A bound-propagation [verify] that reaches the bound
    computation calls [calculate_bound] once, on the input taken
    through the normalization map of a leading [NormalizeLayer] (every
    entry minus the mean of its channel, over the channel's standard
    deviation; the input itself without such a layer).  The adaptors
    using [RealAdaptorBase.verify], the MILP and the SDP adaptor pass it
    flattened to one dimension; the IBP adaptor passes it with its three
    dimensions.  The call goes to the engine the adaptor computes
    bounds with, and it is made as recorded: the log is a transcript of
    the state the collaborators end in. *)
Theorem calculate_bound_receives_preprocessed_input
    (w : world RealAdaptor_t) input label radius (c height width : nat) :
  usable (self w) = true ->
  np_argmax (forward (model (basic (self w))) (unsqueeze0 input)) = Ok label ->
  shape input = [c; height; width] ->
  length (data input) = (c * (height * width))%nat ->
  (forall nl rest, model (basic (self w)) = NormalizeLayer nl :: rest ->
                   length (means nl) = c /\ length (sds nl) = c) ->
  let out := verify input label "inf" radius w in
  exists x0 xin evs p,
    input_preprocess (model (basic (self w))) input = Ok x0 /\
    shape x0 = [c; height; width] /\
    match model (basic (self w)) with
    | NormalizeLayer nl :: _ =>
        forall k q, (k < c)%nat -> (q < height * width)%nat ->
          nth (k * (height * width) + q) (data x0) zero =
          fdiv (fsub (nth (k * (height * width) + q) (data input) zero)
                     (nth k (means nl) zero))
               (nth k (sds nl) zero)
    | _ => x0 = input
    end /\
    log (snd out) = log w ++ evs /\
    calc_calls evs = [(p, xin, fdiv radius (coef (basic (self w))))] /\
    data xin = data x0 /\
    shape xin = match cls (self w) with
                | IBPAdaptor => [c; height; width]
                | _ => [(c * (height * width))%nat]
                end /\
    calc_oracle (self (snd out)) = Some p /\
    transcript evs (ext w) /\
    ext (snd out) = replay evs (ext w).
Proof.
  intros Hu Harg Hs Hlen Hnl out.
  assert (Hpre : exists x0,
             input_preprocess (model (basic (self w))) input = Ok x0 /\
             shape x0 = [c; height; width] /\
             length (data x0) = (c * (height * width))%nat /\
             match model (basic (self w)) with
             | NormalizeLayer nl :: _ =>
                 forall k q, (k < c)%nat -> (q < height * width)%nat ->
                   nth (k * (height * width) + q) (data x0) zero =
                   fdiv (fsub (nth (k * (height * width) + q) (data input) zero)
                              (nth k (means nl) zero))
                        (nth k (sds nl) zero)
             | _ => x0 = input
             end).
  { assert (Hwf : wf_model (model (basic (self w))) = true).
    { unfold usable in Hu. rewrite !andb_true_iff in Hu. tauto. }
    destruct (model (basic (self w))) as [|[nl|sub|k] rest] eqn:Hm; [discriminate| | |].
    - destruct (Hnl nl rest eq_refl) as [Hmn Hsd].
      eexists. split; [apply (@input_preprocess_normalize _ nl rest input _ _ _ Hs Hmn Hsd)|].
      split; [reflexivity|]. split.
      + cbn [data]. rewrite !length_map2, !length_channelwise. lia.
      + intros k q Hk Hq.
        apply (@input_preprocess_entry _ nl rest input _ _ _ _ k q Hs Hlen Hmn Hsd
                 (@input_preprocess_normalize _ nl rest input _ _ _ Hs Hmn Hsd) Hk Hq).
    - exists input.
      split; [now apply (@input_preprocess_plain _ _ rest input c height width)|auto].
    - exists input.
      split; [now apply (@input_preprocess_plain _ _ rest input c height width)|auto]. }
  destruct Hpre as (x0 & Hpre & Hsx & Hlx & Hentry).
  destruct (@verify_run _ _ w input label radius x0 Hu Harg Hpre)
    as (Hself & evs & Hl & HQ & _).
  fold out in Hself, Hl.
  pose proof (@after_init_ready _ _ _ (shape input) Hu) as Hr.
  destruct (@prelude_events_ready _ _ (after_init (self w) (shape input))
              (bounds_input (cls (self w)) x0)
              (fdiv radius (coef (basic (self w)))) (ext w) Hr)
    as (p & Hp & Hc2 & _).
  destruct (quiet_events (init_events_quiet (self w) (shape input))) as (Hc1 & _).
  exists x0, (bounds_input (cls (self w)) x0). eexists. exists p.
  split; [exact Hpre|]. split; [exact Hsx|]. split; [exact Hentry|].
  split; [exact Hl|]. split; [|split; [|split; [|split]]].
  - rewrite !calc_calls_app, Hc1, Hc2, (pair_events_no_calc HQ). reflexivity.
  - unfold bounds_input. destruct (cls (self w)); cbn; auto.
  - unfold bounds_input. destruct (cls (self w)); cbn; rewrite ?Hlx; auto.
  - rewrite Hself. exact Hp.
  - apply verify_transcript. exact Hl.
Qed.

End PreprocessClaim.

Lemma calculate_bound_receives_preprocessed_input_witness :
  let s := Mock.script_all in
  let w := Mock.start s (Mock.fresh s PercySDPAdaptor Mock.net_with_norm) in
  let out := verify (X := Mock.externals s) Mock.image2 1 "inf" (1 # 10)%Q w in
  usable (self w) = true /\
  exists x0 xin evs p,
    input_preprocess (model (basic (self w))) Mock.image2 = Ok x0 /\
    log (snd out) = log w ++ evs /\
    calc_calls evs = [(p, xin, (1 # 2)%Q)] /\
    data xin = data x0 /\ shape xin = [4%nat] /\
    calc_oracle (self (snd out)) = Some p /\
    transcript evs (ext w) /\
    ext (snd out) = replay evs (ext w).
Proof.
  split; [reflexivity|].
  destruct (@calculate_bound_receives_preprocessed_input Mock.QNum
              (Mock.externals Mock.script_all)
              (Mock.start Mock.script_all
                 (Mock.fresh Mock.script_all PercySDPAdaptor Mock.net_with_norm))
              Mock.image2 1 (1 # 10)%Q 2%nat 1%nat 2%nat
              eq_refl eq_refl eq_refl eq_refl
              ltac:(intros nl rest [= <- <-]; split; reflexivity))
    as (x0 & xin & evs & p & H1 & _ & _ & H2 & H3 & H4 & H5 & H6 & H7 & H8).
  exists x0, xin, evs, p.
  split; [exact H1|]. split; [exact H2|]. split; [exact H3|]. split; [exact H4|].
  split; [exact H5|]. split; [exact H6|]. split; [exact H7 | exact H8].
Defined.

(** The IBP adaptor hands [calculate_bound] a tensor of three dimensions,
    not a flattened one. *)
Lemma ibp_input_not_flattened :
  let s := Mock.script_all in
  let w := Mock.start s (Mock.fresh s IBPAdaptor Mock.net_with_norm) in
  let out := verify (X := Mock.externals s) Mock.image2 1 "inf" (1 # 10)%Q w in
  fst out = Ok true /\
  exists p x r,
    calc_calls (log (snd out)) = [(p, x, r)] /\
    shape x = [2; 1; 2]%nat /\ length (shape x) <> 1%nat.
Proof.
  split; [vm_compute; reflexivity|].
  eexists _, _, _. split; [vm_compute; reflexivity|].
  split; [reflexivity | discriminate].
Qed.

Section LifecycleClaim.
Context {N : Num} {X : Externals}.

Lemma class_bounds_no_init c (a : RealAdaptor_t) input label radius :
  sat (emits (fun ev => is_init_event ev = false))
      (class_bounds c a input label radius).
Proof.
  unfold class_bounds, RealAdaptorBase_bounds, IBPAdaptor_bounds,
    MILPAdaptor_bounds, PercySDPAdaptor_bounds, pairwise_verify,
    milp_solve_pair, sdp_run_pair.
  destruct c; repeat emits_step; reflexivity.
Qed.

Lemma no_init_events (evs : list event) :
  Forall (fun ev => is_init_event ev = false) evs ->
  materializations evs = [] /\ engines_built evs = [].
Proof.
  intros H. split; apply flat_map_nil; eapply Forall_impl; try exact H;
    intros [] Hq; simpl in *; try reflexivity; discriminate.
Qed.

(** C8, amended.  On an uninitialized instance of a bound-propagation
    class a [verify] call with the supported norm builds each engine of
    the class once and materializes the model once (one
    [model_transform]); the IBP adaptor calls no [model_transform] and
    keeps the torch model as [new_model].  The call leaves the instance
    ready with only [new_model], [bound] and [prebound] assigned;
    whatever calls follow on the instance, they leave the attributes of
    the adaptor as they are and neither materialize a model nor build an
    engine.  The attributes are not all the state there is: the first
    call and the later ones change the state of the engines and of the
    solver, by exactly the calls the log records. *)
Theorem initialized_once (w : world RealAdaptor_t) input label radius
    (later : list call) :
  usable (self w) = true ->
  uninitialized (self w) = true ->
  let w1 := snd (verify input label "inf" radius w) in
  let w2 := run_calls later w1 in
  ready (self w1) = true /\
  same_config (self w) (self w1) /\
  is_some (new_model (self w1)) = true /\
  (cls (self w) = IBPAdaptor ->
   new_model (self w1) = Some (TorchModel _ (target (model (basic (self w)))))) /\
  (exists evs,
     log w1 = log w ++ evs /\
     materializations evs =
       match cls (self w) with
       | IBPAdaptor => []
       | _ => [(target (model (basic (self w))), shape input)]
       end /\
     map Some (engines_built evs) =
       match cls (self w) with
       | MILPAdaptor | PercySDPAdaptor => [prebound (self w1)]
       | _ => []
       end ++ [bound (self w1)] /\
     transcript evs (ext w) /\
     ext w1 = replay evs (ext w)) /\
  self w2 = self w1 /\
  (exists evs,
     log w2 = log w1 ++ evs /\
     Forall (fun ev => is_init_event ev = false) evs /\
     materializations evs = [] /\ engines_built evs = [] /\
     transcript evs (ext w1) /\
     ext w2 = replay evs (ext w1)).
Proof.
  intros Hu Hun w1 w2.
  pose proof (@after_init_ready _ _ _ (shape input) Hu) as Hr.
  pose proof (after_init_config (self w) (shape input)) as Hcfg.
  assert (H1 : self w1 = after_init (self w) (shape input) /\
               exists rest, log w1 = log w ++ init_events (self w) (shape input) ++ rest /\
                            Forall (fun ev => is_init_event ev = false) rest).
  { unfold w1. rewrite (@verify_inf _ _ w input label radius Hu). cbv zeta.
    destruct (np_argmax _) as [p|x]; cbn [snd self log].
    - destruct (p =? label); cbn [snd self log].
      + match goal with |- context [class_bounds ?c ?a ?i ?l ?r ?w0] =>
          destruct (class_bounds_no_init c a i l r w0) as (Hs & evs & Hl & HQ)
        end.
        split; [exact Hs|]. eexists (_ :: evs). rewrite Hl. cbn [log].
        split; [rewrite <- !app_assoc; reflexivity|]. constructor; [reflexivity|exact HQ].
      + split; [reflexivity|]. eexists [_]. split; [reflexivity|].
        repeat constructor.
    - split; [reflexivity|]. eexists [_]. split; [reflexivity|].
      repeat constructor. }
  destruct H1 as (Hs1 & rest & Hl1 & Hrest).
  assert (Hr1 : ready (self w1) = true) by (rewrite Hs1; exact Hr).
  split; [exact Hr1|]. split; [rewrite Hs1; exact Hcfg|].
  split. { unfold ready in Hr1. rewrite !andb_true_iff in Hr1. tauto. }
  split.
  { intros Hibp. rewrite Hs1. unfold after_init, uninitialized, built_model in *.
    destruct (new_model (self w)); [discriminate|]. cbn. rewrite Hibp. reflexivity. }
  split.
  - eexists. split; [exact Hl1|].
    destruct (no_init_events Hrest) as [Hm He].
    split; [|split].
    + unfold materializations in *.
      rewrite !flat_map_app, Hm, !app_nil_r.
      unfold init_events, uninitialized in *.
      destruct (new_model (self w)); [discriminate|].
      destruct (cls (self w)); cbn; auto.
    + unfold engines_built in *.
      rewrite !flat_map_app, He, !app_nil_r, Hs1.
      unfold init_events, after_init, uninitialized in *.
      destruct (new_model (self w)); [discriminate|].
      unfold built_prebound, built_bound. destruct (cls (self w)); cbn; auto.
    + exact (@verify_transcript _ _ w input label "inf"%string radius _ Hl1).
  - destruct (run_calls_ready later w1 Hr1) as (Hs2 & evs & Hl2 & HQ).
    fold w2 in Hs2, Hl2. split; [exact Hs2|]. exists evs.
    split; [exact Hl2|]. split; [exact HQ|].
    destruct (no_init_events HQ) as [Hm He].
    split; [exact Hm|]. split; [exact He|].
    exact (@run_calls_transcript _ _ later w1 _ Hl2).
Qed.

End LifecycleClaim.

Lemma initialized_once_witness :
  let s := Mock.script1 in
  let w := Mock.start s (Mock.fresh s MILPAdaptor Mock.plain_net) in
  let w1 := snd (verify (X := Mock.externals s) Mock.image1 1 "inf" (1 # 10)%Q w) in
  let later := [ {| c_input := Mock.image1; c_label := 1; c_norm_type := "inf";
                    c_radius := (1 # 20)%Q |};
                 {| c_input := Mock.image1; c_label := 0; c_norm_type := "l2";
                    c_radius := (1 # 10)%Q |} ] in
  let w2 := run_calls (X := Mock.externals s) later w1 in
  usable (self w) = true /\ uninitialized (self w) = true /\
  ready (self w1) = true /\ self w2 = self w1 /\
  engines_built (log w2) = [Mock.prebound_engine; Mock.milp_engine] /\
  materializations (log w2) = [(Mock.plain_net, [1; 1; 2]%nat)] /\
  exists evs, log w2 = log w1 ++ evs /\ ext w2 = replay evs (ext w1).
Proof.
  split; [reflexivity|]. split; [reflexivity|].
  pose proof (@initialized_once Mock.QNum (Mock.externals Mock.script1)
                (Mock.start Mock.script1
                   (Mock.fresh Mock.script1 MILPAdaptor Mock.plain_net))
                Mock.image1 1 (1 # 10)%Q
                [ {| c_input := Mock.image1; c_label := 1; c_norm_type := "inf";
                     c_radius := (1 # 20)%Q |};
                  {| c_input := Mock.image1; c_label := 0; c_norm_type := "l2";
                     c_radius := (1 # 10)%Q |} ]
                eq_refl eq_refl) as H.
  split; [exact (proj1 H)|].
  destruct H as (_ & _ & _ & _ & _ & Hs & evs & Hl & _ & _ & _ & _ & He).
  split; [exact Hs|].
  split; [vm_compute; reflexivity|]. split; [vm_compute; reflexivity|].
  exists evs. split; [exact Hl | exact He].
Defined.

(** After the instance is initialized a later call still changes state:
    the second call leaves the adaptor as it is but takes the engine to
    another state.  And the IBP adaptor becomes ready without any
    [model_transform]. *)
Lemma later_calls_change_engine_state :
  let s := Mock.script_all in
  let w := Mock.start s (Mock.fresh s FastLinIBPAdaptor Mock.plain_net) in
  let w1 := snd (verify (X := Mock.externals s) Mock.image1 0 "inf" (1 # 10)%Q w) in
  let w2 := snd (verify (X := Mock.externals s) Mock.image1 1 "inf" (1 # 10)%Q w1) in
  let wi := snd (verify (X := Mock.externals s) Mock.image1 1 "inf" (1 # 10)%Q
                   (Mock.start s (Mock.fresh s IBPAdaptor Mock.plain_net))) in
  ready (self w1) = true /\ self w2 = self w1 /\
  ext w1 = ext w /\ ext w2 <> ext w1 /\
  ready (self wi) = true /\ materializations (log wi) = [].
Proof.
  split; [vm_compute; reflexivity|]. split; [vm_compute; reflexivity|].
  split; [vm_compute; reflexivity|]. split; [vm_compute; discriminate|].
  split; vm_compute; reflexivity.
Qed.

Section ZeroRadiusClaim.
Context {N : Num} {X : Externals}.

(** C9, amended.  At radius zero the clean adaptor and the PGD adaptor
    return the verdict of the clean check alone, the PGD adaptor without
    running the attack.  The adaptors deriving from [RealAdaptorBase]
    have no such shortcut: they return [False] when the clean prediction
    is not [label], and otherwise compute bounds at radius [0 / coef] and
    return [True] exactly when every pairwise query passes.  These
    calls are made as recorded: [calculate_bound] and the queries go to
    the adaptor's engines, every recorded answer is the collaborator's,
    and the collaborators end in the state the recorded calls lead
    to. *)
Theorem zero_radius (wb : world BasicAdaptor_t) (w : world RealAdaptor_t)
    input label norm_type radius p p' x0 :
  feqb radius zero = true ->
  np_argmax (forward (model (self wb)) (unsqueeze0 input)) = Ok p ->
  usable (self w) = true ->
  np_argmax (forward (model (basic (self w))) (unsqueeze0 input)) = Ok p' ->
  input_preprocess (model (basic (self w))) input = Ok x0 ->
  let forwarded := {| self := self wb; ext := ext wb;
                      log := log wb ++ [EvForward (model (self wb)) (unsqueeze0 input)] |} in
  let out := verify input label "inf" radius w in
  let cs := range (get_num_classes (dataset (basic (self w)))) in
  CleanAdaptor_verify input label norm_type radius wb = (Ok (p =? label), forwarded) /\
  PGDAdaptor_verify input label "inf" radius wb = (Ok (p =? label), forwarded) /\
  (p' <> label -> fst out = Ok false) /\
  (p' = label ->
   exists before evs o,
     log (snd out) = log w ++ before ++ evs /\
     calc_calls before = [(o, bounds_input (cls (self w)) x0,
                           fdiv radius (coef (basic (self w))))] /\
     queried before = [] /\
     (fst out = Ok true <-> all_passed label cs evs) /\
     calc_oracle (self (snd out)) = Some o /\
     Forall (asks (self (snd out)) label) evs /\
     transcript (before ++ evs) (ext w) /\
     ext (snd out) = replay (before ++ evs) (ext w)).
Proof.
  intros Hz Hp Hu Hp' Hpre forwarded out cs.
  split; [now apply CleanAdaptor_verify_run|].
  split; [apply PGDAdaptor_verify_no_attack; auto|].
  split.
  - intros Hne. apply Z.eqb_neq in Hne. unfold out.
    rewrite (@verify_inf _ _ w input label radius Hu). cbv zeta.
    rewrite Hp', Hne. reflexivity.
  - intros ->.
    destruct (@verify_run _ _ w input label radius x0 Hu Hp' Hpre)
      as (Hs & evs & Hl & HQ & Ho).
    fold out cs in Hs, Hl, Ho.
    pose proof (@after_init_ready _ _ _ (shape input) Hu) as Hr.
    destruct (@prelude_events_ready _ _ (after_init (self w) (shape input))
                (bounds_input (cls (self w)) x0)
                (fdiv radius (coef (basic (self w)))) (ext w) Hr)
      as (o & Ho' & Hc2 & Hq2 & _).
    destruct (quiet_events (init_events_quiet (self w) (shape input)))
      as (Hc1 & Hq1 & _).
    exists (init_events (self w) (shape input) ++
            [EvForward (model (basic (self w))) (unsqueeze0 input)] ++
            prelude_events (after_init (self w) (shape input))
              (bounds_input (cls (self w)) x0)
              (fdiv radius (coef (basic (self w)))) (ext w)), evs, o.
    assert (Hlog : log (snd out) =
                   log w ++
                   (init_events (self w) (shape input) ++
                    [EvForward (model (basic (self w))) (unsqueeze0 input)] ++
                    prelude_events (after_init (self w) (shape input))
                      (bounds_input (cls (self w)) x0)
                      (fdiv radius (coef (basic (self w)))) (ext w)) ++ evs)
      by (rewrite Hl, <- !app_assoc; reflexivity).
    split; [exact Hlog|].
    split; [rewrite !calc_calls_app, Hc1, Hc2; reflexivity|].
    split; [rewrite !queried_app, Hq1, Hq2; reflexivity|].
    split; [|split; [|split]].
    + split.
      * intros Ht. rewrite Ht in Ho. exact Ho.
      * intros Hall. revert Ho. destruct (fst out) as [[|]|x]; intros Ho;
          [reflexivity| |];
          exfalso; revert Hall; apply stopped_not_all_passed; apply Ho.
    + rewrite Hs. exact Ho'.
    + rewrite Hs. exact (pair_events_ask HQ).
    + apply verify_transcript. exact Hlog.
Qed.

End ZeroRadiusClaim.

Lemma zero_radius_witness :
  let s := Mock.script1 in
  let wb := Mock.start s (Mock.fresh_basic Mock.net_with_norm) in
  let w := Mock.start s (Mock.fresh s FastLinIBPAdaptor Mock.net_with_norm) in
  let out := verify (X := Mock.externals s) Mock.image2 1 "inf" 0%Q w in
  fst (CleanAdaptor_verify (X := Mock.externals s) Mock.image2 1 "inf" 0%Q wb) = Ok true /\
  PGDAdaptor_verify (X := Mock.externals s) Mock.image2 1 "inf" 0%Q wb =
  (Ok true,
   {| self := self wb; ext := ext wb;
      log := [EvForward (model (self wb)) (unsqueeze0 Mock.image2)] |}) /\
  exists before evs o,
    log (snd out) = log w ++ before ++ evs /\
    (fst out = Ok true <-> all_passed 1 (range 3) evs) /\
    calc_oracle (self (snd out)) = Some o /\
    Forall (asks (self (snd out)) 1) evs /\
    transcript (before ++ evs) (ext w) /\
    ext (snd out) = replay (before ++ evs) (ext w).
Proof.
  pose proof (@zero_radius Mock.QNum (Mock.externals Mock.script1)
                (Mock.start Mock.script1 (Mock.fresh_basic Mock.net_with_norm))
                (Mock.start Mock.script1
                   (Mock.fresh Mock.script1 FastLinIBPAdaptor Mock.net_with_norm))
                Mock.image2 1 "inf" 0%Q 1 1
                (Build_tensor (N := Mock.QNum) [2; 1; 2]%nat [2; 1; -1; -2]%Q)
                eq_refl eq_refl eq_refl eq_refl eq_refl) as H.
  split; [exact (f_equal fst (proj1 H))|]. split; [exact (proj1 (proj2 H))|].
  destruct (proj2 (proj2 (proj2 H)) eq_refl)
    as (before & evs & o & H1 & _ & _ & H2 & H3 & H4 & H5 & H6).
  exists before, evs, o.
  split; [exact H1|]. split; [exact H2|]. split; [exact H3|].
  split; [exact H4|]. split; [exact H5 | exact H6].
Defined.

(** At radius zero with a correct clean prediction, an adaptor built on
    [RealAdaptorBase.verify] still asks the pairwise oracle and returns
    [False] when it does not certify. *)
Lemma zero_radius_is_no_shortcut_for_bounds :
  let s := Mock.script1 in
  let wb := Mock.start s (Mock.fresh_basic Mock.net_with_norm) in
  let w := Mock.start s (Mock.fresh s FastLinIBPAdaptor Mock.net_with_norm) in
  fst (CleanAdaptor_verify (X := Mock.externals s) Mock.image2 1 "inf" 0%Q wb) = Ok true /\
  fst (verify (X := Mock.externals s) Mock.image2 1 "inf" 0%Q w) = Ok false /\
  queried (log (snd (verify (X := Mock.externals s) Mock.image2 1 "inf" 0%Q w))) = [0; 2].
Proof. repeat split; vm_compute; reflexivity. Qed.

Section ClampClaim.
Context {N : Num} {O : NumOrder N} {X : Externals}.

Lemma quiet_not_run (evs : list event) b bl bu l i st v :
  Forall (fun ev => is_oracle_call ev = false) evs ->
  ~ In (EvRun b bl bu l i st v) evs.
Proof.
  intros H Hin. rewrite Forall_forall in H. specialize (H _ Hin). discriminate.
Qed.

(** C10.  In [PercySDPAdaptor.verify] every [run] of the SDP is given
    the pre-bounds of the pre-bound engine, read after its
    [calculate_bound], clamped: the lists keep their length, the entry
    for layer 0 is passed as it is, and in the entry for every layer
    [i > 0] each value is [np.maximum(x, 0)] of the pre-bound [x], which
    is [x] itself when [x >= 0] and [0] otherwise.  The runs recorded
    are the runs made: each goes to the bound engine of the adaptor, its
    recorded status and value are the solver's, and the collaborators
    end in the state the recorded calls lead to. *)
Theorem sdp_receives_clamped_bounds (w : world RealAdaptor_t)
    input label radius x0 :
  usable (self w) = true ->
  cls (self w) = PercySDPAdaptor ->
  np_argmax (forward (model (basic (self w))) (unsqueeze0 input)) = Ok label ->
  input_preprocess (model (basic (self w))) input = Ok x0 ->
  let out := verify input label "inf" radius w in
  exists p evs,
    prebound (self (snd out)) = Some p /\
    log (snd out) = log w ++ evs /\
    let e1 := calculate_bound p (view_flat x0)
                (fdiv radius (coef (basic (self w)))) (ext w) in
    (forall b bl bu l i st v,
       In (EvRun b bl bu l i st v) evs ->
       bound (self (snd out)) = Some b /\
       bl = clamp_bounds (bound_l p e1) /\ bu = clamp_bounds (bound_u p e1)) /\
    transcript evs (ext w) /\
    ext (snd out) = replay evs (ext w) /\
    (forall ll : list (list F),
       length (clamp_bounds ll) = length ll /\
       nth 0 (clamp_bounds ll) [] = nth 0 ll [] /\
       forall i, (0 < i < length ll)%nat ->
         nth i (clamp_bounds ll) [] =
           map (fun x => np_maximum x zero) (nth i ll []) /\
         Forall (fun x => fle zero x = true) (nth i (clamp_bounds ll) []) /\
         forall j, (j < length (nth i ll []))%nat ->
           nth j (nth i (clamp_bounds ll) []) zero =
           if fle zero (nth j (nth i ll []) zero)
           then nth j (nth i ll []) zero else zero).
Proof.
  intros Hu Hcls Harg Hpre out.
  destruct (@verify_run _ _ w input label radius x0 Hu Harg Hpre)
    as (Hs & evs & Hl & HQ & _).
  fold out in Hs, Hl.
  pose proof (@after_init_ready _ _ _ (shape input) Hu) as Hr.
  pose proof (after_init_config (self w) (shape input)) as (Hc & _).
  set (a1 := after_init (self w) (shape input)) in *.
  rewrite Hcls in Hc.
  assert (Hpb : exists p b, prebound a1 = Some p /\ bound a1 = Some b).
  { unfold ready in Hr. rewrite Hc, !andb_true_iff in Hr.
    destruct (prebound a1) as [p|], (bound a1) as [b|]; cbn in Hr;
      try (exfalso; intuition discriminate). eauto. }
  destruct Hpb as (p & b0 & Hp & Hb).
  exists p. eexists. split; [rewrite Hs; exact Hp|]. split; [exact Hl|].
  cbv zeta. split; [|split; [|split]].
  - intros b bl bu l i st v Hin.
    apply in_app_or in Hin. destruct Hin as [Hin|Hin].
    { exfalso. revert Hin. apply quiet_not_run, init_events_quiet. }
    apply in_app_or in Hin. destruct Hin as [[Hin|[]]|Hin]; [discriminate|].
    apply in_app_or in Hin. destruct Hin as [Hin|Hin].
    { exfalso. revert Hin. unfold prelude_events, calc_oracle.
      rewrite Hc, Hp, Hb. cbn. intros [Hin|[]]. discriminate. }
    rewrite Forall_forall in HQ. specialize (HQ _ Hin). cbn in HQ.
    destruct HQ as (Hbd & _ & _ & p' & Hp' & -> & ->).
    rewrite Hp in Hp'. injection Hp' as <-.
    split; [rewrite Hs; exact Hbd|].
    unfold prelude_ext, calc_oracle. rewrite Hc, Hp, Hb, Hcls. cbn. auto.
  - exact (proj1 (@verify_transcript _ _ w input label "inf"%string radius _ Hl)).
  - exact (proj2 (@verify_transcript _ _ w input label "inf"%string radius _ Hl)).
  - intros ll. split; [apply length_clamp_bounds|]. split.
    + destruct ll as [|l0 ll]; [reflexivity|].
      rewrite nth_clamp_bounds by (cbn; lia). reflexivity.
    + intros i Hi. rewrite nth_clamp_bounds by lia.
      replace (0 <? i)%nat with true by (symmetry; apply Nat.ltb_lt; lia).
      split; [reflexivity|]. split.
      * unfold np_maximum0. apply Forall_map.
        apply Forall_forall. intros x _. apply np_maximum_zero.
      * intros j Hj. unfold np_maximum0.
        rewrite (nth_indep _ zero (np_maximum zero zero))
          by (rewrite length_map; exact Hj).
        rewrite (map_nth (fun x => np_maximum x zero)).
        destruct (np_maximum_zero (nth j (nth i ll []) zero)) as (_ & Hk & Hz).
        destruct (fle zero (nth j (nth i ll []) zero)); auto.
Qed.

End ClampClaim.

Lemma sdp_receives_clamped_bounds_witness :
  let s := Mock.script_all in
  let w := Mock.start s (Mock.fresh s PercySDPAdaptor Mock.plain_net) in
  let out := verify (X := Mock.externals s) Mock.image1 1 "inf" (1 # 10)%Q w in
  usable (self w) = true /\
  queried (log (snd out)) = [0; 2] /\
  Mock.pre_l s = [[-1; 1 # 2]; [-2; 3]; [0; -(1 # 3)]]%Q /\
  Mock.pre_u s = [[-(1 # 2); 1]; [-1; 4]; [1; -(1 # 4)]]%Q /\
  exists p evs,
    prebound (self (snd out)) = Some p /\
    log (snd out) = log w ++ evs /\
    (forall b bl bu l i st v,
       In (EvRun b bl bu l i st v) evs ->
       bound (self (snd out)) = Some b /\
       bl = [[-1; 1 # 2]; [0; 3]; [0; 0]]%Q /\
       bu = [[-(1 # 2); 1]; [0; 4]; [1; 0]]%Q) /\
    transcript evs (ext w) /\
    ext (snd out) = replay evs (ext w).
Proof.
  split; [reflexivity|]. split; [vm_compute; reflexivity|].
  split; [reflexivity|]. split; [reflexivity|].
  destruct (@sdp_receives_clamped_bounds Mock.QNum MockFacts.QNum_order
              (Mock.externals Mock.script_all)
              (Mock.start Mock.script_all
                 (Mock.fresh Mock.script_all PercySDPAdaptor Mock.plain_net))
              Mock.image1 1 (1 # 10)%Q Mock.image1
              eq_refl eq_refl eq_refl eq_refl)
    as (p & evs & H1 & H2 & H3 & H4 & H5 & _).
  exists p, evs. split; [exact H1|]. split; [exact H2|].
  split; [|split; [exact H4 | exact H5]].
  intros b bl bu l i st v Hin.
  destruct (H3 b bl bu l i st v Hin) as (Hb & -> & ->).
  split; [exact Hb|]. split; vm_compute; reflexivity.
Defined.

(* ================================================================== *)
(** ** Further properties: construction and the life of an instance *)

Section ConstructionProperties.
Context {N : Num} {X : Externals}.

(** X1.  The outcome of the constructor, model by model.  Over an empty
    model it raises [IndexError]; over a model whose first layer is no
    [NormalizeLayer] it succeeds; over a leading [NormalizeLayer] it
    raises [ValueError] when [orig_sds] or [orig_means] is empty,
    [ZeroDivisionError] when the standard deviation that [in_min] or
    [in_max] is divided by equals [0.0], and succeeds otherwise.  The
    instance it builds holds the class, the dataset and the model it was
    given and is uninitialized; it is usable when the class is concrete
    and the model well-formed. *)
Theorem constructor_outcome (c : real_class) (ds : string) (m : list layer) :
  (m = [] -> RealAdaptorBase_init c ds m = Raise IndexError) /\
  (forall l rest, m = l :: rest -> isinstance_NormalizeLayer l = false ->
     exists a, RealAdaptorBase_init c ds m = Ok a) /\
  (forall nl rest, m = NormalizeLayer nl :: rest ->
     (orig_sds nl = [] \/ orig_means nl = [] ->
      RealAdaptorBase_init c ds m = Raise ValueError) /\
     (forall mx mn smin smax,
        py_max (orig_means nl) = Ok mx -> py_min (orig_means nl) = Ok mn ->
        py_min (orig_sds nl) = Ok smin -> py_max (orig_sds nl) = Ok smax ->
        let d_min := if fle (fsub zero mx) zero then smin else smax in
        let d_max := if fle (fsub one mn) zero then smax else smin in
        if feqb d_min zero || feqb d_max zero
        then RealAdaptorBase_init c ds m = Raise ZeroDivisionError
        else exists a, RealAdaptorBase_init c ds m = Ok a)) /\
  (forall a, RealAdaptorBase_init c ds m = Ok a ->
     cls a = c /\ dataset (basic a) = ds /\ model (basic a) = m /\
     uninitialized a = true /\ bound a = None /\ prebound a = None /\
     (concrete c = true -> wf_model m = true -> usable a = true)).
Proof.
  split; [intros ->; reflexivity|].
  split.
  { intros l rest -> Hl. unfold RealAdaptorBase_init, BasicAdaptor_init.
    destruct l; [discriminate| |]; cbn; eauto. }
  split.
  { intros nl rest ->. unfold RealAdaptorBase_init, BasicAdaptor_init. cbn. split.
    - intros [H|H]; rewrite H; cbn; [reflexivity|].
      destruct (orig_sds nl); reflexivity.
    - intros mx mn smin smax Hmx Hmn Hsmin Hsmax. cbv zeta.
      rewrite Hsmin. cbn. rewrite Hmx. cbn. rewrite Hmn. cbn.
      unfold py_truediv.
      destruct (fle (fsub zero mx) zero), (fle (fsub one mn) zero);
        rewrite ?Hsmin, ?Hsmax; cbn;
        repeat match goal with
               | |- context [feqb ?s zero] => destruct (feqb s zero); cbn
               end; eauto. }
  intros a Ha.
  destruct (RealAdaptorBase_init_basic _ _ _ Ha) as (Hb & Hc & Hn & Hbd & Hpb).
  destruct (BasicAdaptor_init_coef _ _ Hb) as (Hm & Hd & _).
  unfold usable, uninitialized. rewrite Hn, Hc, Hm. cbn.
  repeat split; auto. intros -> ->. reflexivity.
Qed.

End ConstructionProperties.

Lemma constructor_outcome_witness :
  RealAdaptorBase_init (X := Mock.externals Mock.script1) MILPAdaptor "cifar10"
    [NormalizeLayer MockMore.empty_norm_layer; OtherLayer 0] = Raise ValueError /\
  RealAdaptorBase_init (X := Mock.externals Mock.script1) MILPAdaptor "cifar10"
    [NormalizeLayer MockMore.zero_sd_layer; OtherLayer 0] = Raise ZeroDivisionError /\
  usable (Mock.fresh Mock.script1 MILPAdaptor Mock.net_with_norm) = true.
Proof.
  pose proof (@constructor_outcome Mock.QNum (Mock.externals Mock.script1)
                MILPAdaptor "cifar10"
                [NormalizeLayer MockMore.empty_norm_layer; OtherLayer 0]) as H1.
  pose proof (@constructor_outcome Mock.QNum (Mock.externals Mock.script1)
                MILPAdaptor "cifar10"
                [NormalizeLayer MockMore.zero_sd_layer; OtherLayer 0]) as H0.
  pose proof (@constructor_outcome Mock.QNum (Mock.externals Mock.script1)
                MILPAdaptor "cifar10" Mock.net_with_norm) as H2.
  split; [|split].
  - apply (proj1 (proj1 (proj2 (proj2 H1)) _ _ eq_refl)). left. reflexivity.
  - exact (proj2 (proj1 (proj2 (proj2 H0)) _ _ eq_refl)
             (1 # 2)%Q (1 # 2)%Q 0%Q (1 # 4)%Q eq_refl eq_refl eq_refl eq_refl).
  - apply (proj2 (proj2 (proj2 H2)) _ eq_refl); reflexivity.
Defined.

Section LifecycleProperties.
Context {N : Num} {X : Externals}.

(** The adaptor a call with the supported norm leaves, whatever its
    outcome. *)
Lemma verify_inf_self (w : world RealAdaptor_t) input label radius :
  usable (self w) = true ->
  self (snd (verify input label "inf" radius w)) = after_init (self w) (shape input).
Proof.
  intros Hu. rewrite (@verify_inf _ _ w input label radius Hu). cbv zeta.
  destruct (np_argmax _) as [p|x]; cbn [snd self]; [|reflexivity].
  destruct (p =? label); cbn [snd self]; [|reflexivity].
  match goal with |- context [class_bounds ?c ?a ?i ?l ?r ?w0] =>
    destruct (class_bounds_no_init c a i l r w0) as (Hs & _)
  end.
  exact Hs.
Qed.

Lemma usable_after_init (a : RealAdaptor_t) in_shape :
  usable a = true -> usable (after_init a in_shape) = true.
Proof.
  intros Hu. pose proof (@after_init_ready _ _ a in_shape Hu) as Hr.
  destruct (after_init_config a in_shape) as (Hc & Hb & _).
  unfold usable in *. rewrite Hc, Hb, Hr, orb_true_r.
  rewrite !andb_true_iff in Hu. destruct Hu as [[-> ->] _]. reflexivity.
Qed.

Lemma verify_usable (w : world RealAdaptor_t) input label norm_type radius :
  usable (self w) = true ->
  usable (self (snd (verify input label norm_type radius w))) = true /\
  (norm_type = "inf"%string ->
   ready (self (snd (verify input label norm_type radius w))) = true).
Proof.
  intros Hu. destruct (string_dec norm_type "inf") as [->|Hn].
  - rewrite verify_inf_self by exact Hu. split; [now apply usable_after_init|].
    intros _. now apply after_init_ready.
  - rewrite verify_not_inf by exact Hn. split; [exact Hu | contradiction].
Qed.

(** X2.  Usability is kept by every call: whatever sequence of [verify]
    calls is made on a usable instance (any inputs, labels, norms and
    radii, whatever they return or raise), the instance stays usable and
    keeps its class, dataset, model, [coef], [in_min] and [in_max]; once
    a call with norm ['inf'] has been made it is ready, and stays so. *)
Theorem usable_is_invariant (w : world RealAdaptor_t) (calls : list call) :
  usable (self w) = true ->
  usable (self (run_calls calls w)) = true /\
  same_config (self w) (self (run_calls calls w)) /\
  (ready (self w) = true \/ Exists (fun c => c_norm_type c = "inf"%string) calls ->
   ready (self (run_calls calls w)) = true).
Proof.
  revert w. induction calls as [|c calls IH]; intros w Hu; cbn [run_calls].
  - split; [exact Hu|]. split; [unfold same_config; tauto|].
    intros [Hr|Hex]; [exact Hr | inversion Hex].
  - destruct (@verify_usable w (c_input c) (c_label c) (c_norm_type c) (c_radius c) Hu)
      as [Hu1 Hr1].
    pose proof (verify_keeps_config (c_input c) (c_label c) (c_norm_type c)
                  (c_radius c) w) as Hk.
    set (w1 := snd (verify (c_input c) (c_label c) (c_norm_type c) (c_radius c) w))
      in *.
    destruct (IH w1 Hu1) as (Hu2 & Hk2 & Hr2).
    split; [exact Hu2|]. split.
    + unfold keeps_config, same_config in *.
      destruct Hk as (a1 & a2 & a3 & a4), Hk2 as (b1 & b2 & b3 & b4).
      repeat split; congruence.
    + intros Hor. apply Hr2.
      destruct Hor as [Hr|Hex].
      * left.
        destruct (@verify_when_ready _ _ (c_input c) (c_label c) (c_norm_type c)
                    (c_radius c) w Hr) as [Hs _].
        fold w1 in Hs. rewrite Hs. exact Hr.
      * inversion Hex as [? ? Hc|? ? Hc]; subst.
        -- left. now apply Hr1.
        -- right. exact Hc.
Qed.

End LifecycleProperties.

Lemma usable_is_invariant_witness :
  let s := Mock.script1 in
  let w := Mock.start s (Mock.fresh s PercySDPAdaptor Mock.plain_net) in
  let calls := [ {| c_input := Mock.image1; c_label := 0; c_norm_type := "l2";
                    c_radius := (1 # 10)%Q |};
                 {| c_input := MockMore.vector4; c_label := 1; c_norm_type := "inf";
                    c_radius := (1 # 10)%Q |};
                 {| c_input := Mock.image1; c_label := 1; c_norm_type := "inf";
                    c_radius := (1 # 10)%Q |} ] in
  usable (self w) = true /\
  usable (self (run_calls (X := Mock.externals s) calls w)) = true /\
  ready (self (run_calls (X := Mock.externals s) calls w)) = true.
Proof.
  split; [reflexivity|].
  pose proof (@usable_is_invariant Mock.QNum (Mock.externals Mock.script1)
                (Mock.start Mock.script1
                   (Mock.fresh Mock.script1 PercySDPAdaptor Mock.plain_net))
                [ {| c_input := Mock.image1; c_label := 0; c_norm_type := "l2";
                     c_radius := (1 # 10)%Q |};
                  {| c_input := MockMore.vector4; c_label := 1; c_norm_type := "inf";
                     c_radius := (1 # 10)%Q |};
                  {| c_input := Mock.image1; c_label := 1; c_norm_type := "inf";
                     c_radius := (1 # 10)%Q |} ]
                eq_refl) as H.
  split; [exact (proj1 H)|].
  apply (proj2 (proj2 H)). right. apply Exists_cons_tl, Exists_cons_hd. reflexivity.
Defined.

Section InitializationProperties.
Context {N : Num} {X : Externals}.

(** X3.  On an uninitialized instance of a concrete class initialization
    is all or nothing: over a well-formed model a call with norm ['inf']
    leaves the instance ready whatever the call returns or raises; over a
    model that is empty or is a single [NormalizeLayer] the call raises
    [IndexError] having printed the start message only, and the instance
    is left exactly as it was, so that the next call tries again. *)
Theorem initialization_is_all_or_nothing (w : world RealAdaptor_t)
    input label radius :
  concrete (cls (self w)) = true ->
  uninitialized (self w) = true ->
  let out := verify input label "inf" radius w in
  (wf_model (model (basic (self w))) = true -> ready (self (snd out)) = true) /\
  (wf_model (model (basic (self w))) = false ->
   out = (Raise IndexError,
          {| self := self w; ext := ext w;
             log := log w ++
               [EvPrint ("Init model for " ++ class_name (cls (self w)) ++ "...")] |})).
Proof.
  intros Hc Hun out. split.
  - intros Hwf. unfold out. rewrite verify_inf_self.
    + apply after_init_ready. unfold usable. now rewrite Hc, Hwf, Hun.
    + unfold usable. now rewrite Hc, Hwf, Hun.
  - unfold out. clear out.
    destruct w as [[c [ds m cf] nm imin imax bd pb] e l].
    unfold uninitialized in Hun. cbn in Hc, Hun |- *.
    destruct nm; [discriminate|]. intros Hwf.
    destruct m as [|[nl|sub|k] [|l1 rest]]; try discriminate;
      destruct c; try discriminate;
      unfold verify, RealAdaptorBase_verify, IBPAdaptor_verify, MILPAdaptor_verify,
        PercySDPAdaptor_verify, init_at_first_time, build_new_model, prepare_solver;
      run_monad; cbn; reflexivity.
Qed.

(** X4.  The base class itself cannot verify.  On an uninitialized
    [RealAdaptorBase] instance over a well-formed model a call with norm
    ['inf'] materializes the model, assigns [new_model] and then raises
    [NotImplementedError] from [prepare_solver], leaving [bound] unset;
    the next call therefore skips initialization and, when the clean
    prediction is [label] and the input preprocesses, raises
    [AttributeError] at [self.bound.calculate_bound]. *)
Theorem base_class_cannot_verify (w : world RealAdaptor_t)
    input label radius input2 label2 radius2 x2 :
  cls (self w) = RealAdaptorBase ->
  uninitialized (self w) = true ->
  bound (self w) = None ->
  wf_model (model (basic (self w))) = true ->
  np_argmax (forward (model (basic (self w))) (unsqueeze0 input2)) = Ok label2 ->
  input_preprocess (model (basic (self w))) input2 = Ok x2 ->
  let out1 := verify input label "inf" radius w in
  let out2 := verify input2 label2 "inf" radius2 (snd out1) in
  out1 = (Raise NotImplementedError,
          {| self := set_new_model (self w)
                       (Some (Materialized
                                (model_transform (target (model (basic (self w))))
                                   (shape input))));
             ext := ext w;
             log := log w ++
               [EvPrint "Init model for RealAdaptorBase...";
                EvModelTransform (target (model (basic (self w)))) (shape input)] |}) /\
  out2 = (Raise AttributeError,
          {| self := self (snd out1); ext := ext w;
             log := log (snd out1) ++
               [EvForward (model (basic (self w))) (unsqueeze0 input2)] |}).
Proof.
  intros Hc Hun Hb Hwf Harg Hpre out1 out2.
  assert (H1 : out1 =
    (Raise NotImplementedError,
     {| self := set_new_model (self w)
                  (Some (Materialized
                           (model_transform (target (model (basic (self w))))
                              (shape input))));
        ext := ext w;
        log := log w ++
          [EvPrint "Init model for RealAdaptorBase...";
           EvModelTransform (target (model (basic (self w)))) (shape input)] |})).
  { unfold out1. clear out1 out2 Harg Hpre.
    destruct w as [[c [ds m cf] nm imin imax bd pb] e l].
    unfold uninitialized in Hun. cbn in Hc, Hun, Hb, Hwf |- *. subst c bd.
    destruct nm; [discriminate|].
    destruct m as [|[nl|sub|k] [|[nl2|sub2|k2] rest]]; try discriminate;
      unfold verify, RealAdaptorBase_verify, init_at_first_time, build_new_model,
        prepare_solver, set_new_model;
      run_monad; cbn; rewrite <- ?app_assoc; reflexivity. }
  split; [exact H1|].
  unfold out2. rewrite H1. cbn [snd self ext log].
  unfold verify. unfold bind at 1, get_self at 1. cbn [self set_new_model cls].
  rewrite Hc.
  unfold RealAdaptorBase_verify, init_at_first_time, clean_prediction,
    RealAdaptorBase_bounds.
  run_monad. cbn [self ext log set_new_model cls basic new_model bound
                  String.eqb Ascii.eqb Bool.eqb].
  cbv beta iota. cbn [self ext log set_new_model cls basic new_model bound].
  rewrite Harg, Z.eqb_refl. cbn [negb]. rewrite Hpre, Hb. reflexivity.
Qed.

End InitializationProperties.

Lemma initialization_is_all_or_nothing_witness :
  let s := Mock.script1 in
  let w := Mock.start s (Mock.fresh s MILPAdaptor MockMore.norm_only) in
  let out := verify (X := Mock.externals s) Mock.image2 1 "inf" (1 # 10)%Q w in
  concrete (cls (self w)) = true /\ uninitialized (self w) = true /\
  fst out = Raise IndexError /\ self (snd out) = self w.
Proof.
  split; [reflexivity|]. split; [reflexivity|].
  pose proof (proj2 (@initialization_is_all_or_nothing Mock.QNum
                (Mock.externals Mock.script1)
                (Mock.start Mock.script1
                   (Mock.fresh Mock.script1 MILPAdaptor MockMore.norm_only))
                Mock.image2 1 (1 # 10)%Q eq_refl eq_refl) eq_refl) as H.
  split; [exact (f_equal fst H) | exact (f_equal (fun o => self (snd o)) H)].
Defined.

Lemma base_class_cannot_verify_witness :
  let s := Mock.script1 in
  let w := Mock.start s (Mock.fresh s RealAdaptorBase Mock.plain_net) in
  let out1 := verify (X := Mock.externals s) Mock.image1 1 "inf" (1 # 10)%Q w in
  let out2 := verify (X := Mock.externals s) Mock.image1 1 "inf" (1 # 10)%Q (snd out1) in
  fst out1 = Raise NotImplementedError /\ fst out2 = Raise AttributeError.
Proof.
  pose proof (@base_class_cannot_verify Mock.QNum (Mock.externals Mock.script1)
                (Mock.start Mock.script1
                   (Mock.fresh Mock.script1 RealAdaptorBase Mock.plain_net))
                Mock.image1 1 (1 # 10)%Q Mock.image1 1 (1 # 10)%Q Mock.image1
                eq_refl eq_refl eq_refl eq_refl eq_refl eq_refl) as H.
  split; [exact (f_equal fst (proj1 H)) | exact (f_equal fst (proj2 H))].
Defined.

Section EngineProperties.
Context {N : Num} {X : Externals}.

Lemma after_init_calc_engine (a : RealAdaptor_t) in_shape p :
  uninitialized a = true ->
  calc_oracle (after_init a in_shape) = Some p ->
  engine_shape p = in_shape /\ engine_interval p = Some (in_min a, in_max a).
Proof.
  unfold uninitialized, after_init, calc_oracle.
  destruct (new_model a); [discriminate|]. intros _.
  unfold built_bound, built_prebound. cbn [cls bound prebound].
  destruct (cls a); cbn; intros [= <-]; cbn; auto.
Qed.

Lemma after_init_bound_engine (a : RealAdaptor_t) in_shape b :
  uninitialized a = true ->
  bound (after_init a in_shape) = Some b ->
  engine_shape b = in_shape.
Proof.
  unfold uninitialized, after_init.
  destruct (new_model a); [discriminate|]. intros _.
  unfold built_bound. cbn [cls bound].
  destruct (cls a); cbn; intros [= <-]; reflexivity.
Qed.

(** X5.  The engines are built for the shape of the input of the first
    call and with the interval computed at construction, and no later
    call rebuilds them: after a first call with norm ['inf'] on an
    uninitialized usable instance, a second call on an input of any
    shape whose clean prediction is [label2] and which preprocesses
    hands its input to [calculate_bound] of the engine the adaptor holds,
    which was built for the shape of the first input, and leaves the
    adaptor as it is.  The call is made as recorded: the log of the
    second call is a transcript of the state the collaborators end
    in. *)
Theorem engines_keep_the_first_shape (w : world RealAdaptor_t)
    input label radius input2 label2 radius2 x2 :
  usable (self w) = true ->
  uninitialized (self w) = true ->
  np_argmax (forward (model (basic (self w))) (unsqueeze0 input2)) = Ok label2 ->
  input_preprocess (model (basic (self w))) input2 = Ok x2 ->
  let w1 := snd (verify input label "inf" radius w) in
  let out2 := verify input2 label2 "inf" radius2 w1 in
  exists p b evs,
    bound (self w1) = Some b /\
    engine_shape b = shape input /\
    log (snd out2) = log w1 ++ evs /\
    calc_calls evs = [(p, bounds_input (cls (self w)) x2,
                       fdiv radius2 (coef (basic (self w))))] /\
    engine_shape p = shape input /\
    (engine_interval p = Some (in_min (self w), in_max (self w))) /\
    engines_built evs = [] /\
    calc_oracle (self w1) = Some p /\
    self (snd out2) = self w1 /\
    transcript evs (ext w1) /\
    ext (snd out2) = replay evs (ext w1).
Proof.
  intros Hu Hun Harg Hpre w1 out2.
  assert (Hs1 : self w1 = after_init (self w) (shape input))
    by (apply verify_inf_self; exact Hu).
  pose proof (@after_init_ready _ _ _ (shape input) Hu) as Hr.
  pose proof (@usable_after_init _ _ _ (shape input) Hu) as Hu1.
  destruct (after_init_config (self w) (shape input)) as (Hc & Hb & _).
  rewrite <- Hs1 in Hr, Hu1, Hc, Hb.
  destruct (@after_init_of_ready _ _ _ (shape input2) Hr) as [Hai Hie].
  rewrite <- Hb in Harg, Hpre.
  destruct (@verify_run _ _ w1 input2 label2 radius2 x2 Hu1 Harg Hpre)
    as (_ & evs & Hl & HQ & _).
  fold out2 in Hl. rewrite Hai, Hie, Hc, Hb in Hl. cbn [app] in Hl.
  destruct (@prelude_events_ready _ _ (self w1) (bounds_input (cls (self w)) x2)
              (fdiv radius2 (coef (basic (self w)))) (ext w1) Hr)
    as (p & Hp & Hc2 & _).
  assert (Hbd : exists b, bound (self w1) = Some b).
  { unfold ready in Hr. rewrite !andb_true_iff in Hr.
    destruct (bound (self w1)) as [b|]; [eauto|]. destruct Hr as [[_ Hr] _].
    discriminate. }
  destruct Hbd as [b Hbd].
  destruct (@verify_when_ready _ _ input2 label2 "inf"%string radius2 w1 Hr)
    as (Hself2 & evs' & Hl' & HQ').
  fold out2 in Hl', Hself2.
  pose proof (@verify_transcript _ _ w1 input2 label2 "inf"%string radius2 _ Hl')
    as [Htr Hext].
  fold out2 in Hext.
  assert (Hp' := Hp). assert (Hbd' := Hbd). rewrite Hs1 in Hp', Hbd'.
  destruct (@after_init_calc_engine _ _ _ Hun Hp') as [Hsp Hip].
  pose proof (@after_init_bound_engine _ _ _ Hun Hbd') as Hsb.
  exists p, b, evs'. split; [exact Hbd|]. split; [exact Hsb|].
  split; [exact Hl'|].
  rewrite Hl in Hl'. apply app_inv_head in Hl'. subst evs'.
  split.
  - change (calc_calls ([EvForward (model (basic (self w))) (unsqueeze0 input2)] ++
                        prelude_events (self w1) (bounds_input (cls (self w)) x2)
                          (fdiv radius2 (coef (basic (self w)))) (ext w1) ++ evs)
            = [(p, bounds_input (cls (self w)) x2,
                fdiv radius2 (coef (basic (self w))))]).
    rewrite !calc_calls_app, Hc2, (pair_events_no_calc HQ). reflexivity.
  - split; [exact Hsp|]. split; [exact Hip|].
    split; [apply (no_init_events HQ')|].
    split; [exact Hp|]. split; [exact Hself2|]. split; [exact Htr | exact Hext].
Qed.

End EngineProperties.

Lemma engines_keep_the_first_shape_witness :
  let s := Mock.script_all in
  let w := Mock.start s (Mock.fresh s FastLinIBPAdaptor Mock.plain_net) in
  let w1 := snd (verify (X := Mock.externals s) Mock.image1 1 "inf" (1 # 10)%Q w) in
  let out2 := verify (X := Mock.externals s) MockMore.image1_wide 1 "inf" (1 # 10)%Q w1 in
  usable (self w) = true /\ uninitialized (self w) = true /\
  shape MockMore.image1_wide <> shape Mock.image1 /\
  exists p evs,
    log (snd out2) = log w1 ++ evs /\
    calc_calls evs = [(p, view_flat MockMore.image1_wide, (1 # 10)%Q)] /\
    engine_shape p = [1; 1; 2]%nat /\
    calc_oracle (self w1) = Some p /\
    self (snd out2) = self w1 /\
    transcript evs (ext w1) /\
    ext (snd out2) = replay evs (ext w1).
Proof.
  split; [reflexivity|]. split; [reflexivity|]. split; [discriminate|].
  destruct (@engines_keep_the_first_shape Mock.QNum (Mock.externals Mock.script_all)
              (Mock.start Mock.script_all
                 (Mock.fresh Mock.script_all FastLinIBPAdaptor Mock.plain_net))
              Mock.image1 1 (1 # 10)%Q MockMore.image1_wide 1 (1 # 10)%Q
              MockMore.image1_wide eq_refl eq_refl eq_refl eq_refl)
    as (p & b & evs & _ & _ & H1 & H2 & H3 & _ & _ & H4 & H5 & H6 & H7).
  exists p, evs.
  split; [exact H1|]. split; [exact H2|]. split; [exact H3|].
  split; [exact H4|]. split; [exact H5|]. split; [exact H6 | exact H7].
Defined.

(* ================================================================== *)
(** ** Further properties: the class loop *)

Section QueryProperties.
Context {N : Num} {X : Externals}.

Lemma nth_range (n : Z) (i : nat) :
  (i < length (range n))%nat -> nth i (range n) 0 = Z.of_nat i.
Proof.
  unfold range. rewrite length_map, length_seq. intros Hi.
  rewrite (nth_indep _ 0 (Z.of_nat 0)) by (rewrite length_map, length_seq; exact Hi).
  rewrite map_nth, seq_nth by exact Hi. reflexivity.
Qed.

Lemma length_range (n : Z) : length (range n) = Z.to_nat n.
Proof. unfold range. now rewrite length_map, length_seq. Qed.

(** A prefix of [range n] followed by its next element is a [range]. *)
Lemma range_prefix (n k : Z) (pre post : list Z) :
  range n = pre ++ k :: post ->
  0 <= k < n /\ pre = range k /\ pre ++ [k] = range (k + 1).
Proof.
  intros H.
  assert (Hk : k = Z.of_nat (length pre)).
  { assert (Hlt : (length pre < length (range n))%nat)
      by (rewrite H, length_app; cbn; lia).
    pose proof (@nth_range n _ Hlt) as Hn. rewrite H in Hn.
    rewrite app_nth2, Nat.sub_diag in Hn by lia. exact Hn. }
  assert (Hlen : (length pre < Z.to_nat n)%nat).
  { rewrite <- length_range, H, length_app. cbn. lia. }
  split; [lia|].
  assert (Hpre : pre = range k).
  { assert (Hkn : 0 <= k < n) by lia.
    pose proof (f_equal (firstn (length pre)) H) as Hf.
    rewrite firstn_app, Nat.sub_diag, firstn_all, firstn_O, app_nil_r in Hf.
    rewrite <- Hf, (@range_split _ _ Hkn).
    assert (Hlk : length pre = length (range k)) by (rewrite length_range; lia).
    rewrite Hlk, firstn_app, Nat.sub_diag, firstn_all, firstn_O, app_nil_r.
    reflexivity. }
  split; [exact Hpre|].
  rewrite Hpre at 1. unfold range.
  replace (Z.to_nat (k + 1)) with (Z.to_nat k + 1)%nat by lia.
  rewrite seq_app, map_app. cbn. f_equal. f_equal. lia.
Qed.

Lemma NoDup_range (n : Z) : NoDup (range n).
Proof.
  unfold range. generalize (seq_NoDup (Z.to_nat n) 0).
  induction (seq 0 (Z.to_nat n)) as [|a l IH]; intros Hnd; cbn; [constructor|].
  inversion Hnd as [|? ? Ha Hl]; subst. constructor; [|now apply IH].
  intros Hin. apply in_map_iff in Hin. destruct Hin as (b & Hb & Hin).
  apply Nat2Z.inj in Hb. subst b. contradiction.
Qed.

Lemma others_snoc (label k : Z) (pre : list Z) :
  k <> label -> others label pre ++ [k] = others label (pre ++ [k]).
Proof.
  intros Hk. unfold others. rewrite filter_app. cbn.
  apply Z.eqb_neq in Hk. rewrite Hk. reflexivity.
Qed.

Lemma filter_all A (f : A -> bool) (l : list A) :
  (forall x, In x l -> f x = true) -> filter f l = l.
Proof.
  induction l as [|a l IH]; intros H; cbn; [reflexivity|].
  rewrite (H a) by now left. f_equal. apply IH. intros x Hx. apply H. now right.
Qed.

(** All but one of the classes below [n] are other than [label]. *)
Lemma length_others (label n : Z) :
  0 <= label < n -> Z.of_nat (length (others label (range n))) = n - 1.
Proof.
  intros H. rewrite (@range_split _ _ H). unfold others.
  rewrite filter_app. cbn [filter]. rewrite Z.eqb_refl. cbn [negb].
  rewrite !filter_all.
  - rewrite length_app, length_range, length_map, length_seq. lia.
  - intros x Hx. apply in_map_iff in Hx. destruct Hx as (i & <- & Hi).
    apply in_seq in Hi. apply negb_true_iff, Z.eqb_neq. lia.
  - intros x Hx. apply In_range in Hx. apply negb_true_iff, Z.eqb_neq. lia.
Qed.

(** What the loop asked about, whatever the outcome: the classes other
    than [label] below some bound. *)
Lemma verdict_outcome_queried (label n : Z) (r : result bool) (evs : list event) :
  verdict_outcome label (range n) r evs ->
  exists j, 0 <= j <= Z.max 0 n /\ queried evs = others label (range j) /\
            (r = Ok true -> queried evs = others label (range n)).
Proof.
  intros Ho.
  assert (Hstop : stopped_at label (range n) evs ->
            exists j, 0 <= j <= Z.max 0 n /\ queried evs = others label (range j)).
  { intros (pre & k & post & Hsplit & Hk & Hq & _).
    destruct (@range_prefix _ _ _ _ Hsplit) as (Hkn & _ & Hpk).
    exists (k + 1). split; [lia|]. now rewrite Hq, others_snoc, Hpk. }
  destruct r as [[|]|x]; cbn in Ho.
  - destruct Ho as [Hq _]. exists (Z.max 0 n). split; [lia|].
    assert (Hr : range (Z.max 0 n) = range n).
    { unfold range. f_equal. f_equal. lia. }
    rewrite Hr. auto.
  - destruct (Hstop Ho) as (j & Hj & Hq). exists j. split; [exact Hj|].
    split; [exact Hq | discriminate].
  - destruct (Hstop (proj1 Ho)) as (j & Hj & Hq). exists j. split; [exact Hj|].
    split; [exact Hq | discriminate].
Qed.

(** X6.  Whatever its outcome, a [verify] call that reaches the class
    loop asks the pairwise oracle about each class at most once, in
    increasing order, never about [label] itself and never about a class
    outside [0, num_classes): the classes asked about are those other
    than [label] below some bound [j <= num_classes].  A [True] verdict
    with [label] among the classes costs exactly [num_classes - 1]
    queries.  The queries of the log are the queries made: each goes to
    the bound engine of the adaptor with [label] as the class to
    defend, and the collaborators end in the state that the recorded
    calls, and no other, lead to. *)
Theorem pairwise_queries (w : world RealAdaptor_t) input label radius x0 :
  usable (self w) = true ->
  np_argmax (forward (model (basic (self w))) (unsqueeze0 input)) = Ok label ->
  input_preprocess (model (basic (self w))) input = Ok x0 ->
  let out := verify input label "inf" radius w in
  let n := get_num_classes (dataset (basic (self w))) in
  exists evs j,
    log (snd out) = log w ++ evs /\
    0 <= j <= Z.max 0 n /\
    queried evs = others label (range j) /\
    NoDup (queried evs) /\
    (forall i, In i (queried evs) -> 0 <= i < n /\ i <> label) /\
    (fst out = Ok true -> 0 <= label < n ->
     Z.of_nat (length (queried evs)) = n - 1) /\
    (forall ev, In ev evs -> queried_class ev <> [] ->
                asks (self (snd out)) label ev) /\
    transcript evs (ext w) /\
    ext (snd out) = replay evs (ext w).
Proof.
  intros Hu Harg Hpre out n.
  destruct (@verify_run _ _ w input label radius x0 Hu Harg Hpre)
    as (Hself & evs & Hl & HQ & Ho).
  fold out n in Hself, Hl, Ho.
  pose proof (@after_init_ready _ _ _ (shape input) Hu) as Hr.
  destruct (@prelude_events_ready _ _ (after_init (self w) (shape input))
              (bounds_input (cls (self w)) x0)
              (fdiv radius (coef (basic (self w)))) (ext w) Hr)
    as (p & _ & _ & Hq2 & _).
  destruct (quiet_events (init_events_quiet (self w) (shape input))) as (_ & Hq1 & _).
  destruct (@verdict_outcome_queried _ _ _ _ Ho) as (j & Hj & Hq & Hall).
  eexists. exists j. split; [exact Hl|]. split; [exact Hj|].
  assert (Hqe : queried (init_events (self w) (shape input) ++
                  [EvForward (model (basic (self w))) (unsqueeze0 input)] ++
                  prelude_events (after_init (self w) (shape input))
                    (bounds_input (cls (self w)) x0)
                    (fdiv radius (coef (basic (self w)))) (ext w) ++ evs)
                = queried evs).
  { rewrite !queried_app, Hq1, Hq2. reflexivity. }
  rewrite Hqe. split; [exact Hq|]. split.
  - rewrite Hq. unfold others. apply NoDup_filter, NoDup_range.
  - split.
    + intros i Hi. rewrite Hq in Hi. unfold others in Hi.
      apply filter_In in Hi. destruct Hi as [Hi Hne].
      apply In_range in Hi. apply negb_true_iff, Z.eqb_neq in Hne. lia.
    + split; [intros Ht Hlab; rewrite (Hall Ht); now apply length_others|].
      split.
      * intros ev Hin Hne.
        apply in_app_or in Hin. destruct Hin as [Hin|Hin].
        { elim Hne. exact (flat_map_nil_In _ _ _ Hq1 Hin). }
        apply in_app_or in Hin. destruct Hin as [[<-|[]]|Hin].
        { elim Hne. reflexivity. }
        apply in_app_or in Hin. destruct Hin as [Hin|Hin].
        { elim Hne. exact (flat_map_nil_In _ _ _ Hq2 Hin). }
        rewrite Hself.
        pose proof (pair_events_ask HQ) as HA.
        rewrite Forall_forall in HA. exact (HA _ Hin).
      * exact (@verify_transcript _ _ w input label "inf"%string radius _ Hl).
Qed.

(** X7.  When no class other than [label] lies below the class count (a
    dataset of at most one class), a [verify] call whose clean
    prediction is [label] returns [True] without asking the pairwise
    oracle anything: the bounds are computed and the loop runs over
    nothing.  The collaborators end in the state that
    [calculate_bound] of the adaptor's engine leaves (followed, in the
    MILP adaptor, by [construct]): no query touched them. *)
Theorem no_other_class_verifies (w : world RealAdaptor_t) input label radius x0 :
  usable (self w) = true ->
  np_argmax (forward (model (basic (self w))) (unsqueeze0 input)) = Ok label ->
  input_preprocess (model (basic (self w))) input = Ok x0 ->
  (forall i, 0 <= i < get_num_classes (dataset (basic (self w))) -> i = label) ->
  let out := verify input label "inf" radius w in
  fst out = Ok true /\
  exists evs p,
    log (snd out) = log w ++ evs /\
    queried evs = [] /\ answers evs = [] /\
    calc_calls evs = [(p, bounds_input (cls (self w)) x0,
                       fdiv radius (coef (basic (self w))))] /\
    calc_oracle (self (snd out)) = Some p /\
    transcript evs (ext w) /\
    ext (snd out) = replay evs (ext w) /\
    let e1 := calculate_bound p (bounds_input (cls (self w)) x0)
                (fdiv radius (coef (basic (self w)))) (ext w) in
    (cls (self w) <> MILPAdaptor -> ext (snd out) = e1) /\
    (cls (self w) = MILPAdaptor ->
     exists b, bound (self (snd out)) = Some b /\
       ext (snd out) =
       construct b (bound_l p e1) (bound_u p e1)
         (bounds_input (cls (self w)) x0)
         (fdiv radius (coef (basic (self w)))) e1).
Proof.
  intros Hu Harg Hpre Hone out.
  destruct (@verify_run _ _ w input label radius x0 Hu Harg Hpre)
    as (Hself & evs & Hl & HQ & Ho).
  fold out in Hself, Hl, Ho.
  pose proof (@after_init_ready _ _ _ (shape input) Hu) as Hr.
  pose proof (after_init_config (self w) (shape input)) as (Hcls & _).
  destruct (@prelude_events_ready _ _ (after_init (self w) (shape input))
              (bounds_input (cls (self w)) x0)
              (fdiv radius (coef (basic (self w)))) (ext w) Hr)
    as (p & Hp & Hc2 & Hq2 & Ha2).
  destruct (quiet_events (init_events_quiet (self w) (shape input)))
    as (Hc1 & Hq1 & Ha1).
  assert (Hnone : others label (range (get_num_classes (dataset (basic (self w))))) = []).
  { unfold others. destruct (filter _ _) as [|i l] eqn:Hf; [reflexivity|].
    assert (Hi : In i (i :: l)) by now left.
    rewrite <- Hf in Hi. apply filter_In in Hi. destruct Hi as [Hi Hne].
    apply In_range in Hi. apply negb_true_iff, Z.eqb_neq in Hne.
    elim Hne. now apply Hone. }
  assert (Hnostop : ~ stopped_at label
                      (range (get_num_classes (dataset (basic (self w))))) evs).
  { intros (pre & k & post & Hsplit & Hk & _).
    assert (Hin : In k (others label
                          (range (get_num_classes (dataset (basic (self w))))))).
    { unfold others. apply filter_In. split.
      - rewrite Hsplit. apply in_or_app. right. now left.
      - now apply negb_true_iff, Z.eqb_neq. }
    rewrite Hnone in Hin. contradiction. }
  assert (Ht : fst out = Ok true).
  { revert Ho. destruct (fst out) as [[|]|x]; cbn; intros Ho;
      [reflexivity | contradiction | destruct Ho; contradiction]. }
  split; [exact Ht|]. rewrite Ht in Ho. destruct Ho as [Hq Ha].
  rewrite Hnone in Hq, Ha. cbn in Ha.
  assert (Hnil : evs = []).
  { destruct evs as [|ev evs']; [reflexivity|]. exfalso.
    apply Forall_inv in HQ.
    destruct ev; cbn in HQ, Hq, Ha; try contradiction; discriminate. }
  subst evs. rewrite app_nil_r in Hl.
  pose proof (@verify_transcript _ _ w input label "inf"%string radius _ Hl)
    as [Htr Hext].
  fold out in Hext.
  eexists. exists p. split; [exact Hl|].
  split; [rewrite !queried_app, Hq1, Hq2; reflexivity|].
  split; [rewrite !answers_app, Ha1, Ha2; reflexivity|].
  split; [rewrite !calc_calls_app, Hc1, Hc2; reflexivity|].
  split; [rewrite Hself; exact Hp|].
  split; [exact Htr|]. split; [exact Hext|].
  assert (Hbd : exists b, bound (after_init (self w) (shape input)) = Some b).
  { unfold ready in Hr. rewrite !andb_true_iff in Hr.
    destruct (bound (after_init (self w) (shape input))) as [b|]; [eauto|].
    destruct Hr as [[_ Hr] _]. discriminate. }
  destruct Hbd as [b Hbd].
  rewrite Hext, !replay_app, (replay_quiet _ (init_events_quiet _ _)).
  unfold prelude_events. rewrite Hp, Hbd, Hcls. cbv zeta. split.
  - intros Hne. destruct (cls (self w)); try reflexivity. contradiction.
  - intros Hm. exists b. split; [rewrite Hself; exact Hbd|].
    rewrite Hm. reflexivity.
Qed.

End QueryProperties.

Lemma pairwise_queries_witness :
  let s := Mock.script_all in
  let w := Mock.start s (Mock.fresh s MILPAdaptor Mock.net_with_norm) in
  let out := verify (X := Mock.externals s) Mock.image2 1 "inf" (1 # 10)%Q w in
  usable (self w) = true /\ fst out = Ok true /\
  exists evs j,
    log (snd out) = log w ++ evs /\
    queried evs = others 1 (range j) /\
    NoDup (queried evs) /\
    Z.of_nat (length (queried evs)) = 3 - 1 /\
    transcript evs (ext w) /\
    ext (snd out) = replay evs (ext w).
Proof.
  split; [reflexivity|]. split; [vm_compute; reflexivity|].
  destruct (@pairwise_queries Mock.QNum (Mock.externals Mock.script_all)
              (Mock.start Mock.script_all
                 (Mock.fresh Mock.script_all MILPAdaptor Mock.net_with_norm))
              Mock.image2 1 (1 # 10)%Q
              (Build_tensor (N := Mock.QNum) [2; 1; 2]%nat [2; 1; -1; -2]%Q)
              eq_refl eq_refl eq_refl)
    as (evs & j & H1 & _ & H2 & H3 & _ & H4 & _ & H5 & H6).
  exists evs, j. split; [exact H1|]. split; [exact H2|]. split; [exact H3|].
  split; [apply H4; [vm_compute; reflexivity | cbn; lia]|].
  split; [exact H5 | exact H6].
Defined.

Lemma no_other_class_verifies_witness :
  let s := MockMore.script_single in
  let w := Mock.start s (Mock.fresh s FastLinIBPAdaptor Mock.plain_net) in
  let out := verify (X := Mock.externals s) Mock.image1 0 "inf" (1 # 10)%Q w in
  usable (self w) = true /\ fst out = Ok true /\
  exists evs p,
    log (snd out) = log w ++ evs /\ queried evs = [] /\ answers evs = [] /\
    calc_calls evs = [(p, view_flat Mock.image1, (1 # 10)%Q)] /\
    calc_oracle (self (snd out)) = Some p /\
    ext (snd out) =
    calculate_bound (Externals := Mock.externals s) p (view_flat Mock.image1)
      (1 # 10)%Q (ext w).
Proof.
  split; [reflexivity|].
  destruct (@no_other_class_verifies Mock.QNum (Mock.externals MockMore.script_single)
              (Mock.start MockMore.script_single
                 (Mock.fresh MockMore.script_single FastLinIBPAdaptor Mock.plain_net))
              Mock.image1 0 (1 # 10)%Q Mock.image1
              eq_refl eq_refl eq_refl ltac:(cbn; intros; lia))
    as (Ht & evs & p & H1 & H2 & H3 & H4 & H5 & _ & _ & H6 & _).
  split; [exact Ht|]. exists evs, p.
  split; [exact H1|]. split; [exact H2|]. split; [exact H3|]. split; [exact H4|].
  split; [exact H5|]. apply H6. discriminate.
Defined.

(* ================================================================== *)
(** ** Further properties: the clean check *)

Section CleanCheckProperties.
Context {N : Num} {X : Externals}.

Lemma argmax_from_range (xs : list F) :
  forall best_i best i, 0 <= best_i < i ->
    0 <= argmax_from best_i best i xs < i + Z.of_nat (length xs).
Proof.
  induction xs as [|x xs IH]; intros best_i best i H; cbn [argmax_from length].
  - lia.
  - destruct (flt best x).
    + specialize (IH i x (i + 1)). lia.
    + specialize (IH best_i best (i + 1)). lia.
Qed.

(** [np.argmax] answers an index of its argument. *)
Lemma np_argmax_range (xs : list F) (p : Z) :
  np_argmax xs = Ok p -> 0 <= p < Z.of_nat (length xs).
Proof.
  destruct xs as [|x xs]; cbn [np_argmax]; [discriminate|]. intros [= <-].
  pose proof (@argmax_from_range xs 0 x 1). cbn [length]. lia.
Qed.

Lemma np_argmax_nonempty (xs : list F) :
  xs <> [] -> exists p, np_argmax xs = Ok p.
Proof. destruct xs; [congruence | eexists; reflexivity]. Qed.

(** X8.  A label that is no index of the classifier's scores is never
    verified: when the scores on the clean input are not empty and
    [label] is negative or not below their number, the clean adaptor, the
    PGD adaptor and every usable adaptor deriving from [RealAdaptorBase]
    return [False], the latter without any call to an engine. *)
Theorem label_outside_scores_is_rejected
    (wb : world BasicAdaptor_t) (w : world RealAdaptor_t)
    input label norm_type radius :
  forward (model (self wb)) (unsqueeze0 input) <> [] ->
  ~ 0 <= label < Z.of_nat (length (forward (model (self wb)) (unsqueeze0 input))) ->
  usable (self w) = true ->
  forward (model (basic (self w))) (unsqueeze0 input) <> [] ->
  ~ 0 <= label
    < Z.of_nat (length (forward (model (basic (self w))) (unsqueeze0 input))) ->
  let out := verify input label "inf" radius w in
  fst (CleanAdaptor_verify input label norm_type radius wb) = Ok false /\
  fst (PGDAdaptor_verify input label "inf" radius wb) = Ok false /\
  fst out = Ok false /\
  ext (snd out) = ext w /\
  exists evs, log (snd out) = log w ++ evs /\
              Forall (fun ev => is_oracle_call ev = false) evs.
Proof.
  intros Hne Hl Hu Hne' Hl' out.
  destruct (@np_argmax_nonempty _ Hne) as [p Hp].
  destruct (@np_argmax_nonempty _ Hne') as [p' Hp'].
  assert (Hpl : (p =? label) = false).
  { apply Z.eqb_neq. intros ->. apply Hl. now apply np_argmax_range. }
  assert (Hpl' : (p' =? label) = false).
  { apply Z.eqb_neq. intros ->. apply Hl'. now apply np_argmax_range. }
  split; [|split].
  - rewrite (@CleanAdaptor_verify_run _ _ wb input label norm_type radius p Hp), Hpl.
    reflexivity.
  - rewrite (@PGDAdaptor_verify_no_attack _ _ wb input label radius p Hp), Hpl.
    + reflexivity.
    + left. now apply Z.eqb_neq.
  - unfold out. rewrite (@verify_inf _ _ w input label radius Hu). cbv zeta.
    rewrite Hp', Hpl'. cbn [fst snd ext log].
    split; [reflexivity|]. split; [reflexivity|].
    eexists. split; [reflexivity|].
    apply Forall_app. split; [apply init_events_quiet | repeat constructor].
Qed.

(** X9.  The clean check is necessary for every verdict [True]: when
    the PGD adaptor, or a usable adaptor deriving from
    [RealAdaptorBase], returns [True] for an input and a label, the
    arg-max of the scores on the unperturbed input is that label, and so
    the clean adaptor over the same model returns [True] as well. *)
Theorem true_verdict_needs_clean_prediction
    (wb : world BasicAdaptor_t) (w : world RealAdaptor_t)
    input label norm_type norm_type' radius radius' :
  usable (self w) = true ->
  (fst (PGDAdaptor_verify input label norm_type radius wb) = Ok true ->
   np_argmax (forward (model (self wb)) (unsqueeze0 input)) = Ok label /\
   fst (CleanAdaptor_verify input label norm_type' radius' wb) = Ok true) /\
  (fst (verify input label norm_type radius w) = Ok true ->
   norm_type = "inf"%string /\
   np_argmax (forward (model (basic (self w))) (unsqueeze0 input)) = Ok label).
Proof.
  intros Hu. split.
  - unfold PGDAdaptor_verify, CleanAdaptor_verify, clean_prediction. run_monad.
    destruct (norm_type =? "inf")%string; cbn; [|discriminate].
    destruct (np_argmax _) as [p|x]; cbn; [|discriminate].
    destruct (p =? label) eqn:Hp; cbn; [|discriminate].
    apply Z.eqb_eq in Hp. subst p. auto.
  - destruct (string_dec norm_type "inf") as [->|Hn].
    + rewrite (@verify_inf _ _ w input label radius Hu). cbv zeta.
      destruct (np_argmax _) as [p|x]; cbn; [|discriminate].
      destruct (p =? label) eqn:Hp; cbn; [|discriminate].
      apply Z.eqb_eq in Hp. subst p. auto.
    + rewrite verify_not_inf by exact Hn. discriminate.
Qed.

End CleanCheckProperties.

Lemma label_outside_scores_is_rejected_witness :
  let s := Mock.script_all in
  let wb := Mock.start s (Mock.fresh_basic Mock.plain_net) in
  let w := Mock.start s (Mock.fresh s IBPAdaptor Mock.plain_net) in
  fst (CleanAdaptor_verify (X := Mock.externals s) Mock.image1 3 "inf" (1 # 10)%Q wb)
  = Ok false /\
  fst (verify (X := Mock.externals s) Mock.image1 (-1) "inf" (1 # 10)%Q w) = Ok false.
Proof.
  pose proof (@label_outside_scores_is_rejected Mock.QNum
                (Mock.externals Mock.script_all)
                (Mock.start Mock.script_all (Mock.fresh_basic Mock.plain_net))
                (Mock.start Mock.script_all
                   (Mock.fresh Mock.script_all IBPAdaptor Mock.plain_net))
                Mock.image1 3 "inf" (1 # 10)%Q
                ltac:(discriminate) ltac:(cbn; lia) eq_refl
                ltac:(discriminate) ltac:(cbn; lia)) as H1.
  pose proof (@label_outside_scores_is_rejected Mock.QNum
                (Mock.externals Mock.script_all)
                (Mock.start Mock.script_all (Mock.fresh_basic Mock.plain_net))
                (Mock.start Mock.script_all
                   (Mock.fresh Mock.script_all IBPAdaptor Mock.plain_net))
                Mock.image1 (-1) "inf" (1 # 10)%Q
                ltac:(discriminate) ltac:(cbn; lia) eq_refl
                ltac:(discriminate) ltac:(cbn; lia)) as H2.
  split; [exact (proj1 H1) | exact (proj1 (proj2 (proj2 H2)))].
Defined.

Lemma true_verdict_needs_clean_prediction_witness :
  let s := Mock.script_all in
  let wb := Mock.start s (Mock.fresh_basic Mock.plain_net) in
  let w := Mock.start s (Mock.fresh s PercySDPAdaptor Mock.plain_net) in
  fst (PGDAdaptor_verify (X := Mock.externals s) Mock.image1 1 "inf" (1 # 10)%Q wb)
  = Ok true /\
  fst (CleanAdaptor_verify (X := Mock.externals s) Mock.image1 1 "l2" 0%Q wb) = Ok true /\
  np_argmax (forward (Externals := Mock.externals s)
               (model (basic (self w))) (unsqueeze0 Mock.image1)) = Ok 1.
Proof.
  pose proof (@true_verdict_needs_clean_prediction Mock.QNum
                (Mock.externals Mock.script_all)
                (Mock.start Mock.script_all (Mock.fresh_basic Mock.plain_net))
                (Mock.start Mock.script_all
                   (Mock.fresh Mock.script_all PercySDPAdaptor Mock.plain_net))
                Mock.image1 1 "inf" "l2" (1 # 10)%Q 0%Q eq_refl) as H.
  split; [vm_compute; reflexivity|].
  split; [exact (proj2 (proj1 H eq_refl)) | exact (proj2 (proj2 H eq_refl))].
Defined.

(* ================================================================== *)
(** ** Further properties: the PGD adaptor *)

Section AttackProperties.
Context {N : Num} {X : Externals}.

(** X10.  With a correct clean prediction and a radius other than zero
    the PGD adaptor runs the attack once, on the batched input, with
    [eps = radius] and the step [eps_iter = radius / 50.0], and returns
    whether the arg-max of the scores on the adversarial input is still
    [label]; the adaptor itself is left as it is.  On an input with
    fewer than three dimensions it raises [IndexError] instead, after the
    clean check and without running the attack. *)
Theorem pgd_attack_run (wb : world BasicAdaptor_t) input label radius :
  np_argmax (forward (model (self wb)) (unsqueeze0 input)) = Ok label ->
  feqb radius zero = false ->
  let out := PGDAdaptor_verify input label "inf" radius wb in
  let attacked := pgd_adv_preds (model (self wb)) (unsqueeze0 input) radius
                    (fdiv radius fifty) (ext wb) in
  self (snd out) = self wb /\
  ((3 <= length (shape input))%nat ->
   fst out = rbind (np_argmax (fst attacked)) (fun q => Ok (q =? label)) /\
   ext (snd out) = snd attacked /\
   log (snd out) = log wb ++ [EvForward (model (self wb)) (unsqueeze0 input);
                              EvAttack radius (fdiv radius fifty)]) /\
  ((length (shape input) < 3)%nat ->
   out = (Raise IndexError,
          {| self := self wb; ext := ext wb;
             log := log wb ++ [EvForward (model (self wb)) (unsqueeze0 input)] |})).
Proof.
  intros Harg Hz out attacked. unfold out, attacked. clear out attacked.
  unfold PGDAdaptor_verify, clean_prediction. run_monad.
  cbn [String.eqb Ascii.eqb Bool.eqb]. cbv beta iota. cbn [self ext log].
  rewrite Harg. cbv beta iota. rewrite Z.eqb_refl. cbn [negb]. rewrite Hz.
  cbn [self ext log].
  destruct (shape input) as [|d0 [|d1 [|d2 rest]]]; cbn [length];
    try (split; [reflexivity|]; split; [lia | reflexivity]).
  destruct (pgd_adv_preds _ _ _ _ _) as [adv e'] eqn:Hadv. cbn [fst snd self ext log].
  destruct (np_argmax adv) as [q|x]; cbn; rewrite <- ?app_assoc; cbn;
    (split; [reflexivity|]; split; [auto | lia]).
Qed.

End AttackProperties.

Lemma pgd_attack_run_witness :
  let s := Mock.script1 in
  let wb := Mock.start s (Mock.fresh_basic Mock.net_with_norm) in
  let out := PGDAdaptor_verify (X := Mock.externals s) Mock.image2 1 "inf" (1 # 10)%Q wb in
  fst out = Ok false /\
  attacks (log (snd out)) = [((1 # 10)%Q, (1 # 500)%Q)] /\
  fst (PGDAdaptor_verify (X := Mock.externals s) MockMore.vector4 1 "inf" (1 # 10)%Q wb)
  = Raise IndexError.
Proof.
  pose proof (@pgd_attack_run Mock.QNum (Mock.externals Mock.script1)
                (Mock.start Mock.script1 (Mock.fresh_basic Mock.net_with_norm))
                Mock.image2 1 (1 # 10)%Q eq_refl eq_refl) as H1.
  pose proof (@pgd_attack_run Mock.QNum (Mock.externals Mock.script1)
                (Mock.start Mock.script1 (Mock.fresh_basic Mock.net_with_norm))
                MockMore.vector4 1 (1 # 10)%Q eq_refl eq_refl) as H2.
  split; [exact (proj1 (proj1 (proj2 H1) ltac:(cbn; lia)))|].
  split; [vm_compute; reflexivity|].
  exact (f_equal fst (proj2 (proj2 H2) ltac:(cbn; lia))).
Defined.

(* ================================================================== *)
(** ** Further properties: inputs that cannot be preprocessed *)

Section MalformedInputProperties.
Context {N : Num} {X : Externals}.

Lemma class_bounds_preprocess_raises c (a : RealAdaptor_t) (w : world RealAdaptor_t)
    input label radius x :
  input_preprocess (model (basic a)) input = Raise x ->
  class_bounds c a input label radius w = (Raise x, w).
Proof.
  intros H.
  destruct c; unfold class_bounds, RealAdaptorBase_bounds, IBPAdaptor_bounds,
    MILPAdaptor_bounds, PercySDPAdaptor_bounds; run_monad; rewrite H; reflexivity.
Qed.

Lemma input_preprocess_not_3d (l : layer) rest (input : tensor) :
  length (shape input) <> 3%nat ->
  input_preprocess (l :: rest) input = Raise ValueError.
Proof.
  intros H. unfold input_preprocess. cbn [getitem nth_error rbind].
  destruct (shape input) as [|d0 [|d1 [|d2 [|d3 r]]]]; cbn in *; try reflexivity.
  congruence.
Qed.

Lemma input_preprocess_mismatch (nl : NormalizeLayer_t) rest (input : tensor)
    (c height width : nat) :
  shape input = [c; height; width] ->
  c <> 1%nat ->
  (length (means nl) <> c /\ length (means nl) <> 1%nat) \/
  (length (sds nl) <> c /\ length (sds nl) <> 1%nat) ->
  input_preprocess (NormalizeLayer nl :: rest) input = Raise RuntimeError.
Proof.
  intros Hs Hc H. unfold input_preprocess. cbn [getitem nth_error rbind].
  destruct input as [sh dt]. cbn [shape] in Hs. subst sh. cbn [shape].
  rewrite !permute_repeat. unfold elementwise. cbn [shape data].
  apply Nat.eqb_neq in Hc. rewrite Hc.
  destruct (Nat.eqb c (length (means nl))) eqn:E1;
    [|destruct (Nat.eqb (length (means nl)) 1) eqn:E2];
    cbn [rbind shape data]; try reflexivity;
    (destruct (Nat.eqb c (length (sds nl))) eqn:E3;
     [|destruct (Nat.eqb (length (sds nl)) 1) eqn:E4]; rewrite ?Hc; try reflexivity);
    exfalso;
    repeat match goal with
           | E : Nat.eqb _ _ = true |- _ => apply Nat.eqb_eq in E
           | E : Nat.eqb _ _ = false |- _ => apply Nat.eqb_neq in E
           end;
    destruct H as [[H1 H2]|[H1 H2]]; congruence.
Qed.

(** X11.  An input that cannot be preprocessed stops [verify] only after
    the initialization and the clean check: on a usable instance whose
    clean prediction is [label], an input that has not exactly three
    dimensions raises [ValueError], and behind a normalization layer an
    image of more than one channel whose channel count matches neither
    the number of means nor the number of standard deviations (these
    not being 1) raises [RuntimeError].  In both cases no engine is
    called, the collaborators' state is untouched, and the instance is
    left initialized for the shape of that input. *)
Theorem malformed_input_raises_after_init (w : world RealAdaptor_t)
    input label radius :
  usable (self w) = true ->
  np_argmax (forward (model (basic (self w))) (unsqueeze0 input)) = Ok label ->
  let a := self w in
  let w1 := {| self := after_init a (shape input); ext := ext w;
               log := log w ++ init_events a (shape input) ++
                      [EvForward (model (basic a)) (unsqueeze0 input)] |} in
  (length (shape input) <> 3%nat ->
   verify input label "inf" radius w = (Raise ValueError, w1)) /\
  (forall nl rest c height width,
     model (basic a) = NormalizeLayer nl :: rest ->
     shape input = [c; height; width] ->
     c <> 1%nat ->
     (length (means nl) <> c /\ length (means nl) <> 1%nat) \/
     (length (sds nl) <> c /\ length (sds nl) <> 1%nat) ->
     verify input label "inf" radius w = (Raise RuntimeError, w1)) /\
  ready (self w1) = true /\
  Forall (fun ev => is_oracle_call ev = false)
         (init_events a (shape input) ++
          [EvForward (model (basic a)) (unsqueeze0 input)]).
Proof.
  intros Hu Harg a w1.
  assert (Hv : forall x, input_preprocess (model (basic a)) input = Raise x ->
                 verify input label "inf" radius w = (Raise x, w1)).
  { intros x Hx. rewrite (verify_inf w input label radius Hu). cbv zeta.
    rewrite Harg, Z.eqb_refl.
    apply class_bounds_preprocess_raises.
    destruct (after_init_config (self w) (shape input)) as (_ & Hb & _).
    rewrite Hb. exact Hx. }
  assert (Hm : exists l rest, model (basic a) = l :: rest).
  { unfold usable in Hu. rewrite !andb_true_iff in Hu. destruct Hu as [[_ Hw] _].
    fold a in Hw. destruct (model (basic a)) as [|l rest]; [discriminate|eauto]. }
  destruct Hm as (l & rest & Hm).
  split; [|split; [|split]].
  - intros Hd. apply Hv. rewrite Hm. now apply input_preprocess_not_3d.
  - intros nl rest' c height width Hnl Hs Hc Hmis. apply Hv. rewrite Hnl.
    now apply (@input_preprocess_mismatch nl rest' input c height width).
  - apply after_init_ready. exact Hu.
  - apply Forall_app. split; [apply init_events_quiet|]. repeat constructor.
Qed.

End MalformedInputProperties.

Lemma malformed_input_raises_after_init_witness :
  let s := Mock.script_all in
  fst (verify (X := Mock.externals s) MockMore.vector4 1 "inf" (1 # 10)%Q
         (Mock.start s (Mock.fresh s IBPAdaptor Mock.plain_net))) = Raise ValueError /\
  fst (verify (X := Mock.externals s) MockMore.image3 1 "inf" (1 # 10)%Q
         (Mock.start s (Mock.fresh s MILPAdaptor Mock.net_with_norm)))
  = Raise RuntimeError.
Proof.
  pose proof (@malformed_input_raises_after_init Mock.QNum
                (Mock.externals Mock.script_all)
                (Mock.start Mock.script_all
                   (Mock.fresh Mock.script_all IBPAdaptor Mock.plain_net))
                MockMore.vector4 1 (1 # 10)%Q eq_refl eq_refl) as H1.
  pose proof (@malformed_input_raises_after_init Mock.QNum
                (Mock.externals Mock.script_all)
                (Mock.start Mock.script_all
                   (Mock.fresh Mock.script_all MILPAdaptor Mock.net_with_norm))
                MockMore.image3 1 (1 # 10)%Q eq_refl eq_refl) as H2.
  split.
  - exact (f_equal fst (proj1 H1 ltac:(cbn; lia))).
  - exact (f_equal fst
             (proj1 (proj2 H2) Mock.norm_layer
                [Sequential [OtherLayer 0; OtherLayer 1]] 3%nat 1%nat 1%nat
                eq_refl eq_refl ltac:(lia) ltac:(left; cbn; lia))).
Defined.

(* ================================================================== *)
(** ** Further properties: the exceptions of [verify] *)

Section ExceptionProperties.
Context {N : Num} {X : Externals}.

Lemma np_argmax_raises (xs : list F) x :
  np_argmax xs = Raise x -> x = ValueError /\ xs = [].
Proof. destruct xs; cbn; [intros [= <-]; auto | discriminate]. Qed.

Lemma elementwise_raises f (a b : tensor) x :
  elementwise f a b = Raise x -> x = RuntimeError.
Proof.
  unfold elementwise.
  destruct (shape a) as [|ca ra]; [intros [= <-]; reflexivity|].
  destruct (shape b) as [|cb rb]; [intros [= <-]; reflexivity|].
  destruct (Nat.eqb ca cb); [discriminate|].
  destruct (Nat.eqb cb 1); [discriminate|].
  destruct (Nat.eqb ca 1); [discriminate|].
  intros [= <-]; reflexivity.
Qed.

(** What [input_preprocess] can raise over a model with a first layer. *)
Lemma input_preprocess_raises (l : layer) rest (input : tensor) x :
  input_preprocess (l :: rest) input = Raise x ->
  (x = ValueError /\ length (shape input) <> 3%nat) \/
  (x = RuntimeError /\ isinstance_NormalizeLayer l = true /\
   length (shape input) = 3%nat).
Proof.
  unfold input_preprocess. cbn [getitem nth_error rbind].
  destruct (shape input) as [|d0 [|d1 [|d2 [|d3 r]]]];
    try (intros [= <-]; left; split; [reflexivity | cbn; lia]).
  destruct l as [nl|sub|k]; try discriminate.
  intros H. right. split; [|split; reflexivity].
  destruct (elementwise fsub input _) as [d|e] eqn:E1; cbn [rbind] in H.
  - exact (elementwise_raises _ _ _ H).
  - injection H as <-. exact (elementwise_raises _ _ _ E1).
Qed.

Lemma for_each_raises S (body : Z -> M S (option bool)) x :
  forall cs w, fst (for_each cs body w) = Raise x ->
    exists i w', In i cs /\ fst (body i w') = Raise x.
Proof.
  induction cs as [|i cs IH]; intros w H; cbn [for_each] in H.
  - discriminate.
  - unfold bind in H. destruct (body i w) as [[[b|]|e] w1] eqn:Hb.
    + discriminate.
    + destruct (IH w1 H) as (j & w' & Hin & Hj).
      exists j, w'. split; [now right | exact Hj].
    + exists i, w. split; [now left|]. rewrite Hb. exact H.
Qed.

(** On a ready adaptor a pairwise check raises only where the solver
    left no value to compare. *)
Lemma class_check_raises (a : RealAdaptor_t) e1 label i (w : world RealAdaptor_t) x :
  ready a = true ->
  fst (class_check a e1 label i w) = Raise x ->
  x = TypeError /\ (cls a = MILPAdaptor \/ cls a = PercySDPAdaptor).
Proof.
  unfold ready, class_check. rewrite !andb_true_iff. intros [[_ Hb] Hp].
  destruct (bound a) as [b|] eqn:Eb; [|discriminate].
  destruct (cls a); cbn in Hp;
    try (destruct (prebound a) as [p|]; [|discriminate]);
    unfold pairwise_verify, milp_solve_pair, sdp_run_pair; run_monad;
    rewrite Eb; cbn [self ext log].
  1-3: destruct (bound_verify b label i (ext w)) as [[|] e]; cbn; discriminate.
  - destruct (negb _); cbn; [discriminate|].
    destruct (prob_value b _) as [v|]; cbn.
    + destruct (flt v zero); discriminate.
    + intros [= <-]. auto.
  - destruct (negb _); cbn; [discriminate|].
    destruct (prob_value b _) as [v|]; cbn.
    + destruct (flt zero v); discriminate.
    + intros [= <-]. auto.
Qed.

(** X12.  What [verify] can raise on a usable instance, the
    collaborators' calls taken as returning: [AssertionError] exactly
    for a norm other than ['inf']; [ValueError] only when the model
    returns no score or the input has not three dimensions;
    [RuntimeError] only behind a normalization layer, on a
    three-dimensional input; [TypeError] only in the MILP and SDP
    adaptors (a solver status "optimal" without a value).  It never
    raises [NotImplementedError], [AttributeError] or [IndexError], nor
    the constructor's [ZeroDivisionError]. *)
Theorem verify_raises_only (w : world RealAdaptor_t)
    input label norm_type radius x :
  usable (self w) = true ->
  fst (verify input label norm_type radius w) = Raise x ->
  match x with
  | AssertionError => norm_type <> "inf"%string
  | ValueError =>
      norm_type = "inf"%string /\
      (forward (model (basic (self w))) (unsqueeze0 input) = [] \/
       length (shape input) <> 3%nat)
  | RuntimeError =>
      norm_type = "inf"%string /\ length (shape input) = 3%nat /\
      exists nl rest, model (basic (self w)) = NormalizeLayer nl :: rest
  | TypeError =>
      norm_type = "inf"%string /\
      (cls (self w) = MILPAdaptor \/ cls (self w) = PercySDPAdaptor)
  | NotImplementedError | AttributeError | IndexError | ZeroDivisionError => False
  end.
Proof.
  intros Hu H.
  destruct (String.eqb_spec norm_type "inf") as [->|Hn].
  2:{ rewrite (verify_not_inf w input label radius Hn) in H.
      injection H as <-. exact Hn. }
  assert (Hm : exists l rest, model (basic (self w)) = l :: rest).
  { unfold usable in Hu. rewrite !andb_true_iff in Hu. destruct Hu as [[_ Hw] _].
    destruct (model (basic (self w))) as [|l rest]; [discriminate|eauto]. }
  destruct Hm as (l & rest & Hm).
  pose proof (after_init_config (self w) (shape input)) as (Hc & Hb & _).
  pose proof (@after_init_ready _ _ _ (shape input) Hu) as Hr.
  pose proof (usable_concrete _ Hu) as Hcc.
  rewrite (verify_inf w input label radius Hu) in H. cbv zeta in H.
  destruct (np_argmax _) as [p|e] eqn:Harg.
  2:{ cbn [fst] in H. injection H as <-.
      destruct (np_argmax_raises _ Harg) as [-> Hnil]. auto. }
  destruct (p =? label); [|discriminate].
  destruct (input_preprocess (model (basic (self w))) input) as [x0|e] eqn:Hpre.
  2:{ rewrite class_bounds_preprocess_raises with (x := e) in H
        by (rewrite Hb; exact Hpre).
      cbn [fst] in H. injection H as <-.
      rewrite Hm in Hpre.
      destruct (input_preprocess_raises _ _ _ Hpre) as [[-> Hd]|(-> & Hl & Hd)].
      - auto.
      - split; [reflexivity|]. split; [exact Hd|].
        destruct l; try discriminate. eauto. }
  rewrite <- Hc in H. rewrite <- Hb in Hpre. rewrite <- Hc in Hcc.
  rewrite (class_bounds_ready _ _ input label radius Hr Hcc Hpre) in H.
  cbv zeta in H.
  match type of H with
  | context [class_loop ?chk ?lb ?cs ?w2] =>
      destruct (class_loop chk lb cs w2) as [r w3] eqn:Hloop
  end.
  cbn [fst] in H. destruct r as [[b|]|e]; try discriminate.
  injection H as <-.
  unfold class_loop in Hloop.
  apply (f_equal fst) in Hloop. cbn [fst] in Hloop.
  destruct (for_each_raises _ _ _ Hloop) as (i & w' & _ & Hi).
  destruct (negb (i =? label)); [|discriminate].
  destruct (class_check_raises _ _ _ _ _ Hr Hi) as [-> Hcls].
  rewrite Hc in Hcls. auto.
Qed.

End ExceptionProperties.

Lemma verify_raises_only_witness :
  let s := Mock.script_all in
  let w := Mock.start s (Mock.fresh s FastLinIBPAdaptor Mock.plain_net) in
  fst (verify (X := Mock.externals s) MockMore.vector4 1 "inf" (1 # 10)%Q w)
  = Raise ValueError /\
  length (shape MockMore.vector4) <> 3%nat.
Proof.
  assert (H : fst (verify (X := Mock.externals Mock.script_all) MockMore.vector4 1
                     "inf" (1 # 10)%Q
                     (Mock.start Mock.script_all
                        (Mock.fresh Mock.script_all FastLinIBPAdaptor Mock.plain_net)))
              = Raise ValueError) by (vm_compute; reflexivity).
  split; [exact H|].
  destruct (@verify_raises_only Mock.QNum (Mock.externals Mock.script_all)
              (Mock.start Mock.script_all
                 (Mock.fresh Mock.script_all FastLinIBPAdaptor Mock.plain_net))
              MockMore.vector4 1 "inf" (1 # 10)%Q ValueError eq_refl H)
    as [_ [Hs|Hs]]; [discriminate Hs | exact Hs].
Defined.

(* ================================================================== *)
(** ** Further properties: the MILP encoding *)

Section EncodingProperties.
Context {N : Num} {X : Externals}.

Lemma construct_calls_app (evs1 evs2 : list event) :
  construct_calls (evs1 ++ evs2) = construct_calls evs1 ++ construct_calls evs2.
Proof. apply flat_map_app. Qed.

Lemma quiet_no_construct (evs : list event) :
  Forall (fun ev => is_oracle_call ev = false) evs -> construct_calls evs = [].
Proof.
  intros H. apply flat_map_nil. eapply Forall_impl; [|exact H].
  intros [] Hq; simpl in *; try reflexivity; discriminate.
Qed.

Lemma pair_events_no_construct (a : RealAdaptor_t) e1 label (evs : list event) :
  Forall (pair_event a e1 label) evs -> construct_calls evs = [].
Proof.
  intros H. apply flat_map_nil. eapply Forall_impl; [|exact H].
  intros [] Hq; simpl in *; try reflexivity; contradiction.
Qed.

(** X13.  In a [verify] call that reaches the bound computation, the
    MILP adaptor encodes the problem exactly once, right after
    [calculate_bound] of the pre-bound engine and before the first
    pairwise query: [construct] is given the pre-bounds [l] and [u] as
    that engine holds them after the computation (not clamped, unlike
    the SDP adaptor's), and the same flattened input and radius
    [radius / coef] as [calculate_bound].  No other adaptor calls
    [construct].  The calls are made as recorded: the log is a
    transcript of the collaborators' state, and the class loop of the
    MILP adaptor starts from the state that [construct] leaves. *)
Theorem milp_constructs_once (w : world RealAdaptor_t) input label radius x0 :
  usable (self w) = true ->
  np_argmax (forward (model (basic (self w))) (unsqueeze0 input)) = Ok label ->
  input_preprocess (model (basic (self w))) input = Ok x0 ->
  let a := self w in
  let a1 := after_init a (shape input) in
  let x := view_flat x0 in
  let mr := fdiv radius (coef (basic a)) in
  let out := verify input label "inf" radius w in
  exists evs,
    log (snd out) = log w ++ evs /\
    self (snd out) = a1 /\
    transcript evs (ext w) /\
    ext (snd out) = replay evs (ext w) /\
    (cls a = MILPAdaptor ->
     exists p b pre post,
       prebound a1 = Some p /\ bound a1 = Some b /\
       let e1 := calculate_bound p x mr (ext w) in
       evs = pre ++ [EvCalculateBound p x mr;
                     EvConstruct b (bound_l p e1) (bound_u p e1) x mr] ++ post /\
       Forall (fun ev => is_oracle_call ev = false) pre /\
       calc_calls post = [] /\ construct_calls post = [] /\
       construct_calls evs = [(b, bound_l p e1, bound_u p e1, x, mr)] /\
       ext (snd out) =
       replay post (construct b (bound_l p e1) (bound_u p e1) x mr e1)) /\
    (cls a <> MILPAdaptor -> construct_calls evs = []).
Proof.
  intros Hu Harg Hpre a a1 x mr out.
  destruct (@verify_run _ _ w input label radius x0 Hu Harg Hpre)
    as (Hself & evs & Hl & HQ & _).
  pose proof (@verify_transcript _ _ w input label "inf"%string radius _ Hl)
    as [Htr Hext].
  fold a a1 mr out in Hself, Hl, HQ, Htr, Hext.
  assert (Hc : cls a1 = cls a) by apply after_init_config.
  assert (Hr : ready a1 = true) by (apply after_init_ready; exact Hu).
  pose proof (init_events_quiet a (shape input)) as Hq.
  set (pre := init_events a (shape input) ++
              [EvForward (model (basic a)) (unsqueeze0 input)]).
  assert (Hpq : Forall (fun ev => is_oracle_call ev = false) pre).
  { apply Forall_app. split; [exact Hq | repeat constructor]. }
  eexists. split.
  { rewrite Hl. reflexivity. }
  split; [exact Hself|]. split; [exact Htr|]. split; [exact Hext|].
  split.
  - intros Hm.
    assert (Hm1 : cls a1 = MILPAdaptor) by congruence.
    unfold ready in Hr. rewrite Hm1, !andb_true_iff in Hr.
    destruct Hr as [[_ Hrb] Hrp].
    destruct (bound a1) as [b|] eqn:Eb; [|discriminate].
    destruct (prebound a1) as [p|] eqn:Ep; [|discriminate].
    exists p, b, pre, evs.
    split; [reflexivity|]. split; [reflexivity|]. cbv zeta.
    assert (Hx : bounds_input (cls a) x0 = x) by (rewrite Hm; reflexivity).
    rewrite Hx in *.
    assert (Hpl : prelude_events a1 x mr (ext w) =
                  [EvCalculateBound p x mr;
                   EvConstruct b (bound_l p (calculate_bound p x mr (ext w)))
                     (bound_u p (calculate_bound p x mr (ext w))) x mr]).
    { unfold prelude_events, calc_oracle. rewrite Hm1, Ep, Eb. reflexivity. }
    rewrite Hpl in *.
    split; [unfold pre; rewrite <- !app_assoc; reflexivity|].
    split; [exact Hpq|].
    split; [exact (pair_events_no_calc HQ)|].
    split; [exact (pair_events_no_construct HQ)|].
    split.
    + rewrite !construct_calls_app, (quiet_no_construct Hq),
        (pair_events_no_construct HQ). reflexivity.
    + rewrite Hext, !replay_app, (replay_quiet _ Hq). reflexivity.
  - intros Hm.
    assert (Hpl : construct_calls
                    (prelude_events a1 (bounds_input (cls a) x0) mr (ext w)) = []).
    { unfold prelude_events. destruct (calc_oracle a1); [|reflexivity].
      destruct (bound a1); [|reflexivity]. rewrite Hc.
      destruct (cls a); try reflexivity. contradiction. }
    rewrite !construct_calls_app, (quiet_no_construct Hq), Hpl,
      (pair_events_no_construct HQ). reflexivity.
Qed.

End EncodingProperties.

Lemma milp_constructs_once_witness :
  let s := Mock.script_all in
  let w := Mock.start s (Mock.fresh s MILPAdaptor Mock.plain_net) in
  let out := verify (X := Mock.externals s) Mock.image1 1 "inf" (1 # 10)%Q w in
  exists evs,
    log (snd out) = log w ++ evs /\
    construct_calls evs =
      [(Mock.milp_engine, Mock.pre_l s, Mock.pre_u s, view_flat Mock.image1,
        (1 # 10)%Q)] /\
    bound (self (snd out)) = Some Mock.milp_engine /\
    transcript evs (ext w) /\
    ext (snd out) = replay evs (ext w).
Proof.
  destruct (@milp_constructs_once Mock.QNum (Mock.externals Mock.script_all)
              (Mock.start Mock.script_all
                 (Mock.fresh Mock.script_all MILPAdaptor Mock.plain_net))
              Mock.image1 1 (1 # 10)%Q Mock.image1 eq_refl eq_refl eq_refl)
    as (evs & Hl & Hs & Htr & Hext & Hm & _).
  exists evs. split; [exact Hl|].
  destruct (Hm eq_refl)
    as (p & b & pre & post & Hp & Hb & _ & _ & _ & _ & Hc & _).
  split; [injection Hp as <-; injection Hb as <-; exact Hc|].
  split; [rewrite Hs; reflexivity|]. split; [exact Htr | exact Hext].
Defined.

(* ================================================================== *)
(** ** Further properties: a normalization layer that is not unwrapped *)

Section UnwrappedModelProperties.
Context {N : Num} {X : Externals}.

Lemma materializations_app (evs1 evs2 : list event) :
  materializations (evs1 ++ evs2) = materializations evs1 ++ materializations evs2.
Proof. apply flat_map_app. Qed.

Lemma oracle_calls_no_materialization (evs : list event) :
  Forall (fun ev => is_oracle_call ev = true) evs -> materializations evs = [].
Proof.
  intros H. apply flat_map_nil. eapply Forall_impl; [|exact H].
  intros [] Hq; simpl in *; try reflexivity; discriminate.
Qed.

Lemma pair_events_oracle_calls (a : RealAdaptor_t) e1 label (evs : list event) :
  Forall (pair_event a e1 label) evs ->
  Forall (fun ev => is_oracle_call ev = true) evs.
Proof.
  intros H. eapply Forall_impl; [|exact H].
  intros [] Hq; simpl in *; try reflexivity; contradiction.
Qed.

Lemma prelude_events_oracle_calls (a : RealAdaptor_t) x mr e :
  Forall (fun ev => is_oracle_call ev = true) (prelude_events a x mr e).
Proof.
  unfold prelude_events. destruct (calc_oracle a); [|constructor].
  destruct (bound a); [|constructor].
  destruct (cls a); repeat constructor.
Qed.

(** The model is materialized whole unless a [NormalizeLayer] is
    followed by an [nn.Sequential]. *)
Lemma target_not_unwrapped (nl : NormalizeLayer_t) (l1 : layer) rest :
  isinstance_Sequential l1 = false ->
  target (NormalizeLayer nl :: l1 :: rest) = NormalizeLayer nl :: l1 :: rest.
Proof. destruct l1; [reflexivity | discriminate | reflexivity]. Qed.

(** X15.  When the model starts with a [NormalizeLayer] whose successor
    is not an [nn.Sequential], the model is not unwrapped: the first
    [verify] call materializes the whole model, normalization layer
    included (IBP keeps the whole torch model), and builds the engines
    over it; yet [input_preprocess] still normalizes the input and the
    radius is still divided by [min(orig_sds)], so [calculate_bound]
    receives the normalized input for a network that normalizes again.
    The engine called is the one the adaptor holds, and the call is
    made as recorded: the log is a transcript of the collaborators'
    state. *)
Theorem normalization_applied_twice_without_sequential
    (w : world RealAdaptor_t) input label radius
    (nl : NormalizeLayer_t) (l1 : layer) rest (c height width : nat) :
  usable (self w) = true ->
  uninitialized (self w) = true ->
  model (basic (self w)) = NormalizeLayer nl :: l1 :: rest ->
  isinstance_Sequential l1 = false ->
  shape input = [c; height; width] ->
  length (means nl) = c -> length (sds nl) = c ->
  np_argmax (forward (model (basic (self w))) (unsqueeze0 input)) = Ok label ->
  let a := self w in
  let m := NormalizeLayer nl :: l1 :: rest in
  let out := verify input label "inf" radius w in
  let nm := match cls a with
            | IBPAdaptor => TorchModel _ m
            | _ => Materialized (model_transform m (shape input))
            end in
  let p := match cls a with
           | IBPAdaptor => FastIntervalBound (Some nm) (shape input) (in_min a) (in_max a)
           | _ => IntervalFastLinBound (Some nm) (shape input) (in_min a) (in_max a)
           end in
  let x0 := {| shape := [c; height; width];
               data := map2 fdiv
                         (map2 fsub (data input)
                            (channelwise (means nl) (height * width)))
                         (channelwise (sds nl) (height * width)) |} in
  new_model (self (snd out)) = Some nm /\
  exists evs,
    log (snd out) = log w ++ evs /\
    materializations evs =
      match cls a with IBPAdaptor => [] | _ => [(m, shape input)] end /\
    calc_calls evs = [(p, bounds_input (cls a) x0, fdiv radius (coef (basic a)))] /\
    calc_oracle (self (snd out)) = Some p /\
    transcript evs (ext w) /\
    ext (snd out) = replay evs (ext w).
Proof.
  intros Hu Hun Hm Hseq Hs Hlm Hls Harg a m out nm p x0.
  assert (Hpre : input_preprocess (model (basic (self w))) input = Ok x0).
  { rewrite Hm. apply (@input_preprocess_normalize _ nl (l1 :: rest) input
                         c height width Hs Hlm Hls). }
  destruct (@verify_run _ _ w input label radius x0 Hu Harg Hpre)
    as (Hself & evs & Hl & HQ & _).
  fold a out in Hself, Hl, HQ.
  assert (Hnone : new_model a = None).
  { unfold uninitialized in Hun. fold a in Hun.
    destruct (new_model a); [discriminate | reflexivity]. }
  assert (Hc : concrete (cls a) = true) by (apply usable_concrete; exact Hu).
  assert (Ht : target (model (basic a)) = m).
  { unfold a. rewrite Hm. now apply target_not_unwrapped. }
  assert (Hbm : built_model a (shape input) = Some nm).
  { unfold built_model, nm. rewrite Ht. destruct (cls a); reflexivity. }
  assert (Ha1 : after_init a (shape input) =
                {| cls := cls a; basic := basic a; new_model := Some nm;
                   in_min := in_min a; in_max := in_max a;
                   bound := Some (built_bound a (Some nm) (shape input));
                   prebound := built_prebound a (Some nm) (shape input) |}).
  { unfold after_init. rewrite Hnone, Hbm. reflexivity. }
  split; [rewrite Hself, Ha1; reflexivity|].
  eexists. split; [exact Hl|].
  pose proof (oracle_calls_no_materialization
                (pair_events_oracle_calls HQ)) as Hq1.
  pose proof (oracle_calls_no_materialization
                (prelude_events_oracle_calls (after_init a (shape input))
                   (bounds_input (cls a) x0) (fdiv radius (coef (basic a)))
                   (ext w))) as Hq2.
  assert (Hq3 : calc_calls (init_events a (shape input)) = [])
    by apply (quiet_events (init_events_quiet a (shape input))).
  split; [|split; [|split]].
  - rewrite !materializations_app, Hq1, Hq2.
    unfold init_events. rewrite Hnone, Ht.
    destruct (cls a); try discriminate; reflexivity.
  - rewrite !calc_calls_app, Hq3, (pair_events_no_calc HQ).
    rewrite Ha1. unfold prelude_events, calc_oracle, built_bound, built_prebound, p.
    cbn [cls bound prebound].
    destruct (cls a); try discriminate; reflexivity.
  - rewrite Hself, Ha1. unfold calc_oracle, built_bound, built_prebound, p.
    cbn [cls bound prebound].
    destruct (cls a); try discriminate; reflexivity.
  - exact (@verify_transcript _ _ w input label "inf"%string radius _ Hl).
Qed.

End UnwrappedModelProperties.

Lemma normalization_applied_twice_without_sequential_witness :
  let s := Mock.script_all in
  let w := Mock.start s (Mock.fresh s FastLinIBPAdaptor MockMore.norm_then_layer) in
  let out := verify (X := Mock.externals s) Mock.image2 1 "inf" (1 # 10)%Q w in
  exists evs,
    log (snd out) = log w ++ evs /\
    materializations evs = [(MockMore.norm_then_layer, [2; 1; 2]%nat)] /\
    map (fun c => (data (snd (fst c)), snd c)) (calc_calls evs) =
      [([2; 1; -1; -2]%Q, (1 # 2)%Q)] /\
    map (fun c => Some (fst (fst c))) (calc_calls evs) =
      [calc_oracle (self (snd out))] /\
    transcript evs (ext w) /\
    ext (snd out) = replay evs (ext w).
Proof.
  destruct (@normalization_applied_twice_without_sequential Mock.QNum
              (Mock.externals Mock.script_all)
              (Mock.start Mock.script_all
                 (Mock.fresh Mock.script_all FastLinIBPAdaptor MockMore.norm_then_layer))
              Mock.image2 1 (1 # 10)%Q Mock.norm_layer (OtherLayer 0) []
              2%nat 1%nat 2%nat eq_refl eq_refl eq_refl eq_refl eq_refl eq_refl
              eq_refl eq_refl)
    as (_ & evs & Hl & Hm & Hc & Hp & Htr & Hext).
  exists evs. split; [exact Hl|]. split; [exact Hm|].
  split; [rewrite Hc; vm_compute; reflexivity|].
  split; [rewrite Hc, Hp; reflexivity|]. split; [exact Htr | exact Hext].
Defined.

(* ================================================================== *)
(** ** Further properties: the divisor of the radius *)

Module MockArith.
Import Mock.

#[export] Instance QNum_arith : NumArith QNum.
Proof.
  split; cbv [fle feqb fsub zero one QNum F].
  - reflexivity.
  - reflexivity.
  - intros a a' b b' H1 H2. apply Qle_bool_iff in H1, H2. apply Qle_bool_iff.
    rewrite !Qred_correct. unfold Qminus.
    apply Qplus_le_compat; [exact H1 | apply Qopp_le_compat; exact H2].
Defined.

End MockArith.

Section CoefProperties.
Context {N : Num} {O : NumOrder N} {A : NumArith N} {X : Externals}.

(** X16.  An instance that the constructor has built never has
    [coef == 0.0]: behind a normalization layer whose least standard
    deviation is [0.0] one of the two divisions of the constructor is by
    that deviation and raises [ZeroDivisionError], and without such a
    layer [coef] is [1.0].  The division [radius / self.coef] of the
    [verify] methods therefore never raises on a constructed instance.
    The numbers are taken with the order laws of floats that are not
    NaN. *)
Theorem constructed_coef_is_not_zero c ds (m : list layer) (a : RealAdaptor_t) :
  RealAdaptorBase_init c ds m = Ok a ->
  feqb (coef (basic a)) zero = false /\
  forall radius,
    py_truediv radius (coef (basic a)) = Ok (fdiv radius (coef (basic a))).
Proof.
  intros Hinit.
  assert (Hz : feqb (coef (basic a)) zero = false).
  { destruct (feqb (coef (basic a)) zero) eqn:Hz; [exfalso|reflexivity].
    destruct (RealAdaptorBase_init_basic _ _ _ Hinit) as (Hb & _).
    destruct (BasicAdaptor_init_coef _ _ Hb) as (_ & _ & Hcoef).
    destruct m as [|[nl|sub|k] rest];
      try (rewrite Hcoef, one_not_zero in Hz; discriminate).
    revert Hinit. unfold RealAdaptorBase_init. rewrite Hb. cbn.
    destruct (py_max (orig_means nl)) as [mx|] eqn:Hmx; cbn; [|discriminate].
    destruct (py_min (orig_means nl)) as [mn|] eqn:Hmn; cbn; [|discriminate].
    rewrite Hcoef. unfold py_truediv. cbn. rewrite Hz.
    destruct (fle (fsub zero mx) zero) eqn:Hlo; cbn; [discriminate|].
    destruct (py_max (orig_sds nl)) as [smax|]; cbn; [|discriminate].
    destruct (feqb smax zero); cbn; [discriminate|].
    destruct (fle (fsub one mn) zero) eqn:Hhi; cbn; [|discriminate].
    apply py_max_greatest in Hmx. destruct Hmx as [Imx _].
    apply py_min_least in Hmn. destruct Hmn as [_ Lmn].
    assert (H : fle (fsub zero mx) zero = true).
    { apply fle_trans with (fsub one mn); [|exact Hhi].
      apply fsub_mono; [apply zero_le_one | apply Lmn; exact Imx]. }
    congruence. }
  split; [exact Hz|]. intros radius. unfold py_truediv. rewrite Hz. reflexivity.
Qed.

End CoefProperties.

Lemma constructed_coef_is_not_zero_witness :
  let s := Mock.script1 in
  let a := Mock.fresh s MILPAdaptor Mock.net_with_norm in
  coef (basic a) = (1 # 5)%Q /\
  py_truediv (N := Mock.QNum) (1 # 10)%Q (coef (basic a)) = Ok (1 # 2)%Q.
Proof.
  split; [reflexivity|].
  exact (proj2 (@constructed_coef_is_not_zero Mock.QNum MockFacts.QNum_order
                  MockArith.QNum_arith (Mock.externals Mock.script1)
                  MILPAdaptor "cifar10" Mock.net_with_norm
                  (Mock.fresh Mock.script1 MILPAdaptor Mock.net_with_norm) eq_refl)
               (1 # 10)%Q).
Defined.
